(** * The task orchestrator of the studio backend (backend/server.ts)

    A shallow embedding of [extractJSONFromResponse], [validateFilePath],
    [createBackup], the [FUNCTION_HANDLERS] registry, [orchestrateTasks],
    [determineMessageType], [getProjectTree] and the handler of
    [POST /api/chat], together with the parts of the JavaScript runtime
    they rest on (string primitives, [JSON.parse], the POSIX [path]
    module, a file-system store), and the properties of the orchestration
    loop, of the handlers and of the chat endpoint.

    Conventions.
    - A JavaScript string is a Rocq [string] holding its UTF-8 bytes.
    - A JavaScript value that can reach the orchestrator is [undefined] or
      a JSON value; a number is kept as the literal it was written with,
      and its IEEE-754 reading is a parameter ([Numerics]).
    - Code that throws returns [Throw message]; state changes made before
      the throw stay. *)

From Stdlib Require Import Ascii String List Bool Arith Lia NArith.
From stdpp Require Import base option strings gmap.

Import ListNotations.
Local Open Scope string_scope.
Local Open Scope list_scope.
Local Open Scope nat_scope.

(** ** JavaScript strings *)

Module Str.

Definition chars (s : string) : list ascii := list_ascii_of_string s.
Definition of_chars (l : list ascii) : string := string_of_list_ascii l.

Definition code (c : ascii) : nat := nat_of_ascii c.

Definition eqb_char (a b : ascii) : bool := Ascii.eqb a b.

(** The double quote. *)
Definition dquote : ascii := Ascii false true false false false true false false.
Global Arguments eqb_char : simpl never.

(** [s.startsWith(p)] *)
Fixpoint startsWith (p s : string) : bool :=
  match p, s with
  | EmptyString, _ => true
  | String a p', String b s' => eqb_char a b && startsWith p' s'
  | String _ _, EmptyString => false
  end.

(** [s.includes(p)] *)
Fixpoint includes (p s : string) : bool :=
  startsWith p s ||
  match s with
  | EmptyString => false
  | String _ s' => includes p s'
  end.

Definition lower_char (c : ascii) : ascii :=
  let n := code c in
  if (65 <=? n) && (n <=? 90) then ascii_of_nat (n + 32) else c.

Definition upper_char (c : ascii) : ascii :=
  let n := code c in
  if (97 <=? n) && (n <=? 122) then ascii_of_nat (n - 32) else c.

(** [s.toLowerCase()] on the ASCII letters.  The only use is the test of a
    file extension against [.html], [.css] and [.js]; no character outside
    ASCII lower-cases to a letter of these, so the test is unchanged. *)
Fixpoint toLowerCase (s : string) : string :=
  match s with
  | EmptyString => EmptyString
  | String c s' => String (lower_char c) (toLowerCase s')
  end.

Fixpoint toUpperCase (s : string) : string :=
  match s with
  | EmptyString => EmptyString
  | String c s' => String (upper_char c) (toUpperCase s')
  end.

(** White space and line terminators removed by [trim]: the six ASCII
    ones, and the UTF-8 forms of U+00A0, U+1680, U+2000..U+200A, U+2028,
    U+2029, U+202F, U+205F, U+3000 and U+FEFF. *)
Definition code_space (n : N) : bool :=
  match n with
  | 9 | 10 | 11 | 12 | 13 | 32 => true
  | _ => false
  end%N.

Definition wide_space (b : N) : bool :=
  ((128 <=? b) && (b <=? 138) || (b =? 168) || (b =? 169) || (b =? 175))%N.

Fixpoint trim_start (l : list N) : list N :=
  match l with
  | 194 :: 160 :: r => trim_start r
  | 225 :: 154 :: 128 :: r => trim_start r
  | 226 :: 128 :: b :: r => if wide_space b then trim_start r else l
  | 226 :: 129 :: 159 :: r => trim_start r
  | 227 :: 128 :: 128 :: r => trim_start r
  | 239 :: 187 :: 191 :: r => trim_start r
  | c :: r => if code_space c then trim_start r else l
  | [] => []
  end%N.

(** The same white space read from the end: the argument is the reversed
    text. *)
Fixpoint trim_end_rev (l : list N) : list N :=
  match l with
  | 160 :: 194 :: r => trim_end_rev r
  | 128 :: 154 :: 225 :: r => trim_end_rev r
  | b :: 128 :: 226 :: r => if wide_space b then trim_end_rev r else l
  | 159 :: 129 :: 226 :: r => trim_end_rev r
  | 128 :: 128 :: 227 :: r => trim_end_rev r
  | 191 :: 187 :: 239 :: r => trim_end_rev r
  | c :: r => if code_space c then trim_end_rev r else l
  | [] => []
  end%N.

Definition trim_end (l : list N) : list N := rev (trim_end_rev (rev l)).

(** [s.trim()] *)
Definition trim (s : string) : string :=
  of_chars (map ascii_of_N (trim_end (trim_start (map N_of_ascii (chars s))))).

(** [s.replace(/[:.]/g, '-')] *)
Fixpoint replace_colon_dot (s : string) : string :=
  match s with
  | EmptyString => EmptyString
  | String c s' =>
      String (if eqb_char c ":"%char || eqb_char c "."%char then "-"%char else c)
             (replace_colon_dot s')
  end.

(** Number of code points of a UTF-8 text: the bytes that are not
    continuation bytes. *)
Definition is_continuation (c : ascii) : bool :=
  let n := code c in (128 <=? n) && (n <? 192).

Fixpoint code_points (s : string) : nat :=
  match s with
  | EmptyString => 0
  | String c s' => (if is_continuation c then 0 else 1) + code_points s'
  end.

(** Whether the character occurs in the text. *)
Fixpoint occurs (c : ascii) (s : string) : bool :=
  match s with
  | EmptyString => false
  | String d s' => eqb_char c d || occurs c s'
  end.

(** No character of the list is [c]. *)
Definition lacks (c : ascii) (l : list ascii) : bool :=
  forallb (fun d => negb (eqb_char d c)) l.

(** The text with every single quote turned into a double quote: JSON
    texts are written below with single quotes. *)
Fixpoint json (s : string) : string :=
  match s with
  | EmptyString => EmptyString
  | String c s' => String (if eqb_char c "'"%char then dquote else c) (json s')
  end.

End Str.

(** ** JavaScript values *)

(** What [JSON.parse] builds, and [undefined].  The properties of an
    object are kept in the order of the text; where a key is written
    twice the later entry is the property's value ([own]). *)
Local Unset Elimination Schemes.
Inductive value : Type :=
| VUndefined
| VNull
| VBool (b : bool)
| VNum (literal : string)
| VStr (s : string)
| VArr (items : list value)
| VObj (props : list (string * value)).
Local Set Elimination Schemes.

(** ** JSON.parse *)

Module JSON.

Inductive token : Type :=
| TLBrace | TRBrace | TLBracket | TRBracket | TColon | TComma
| TString (s : string)
| TNumber (literal : string)
| TTrue | TFalse | TNull.

(** *** Numbers: an optional minus, 0 or a digit string without leading
    zero, an optional fraction, an optional exponent *)

Inductive num_state : Type :=
| NStart | NMinus | NZero | NInt | NDot | NFrac | NE | NESign | NExp | NBad.

Definition is_digit (c : ascii) : bool :=
  let n := Str.code c in (48 <=? n) && (n <=? 57).

Definition is_e (c : ascii) : bool :=
  Str.eqb_char c "e"%char || Str.eqb_char c "E"%char.

Definition is_sign (c : ascii) : bool :=
  Str.eqb_char c "+"%char || Str.eqb_char c "-"%char.

Definition num_step (st : num_state) (c : ascii) : num_state :=
  match st with
  | NStart =>
      if Str.eqb_char c "-"%char then NMinus
      else if Str.eqb_char c "0"%char then NZero
      else if is_digit c then NInt else NBad
  | NMinus =>
      if Str.eqb_char c "0"%char then NZero
      else if is_digit c then NInt else NBad
  | NZero =>
      if Str.eqb_char c "."%char then NDot
      else if is_e c then NE else NBad
  | NInt =>
      if is_digit c then NInt
      else if Str.eqb_char c "."%char then NDot
      else if is_e c then NE else NBad
  | NDot => if is_digit c then NFrac else NBad
  | NFrac =>
      if is_digit c then NFrac
      else if is_e c then NE else NBad
  | NE =>
      if is_sign c then NESign
      else if is_digit c then NExp else NBad
  | NESign => if is_digit c then NExp else NBad
  | NExp => if is_digit c then NExp else NBad
  | NBad => NBad
  end.

Definition num_accepts (st : num_state) : bool :=
  match st with
  | NZero | NInt | NFrac | NExp => true
  | _ => false
  end.

Definition valid_number (l : list ascii) : bool :=
  num_accepts (fold_left num_step l NStart).

Definition is_number_char (c : ascii) : bool :=
  is_digit c || is_sign c || is_e c || Str.eqb_char c "."%char.

(** *** Strings: escapes, and the UTF-8 form of a [\uXXXX] escape *)

Definition hex_digit (c : ascii) : option N :=
  let n := N_of_ascii c in
  if ((48 <=? n) && (n <=? 57))%N then Some (n - 48)%N
  else if ((65 <=? n) && (n <=? 70))%N then Some (n - 55)%N
  else if ((97 <=? n) && (n <=? 102))%N then Some (n - 87)%N
  else None.

Definition utf8 (cp : N) : list ascii :=
  (if cp <? 128 then [ascii_of_N cp]
   else if cp <? 2048 then
     [ascii_of_N (192 + cp / 64); ascii_of_N (128 + cp mod 64)]
   else if cp <? 65536 then
     [ascii_of_N (224 + cp / 4096); ascii_of_N (128 + (cp / 64) mod 64);
      ascii_of_N (128 + cp mod 64)]
   else
     [ascii_of_N (240 + cp / 262144); ascii_of_N (128 + (cp / 4096) mod 64);
      ascii_of_N (128 + (cp / 64) mod 64); ascii_of_N (128 + cp mod 64)])%N.

Definition is_high_surrogate (u : N) : bool := ((55296 <=? u) && (u <=? 56319))%N.
Definition is_low_surrogate (u : N) : bool := ((56320 <=? u) && (u <=? 57343))%N.

Definition pair_code_point (hi lo : N) : N :=
  (65536 + (hi - 55296) * 1024 + (lo - 56320))%N.

(** The text read so far is kept reversed; [high] is a high surrogate read
    from an escape and not yet written. *)
Definition flush (high : option N) (acc : list ascii) : list ascii :=
  match high with
  | Some h => rev (utf8 h) ++ acc
  | None => acc
  end.

Definition put_unit (high : option N) (u : N) (acc : list ascii)
  : list ascii * option N :=
  match high with
  | Some h =>
      if is_low_surrogate u then (rev (utf8 (pair_code_point h u)) ++ acc, None)
      else if is_high_surrogate u then (flush high acc, Some u)
      else (rev (utf8 u) ++ flush high acc, None)
  | None =>
      if is_high_surrogate u then (acc, Some u)
      else (rev (utf8 u) ++ acc, None)
  end.

(** *** The tokenizer, one character at a time *)

Inductive mode : Type :=
| MDefault
| MString (acc : list ascii) (high : option N)
| MEscape (acc : list ascii) (high : option N)
| MUnicode (acc : list ascii) (high : option N) (more : nat) (u : N)
| MNumber (acc : list ascii)
| MLiteral (rest : list ascii) (t : token).

Definition is_ws (c : ascii) : bool :=
  let n := Str.code c in (n =? 32) || (n =? 9) || (n =? 10) || (n =? 13).

Definition default_step (c : ascii) : option (mode * list token) :=
  if is_ws c then Some (MDefault, [])
  else if Str.eqb_char c "{"%char then Some (MDefault, [TLBrace])
  else if Str.eqb_char c "}"%char then Some (MDefault, [TRBrace])
  else if Str.eqb_char c "["%char then Some (MDefault, [TLBracket])
  else if Str.eqb_char c "]"%char then Some (MDefault, [TRBracket])
  else if Str.eqb_char c ":"%char then Some (MDefault, [TColon])
  else if Str.eqb_char c ","%char then Some (MDefault, [TComma])
  else if Str.eqb_char c Str.dquote then Some (MString [] None, [])
  else if Str.eqb_char c "-"%char || is_digit c then Some (MNumber [c], [])
  else if Str.eqb_char c "t"%char then Some (MLiteral (Str.chars "rue") TTrue, [])
  else if Str.eqb_char c "f"%char then Some (MLiteral (Str.chars "alse") TFalse, [])
  else if Str.eqb_char c "n"%char then Some (MLiteral (Str.chars "ull") TNull, [])
  else None.

Definition escape_char (c : ascii) : option ascii :=
  if Str.eqb_char c Str.dquote then Some c
  else if Str.eqb_char c "\"%char then Some c
  else if Str.eqb_char c "/"%char then Some c
  else if Str.eqb_char c "b"%char then Some (ascii_of_nat 8)
  else if Str.eqb_char c "f"%char then Some (ascii_of_nat 12)
  else if Str.eqb_char c "n"%char then Some (ascii_of_nat 10)
  else if Str.eqb_char c "r"%char then Some (ascii_of_nat 13)
  else if Str.eqb_char c "t"%char then Some (ascii_of_nat 9)
  else None.

Definition step (m : mode) (c : ascii) : option (mode * list token) :=
  match m with
  | MDefault => default_step c
  | MString acc high =>
      if Str.eqb_char c Str.dquote
      then Some (MDefault, [TString (Str.of_chars (rev (flush high acc)))])
      else if Str.eqb_char c "\"%char then Some (MEscape acc high, [])
      else if Str.code c <? 32 then None
      else Some (MString (c :: flush high acc) None, [])
  | MEscape acc high =>
      if Str.eqb_char c "u"%char then Some (MUnicode acc high 4 0%N, [])
      else match escape_char c with
           | Some d => Some (MString (d :: flush high acc) None, [])
           | None => None
           end
  | MUnicode acc high more u =>
      match hex_digit c with
      | None => None
      | Some d =>
          let u' := (u * 16 + d)%N in
          match more with
          | S (S k) => Some (MUnicode acc high (S k) u', [])
          | _ => let '(acc', high') := put_unit high u' acc in
                 Some (MString acc' high', [])
          end
      end
  | MNumber acc =>
      if is_number_char c then Some (MNumber (c :: acc), [])
      else if valid_number (rev acc) then
        match default_step c with
        | Some (m', ts) => Some (m', TNumber (Str.of_chars (rev acc)) :: ts)
        | None => None
        end
      else None
  | MLiteral rest t =>
      match rest with
      | [] => None
      | x :: rest' =>
          if Str.eqb_char c x
          then match rest' with
               | [] => Some (MDefault, [t])
               | _ => Some (MLiteral rest' t, [])
               end
          else None
      end
  end.

Definition finish (m : mode) : option (list token) :=
  match m with
  | MDefault => Some []
  | MNumber acc =>
      if valid_number (rev acc) then Some [TNumber (Str.of_chars (rev acc))] else None
  | _ => None
  end.

Fixpoint tokens_from (m : mode) (s : string) : option (list token) :=
  match s with
  | EmptyString => finish m
  | String c s' =>
      match step m c with
      | None => None
      | Some (m', ts) =>
          match tokens_from m' s' with
          | None => None
          | Some rest => Some (ts ++ rest)
          end
      end
  end.

Definition tokenize (s : string) : option (list token) := tokens_from MDefault s.

(** *** The grammar, over an explicit stack of open containers *)

Inductive frame : Type :=
| FArr (items : list value)
| FObj (props : list (string * value)) (key : option string).

Inductive expect : Type :=
| EValue
| EValueOrClose
| EKeyOrClose
| EKey
| EColon
| ECommaOrClose
| EEnd (v : value).

Definition pstate : Type := expect * list frame.

(** A value is complete: it is the whole text, or goes into the innermost
    open container. *)
Definition complete (v : value) (stack : list frame) : option pstate :=
  match stack with
  | [] => Some (EEnd v, [])
  | FArr items :: st => Some (ECommaOrClose, FArr (v :: items) :: st)
  | FObj props (Some k) :: st => Some (ECommaOrClose, FObj ((k, v) :: props) None :: st)
  | FObj _ None :: _ => None
  end.

Definition start_value (t : token) (stack : list frame) : option pstate :=
  match t with
  | TString s => complete (VStr s) stack
  | TNumber n => complete (VNum n) stack
  | TTrue => complete (VBool true) stack
  | TFalse => complete (VBool false) stack
  | TNull => complete VNull stack
  | TLBrace => Some (EKeyOrClose, FObj [] None :: stack)
  | TLBracket => Some (EValueOrClose, FArr [] :: stack)
  | _ => None
  end.

Definition set_key (k : string) (stack : list frame) : option pstate :=
  match stack with
  | FObj props None :: st => Some (EColon, FObj props (Some k) :: st)
  | _ => None
  end.

Definition close_array (stack : list frame) : option pstate :=
  match stack with
  | FArr items :: st => complete (VArr (rev items)) st
  | _ => None
  end.

Definition close_object (stack : list frame) : option pstate :=
  match stack with
  | FObj props None :: st => complete (VObj (rev props)) st
  | _ => None
  end.

Definition pstep (ps : pstate) (t : token) : option pstate :=
  let '(e, stack) := ps in
  match e with
  | EValue => start_value t stack
  | EValueOrClose =>
      match t with
      | TRBracket => close_array stack
      | _ => start_value t stack
      end
  | EKeyOrClose =>
      match t with
      | TRBrace => close_object stack
      | TString k => set_key k stack
      | _ => None
      end
  | EKey =>
      match t with
      | TString k => set_key k stack
      | _ => None
      end
  | EColon =>
      match t with
      | TColon => Some (EValue, stack)
      | _ => None
      end
  | ECommaOrClose =>
      match t, stack with
      | TComma, FArr _ :: _ => Some (EValue, stack)
      | TComma, FObj _ None :: _ => Some (EKey, stack)
      | TRBracket, _ => close_array stack
      | TRBrace, _ => close_object stack
      | _, _ => None
      end
  | EEnd _ => None
  end.

Fixpoint run (ps : pstate) (ts : list token) : option value :=
  match ts with
  | [] => match ps with
          | (EEnd v, _) => Some v
          | _ => None
          end
  | t :: ts' =>
      match pstep ps t with
      | None => None
      | Some ps' => run ps' ts'
      end
  end.

(** [JSON.parse(text)]: [None] is the [SyntaxError] it throws. *)
Definition parse (text : string) : option value :=
  match tokenize text with
  | None => None
  | Some ts => run (EValue, []) ts
  end.

(** The outermost open container is an object. *)
Definition rooted (stack : list frame) : Prop :=
  exists inner props key, stack = inner ++ [FObj props key].

Definition is_end (e : expect) : bool :=
  match e with
  | EEnd _ => true
  | _ => false
  end.

(** Inside the outermost object, or done with an object as the result. *)
Definition inside (ps : pstate) : Prop := rooted (snd ps) /\ is_end (fst ps) = false.

Definition settled (ps : pstate) : Prop :=
  inside ps \/ exists props, ps = (EEnd (VObj props), []).

End JSON.

(** ** Errors and the runtime's own coercions *)

(** Errors the runtime raises by itself.  Their message texts belong to the
    engine and are a parameter ([fault_message]). *)
Inductive fault : Type :=
| NullRead (target : value) (prop : string)
| NotIterable (expr : string)
| NotAFunction (expr : string)
| NoPrimitive
| Destructure (prop : string) (target : value)
| InvalidArg (name : string) (received : value)
| ThisNullish
| FsError (code syscall path : string).

(** What a [catch] receives: an [Error] made by the program, with its
    message, or a runtime fault. *)
Inductive error : Type :=
| Error (message : string)
| Fault (f : fault).

Inductive outcome (A : Type) : Type :=
| Ok (a : A)
| Throw (e : error).
Arguments Ok {A} a.
Arguments Throw {A} e.

Definition obind {A B : Type} (o : outcome A) (k : A -> outcome B) : outcome B :=
  match o with
  | Ok a => k a
  | Throw e => Throw e
  end.

(** Readings of number literals as IEEE-754 doubles, number formatting,
    and the messages of runtime faults. *)
Record Runtime : Type := {
  is_zero : string -> bool;
  is_positive : string -> bool;
  number_to_string : string -> string;
  string_is_positive : string -> bool;
  fault_message : fault -> string
}.

Module JS.

Section WithRuntime.

Variable rt : Runtime.

(** [error.message] *)
Definition message_of (e : error) : string :=
  match e with
  | Error m => m
  | Fault f => fault_message rt f
  end.

(** ToBoolean *)
Definition truthy (v : value) : bool :=
  match v with
  | VUndefined | VNull => false
  | VBool b => b
  | VNum n => negb (is_zero rt n)
  | VStr s => negb (String.eqb s "")
  | VArr _ | VObj _ => true
  end.

(** The own property [k] of an object written as [props]. *)
Fixpoint own (k : string) (props : list (string * value)) : option value :=
  match props with
  | [] => None
  | (k', v) :: rest =>
      match own k rest with
      | Some w => Some w
      | None => if String.eqb k k' then Some v else None
      end
  end.

(** [v.k] for the property names the program reads other than [length]
    (explanation, function_calls, meta_actions, name, arguments, action,
    target, filename, content, config, type, logs, title, query): no
    prototype has one of these, so only an object's own property counts. *)
Definition get (v : value) (k : string) : outcome value :=
  match v with
  | VUndefined | VNull => Throw (Fault (NullRead v k))
  | VObj props =>
      match own k props with
      | Some w => Ok w
      | None => Ok VUndefined
      end
  | _ => Ok VUndefined
  end.

(** ToString; an object that has a property named [toString] of its own
    (never callable in a JSON value) has no primitive form. *)
Fixpoint to_string (v : value) : outcome string :=
  match v with
  | VUndefined => Ok "undefined"
  | VNull => Ok "null"
  | VBool true => Ok "true"
  | VBool false => Ok "false"
  | VNum n => Ok (number_to_string rt n)
  | VStr s => Ok s
  | VArr items =>
      (fix join (l : list value) : outcome string :=
         match l with
         | [] => Ok ""
         | x :: rest =>
             obind (match x with
                    | VUndefined | VNull => Ok ""
                    | _ => to_string x
                    end)
               (fun s =>
                  match rest with
                  | [] => Ok s
                  | _ => obind (join rest) (fun r => Ok (s +:+ "," +:+ r))
                  end)
         end) items
  | VObj props =>
      match own "toString" props with
      | Some _ => Throw (Fault NoPrimitive)
      | None => Ok "[object Object]"
      end
  end.

(** [l.join(',')] *)
Definition join_comma (l : list value) : outcome string := to_string (VArr l).

(** [v.length === 0], for [v] neither [null] nor [undefined]. *)
Definition length_is_zero (v : value) : bool :=
  match v with
  | VArr l => match l with [] => true | _ => false end
  | VStr s => String.eqb s ""
  | VObj props =>
      match own "length" props with
      | Some (VNum n) => is_zero rt n
      | _ => false
      end
  | _ => false
  end.

(** [x > 0] *)
Definition gt_zero (x : value) : outcome bool :=
  match x with
  | VUndefined | VNull => Ok false
  | VBool b => Ok b
  | VNum n => Ok (is_positive rt n)
  | VStr s => Ok (string_is_positive rt s)
  | VArr _ | VObj _ => obind (to_string x) (fun s => Ok (string_is_positive rt s))
  end.

(** [v.length > 0], for [v] neither [null] nor [undefined]. *)
Definition length_is_positive (v : value) : outcome bool :=
  match v with
  | VArr l => Ok (match l with [] => false | _ => true end)
  | VStr s => Ok (negb (String.eqb s ""))
  | VObj props =>
      match own "length" props with
      | Some x => gt_zero x
      | None => Ok false
      end
  | _ => Ok false
  end.

(** The code points of a string, each as a string. *)
Fixpoint code_point_strings (cur : list ascii) (s : string) : list string :=
  match s with
  | EmptyString =>
      match cur with
      | [] => []
      | _ => [Str.of_chars (rev cur)]
      end
  | String c s' =>
      if Str.is_continuation c then code_point_strings (c :: cur) s'
      else match cur with
           | [] => code_point_strings [c] s'
           | _ => Str.of_chars (rev cur) :: code_point_strings [c] s'
           end
  end.

(** What [for (const x of v)] visits; [expr] is the text of the iterated
    expression, which the fault names. *)
Definition for_of (expr : string) (v : value) : outcome (list value) :=
  match v with
  | VArr l => Ok l
  | VStr s => Ok (map VStr (code_point_strings [] s))
  | _ => Throw (Fault (NotIterable expr))
  end.

(** What [v.forEach(...)] visits. *)
Definition forEach_items (expr : string) (v : value) : outcome (list value) :=
  match v with
  | VArr l => Ok l
  | _ => Throw (Fault (NotAFunction (expr +:+ ".forEach")))
  end.

End WithRuntime.

End JS.

(** ** The path module (POSIX) *)

Module Path.

Fixpoint split_from (cur : list ascii) (s : string) : list string :=
  match s with
  | EmptyString => [Str.of_chars (rev cur)]
  | String c s' =>
      if Str.eqb_char c "/"%char
      then Str.of_chars (rev cur) :: split_from [] s'
      else split_from (c :: cur) s'
  end.

(** The segments of a path between its slashes. *)
Definition segments (p : string) : list string := split_from [] p.

Fixpoint join_segments (l : list string) : string :=
  match l with
  | [] => ""
  | [x] => x
  | x :: rest => x +:+ "/" +:+ join_segments rest
  end.

(** One segment applied to the segments kept so far (innermost first). *)
Definition normalize_step (allowAboveRoot : bool) (kept : list string) (seg : string)
  : list string :=
  if String.eqb seg "" || String.eqb seg "." then kept
  else if String.eqb seg ".." then
    match kept with
    | top :: rest =>
        if String.eqb top ".."
        then (if allowAboveRoot then ".." :: kept else kept)
        else rest
    | [] => if allowAboveRoot then [".."] else []
    end
  else seg :: kept.

Definition normalizeString (p : string) (allowAboveRoot : bool) : string :=
  join_segments (rev (fold_left (normalize_step allowAboveRoot) (segments p) [])).

Definition isAbsolute (p : string) : bool := Str.startsWith "/" p.

Fixpoint ends_with_slash (p : string) : bool :=
  match p with
  | EmptyString => false
  | String c EmptyString => Str.eqb_char c "/"%char
  | String _ p' => ends_with_slash p'
  end.

Definition normalize (p : string) : string :=
  if String.eqb p "" then "."
  else
    let body := normalizeString p (negb (isAbsolute p)) in
    if String.eqb body "" then
      (if isAbsolute p then "/" else if ends_with_slash p then "./" else ".")
    else
      let body' := if ends_with_slash p then body +:+ "/" else body in
      if isAbsolute p then "/" +:+ body' else body'.

(** [path.join(...args)], all arguments strings. *)
Definition join (args : list string) : string :=
  match filter (fun a => negb (String.eqb a "")) args with
  | [] => "."
  | parts => normalize (join_segments parts)
  end.

(** [path.resolve(...args)], all arguments strings; [cwd] is
    [process.cwd()].  The arguments are taken from the right until an
    absolute one is met. *)
Fixpoint resolve_from (rargs : list string) (acc : string) : string * bool :=
  match rargs with
  | [] => (acc, false)
  | a :: rest =>
      if String.eqb a "" then resolve_from rest acc
      else
        let acc' := a +:+ "/" +:+ acc in
        if isAbsolute a then (acc', true) else resolve_from rest acc'
  end.

Definition resolve (cwd : string) (args : list string) : string :=
  let '(joined, absolute) := resolve_from (rev args ++ [cwd]) "" in
  let body := normalizeString joined (negb absolute) in
  if absolute then "/" +:+ body
  else if String.eqb body "" then "." else body.

(** The last segment of a path, trailing slashes left out. *)
Definition basename (p : string) : string :=
  match filter (fun a => negb (String.eqb a "")) (rev (segments p)) with
  | [] => ""
  | b :: _ => b
  end.

(** Splits the reversed characters of a name at its last dot: the
    characters after the dot (reversed), and those before it (reversed). *)
Fixpoint split_last_dot (rchars : list ascii) (after : list ascii)
  : option (list ascii * list ascii) :=
  match rchars with
  | [] => None
  | c :: rest =>
      if Str.eqb_char c "."%char then Some (after, rest)
      else split_last_dot rest (c :: after)
  end.

(** [path.extname(p)] *)
Definition extname (p : string) : string :=
  let b := basename p in
  match split_last_dot (rev (Str.chars b)) [] with
  | None => ""
  | Some (after, before) =>
      match before with
      | [] => ""
      | _ => if String.eqb b ".." then ""
             else Str.of_chars ("."%char :: after)
      end
  end.

(** [path.dirname(p)] for a normalized absolute path. *)
Definition parent (p : string) : string :=
  match rev (segments p) with
  | _ :: (_ :: _ :: _) as up => join_segments (rev up)
  | _ => "/"
  end.

End Path.

(** ** The file system *)

Module Fs.

Inductive node : Type :=
| File (content : string)
| Dir.

(** The store maps normalized absolute paths, written without a trailing
    slash, to what is there. *)
Abbreviation store := (gmap string node).

Fixpoint strip_slashes (rchars : list ascii) : list ascii :=
  match rchars with
  | c :: rest => if Str.eqb_char c "/"%char then strip_slashes rest else rchars
  | [] => []
  end.

(** The key of a path: trailing slashes removed, the root kept. *)
Definition key (p : string) : string :=
  match strip_slashes (rev (Str.chars p)) with
  | [] => if String.eqb p "" then "" else "/"
  | l => Str.of_chars (rev l)
  end.

(** What a path names; a path written with a trailing slash names
    directories only. *)
Definition stat (fs : store) (p : string) : option node :=
  match fs !! key p with
  | Some Dir => Some Dir
  | Some (File c) => if Path.ends_with_slash p then None else Some (File c)
  | None => None
  end.

Definition existsSync (fs : store) (p : string) : bool :=
  match stat fs p with
  | Some _ => true
  | None => false
  end.

Definition fs_error (code syscall p : string) {A : Type} : outcome A :=
  Throw (Fault (FsError code syscall p)).

Definition readFileSync (fs : store) (p : string) : outcome string :=
  match fs !! key p with
  | Some (File c) =>
      if Path.ends_with_slash p then fs_error "ENOTDIR" "open" p else Ok c
  | Some Dir => fs_error "EISDIR" "read" p
  | None => fs_error "ENOENT" "open" p
  end.

(** Creating or replacing the file at [p] needs the directory above it. *)
Definition put_file (syscall : string) (fs : store) (p : string) (data : string)
  : outcome store :=
  match fs !! key p with
  | Some Dir => fs_error "EISDIR" syscall p
  | Some (File _) =>
      if Path.ends_with_slash p then fs_error "ENOTDIR" syscall p
      else Ok (<[key p := File data]> fs)
  | None =>
      if Path.ends_with_slash p then fs_error "EISDIR" syscall p
      else match fs !! Path.parent (key p) with
           | Some Dir => Ok (<[key p := File data]> fs)
           | Some (File _) => fs_error "ENOTDIR" syscall p
           | None => fs_error "ENOENT" syscall p
           end
  end.

Definition writeFileSync (fs : store) (p : string) (data : string) : outcome store :=
  put_file "open" fs p data.

Definition copyFileSync (fs : store) (src dst : string) : outcome store :=
  match readFileSync fs src with
  | Ok c => put_file "copyfile" fs dst c
  | Throw _ => fs_error "ENOENT" "copyfile" src
  end.

Definition unlinkSync (fs : store) (p : string) : outcome store :=
  match fs !! key p with
  | Some (File _) =>
      if Path.ends_with_slash p then fs_error "ENOTDIR" "unlink" p
      else Ok (delete (key p) fs)
  | Some Dir => fs_error "EISDIR" "unlink" p
  | None => fs_error "ENOENT" "unlink" p
  end.

(** [fs.mkdirSync(p)] *)
Definition mkdirSync (fs : store) (p : string) : outcome store :=
  match fs !! key p with
  | Some _ => fs_error "EEXIST" "mkdir" p
  | None =>
      match fs !! Path.parent (key p) with
      | Some Dir => Ok (<[key p := Dir]> fs)
      | Some (File _) => fs_error "ENOTDIR" "mkdir" p
      | None => fs_error "ENOENT" "mkdir" p
      end
  end.

(** The ancestors of a path from the root down, the path itself last:
    [prefixes "" ["a"; "b"]] is ["/a"; "/a/b"]. *)
Fixpoint prefixes (base : string) (segs : list string) : list string :=
  match segs with
  | [] => []
  | s :: rest =>
      let here := base +:+ "/" +:+ s in
      here :: prefixes here rest
  end.

Definition mkdir_step (acc : outcome store) (p : string) : outcome store :=
  match acc with
  | Throw e => Throw e
  | Ok fs =>
      match fs !! p with
      | Some Dir => Ok fs
      | Some (File _) => fs_error "ENOTDIR" "mkdir" p
      | None => Ok (<[p := Dir]> fs)
      end
  end.

(** [fs.mkdirSync(p, { recursive: true })] *)
Definition mkdirSync_recursive (fs : store) (p : string) : outcome store :=
  fold_left mkdir_step
    (prefixes "" (filter (fun a => negb (String.eqb a "")) (Path.segments (key p))))
    (Ok fs).

End Fs.

(** ** The backend's state and its collaborators *)

Inductive Role : Type := User | Assistant | System.

(** [ChatCompletionRequestMessage] *)
Record Message : Type := { role : Role; content : value }.

(** The state the handlers work on: the files, whether the module-level
    [db] is set, what [io.emit] has sent (oldest first), and the state
    [E] of everything outside the process. *)
Record Machine (E : Type) : Type := {
  files : Fs.store;
  db : bool;
  emitted : list (string * value);
  ext : E
}.
Arguments files {E} _.
Arguments db {E} _.
Arguments emitted {E} _.
Arguments ext {E} _.

(** The collaborators: where the program file lives, the language model
    ([createChatCompletion] followed by the read of
    [response.data.choices[0].message?.content], [None] when there is no
    content), the shell, the database driver and the clock. *)
Record Host (E : Type) : Type := {
  dirname : string;
  cwd : string;
  createChatCompletion : list Message -> E -> outcome (option string) * E;
  execAsync : string -> E -> outcome string * E;
  sqlite_open : string -> E -> outcome unit * E;
  db_all : string -> E -> outcome value * E;
  db_run : string -> E -> outcome unit * E;
  toISOString_now : E -> string * E
}.
Arguments dirname {E} _.
Arguments cwd {E} _.
Arguments createChatCompletion {E} _ _ _.
Arguments execAsync {E} _ _ _.
Arguments sqlite_open {E} _ _ _.
Arguments db_all {E} _ _ _.
Arguments db_run {E} _ _ _.
Arguments toISOString_now {E} _ _.

(** ** Computations that change a state and may throw *)

Definition M (S A : Type) : Type := S -> outcome A * S.

Definition ret {S A : Type} (a : A) : M S A := fun s => (Ok a, s).

Definition bind {S A B : Type} (m : M S A) (k : A -> M S B) : M S B :=
  fun s =>
    match m s with
    | (Ok a, s') => k a s'
    | (Throw e, s') => (Throw e, s')
    end.

Definition throw {S A : Type} (e : error) : M S A := fun s => (Throw e, s).

(** [try { m } catch (e) { h e }] *)
Definition try_catch {S A : Type} (m : M S A) (h : error -> M S A) : M S A :=
  fun s =>
    match m s with
    | (Ok a, s') => (Ok a, s')
    | (Throw e, s') => h e s'
    end.

Definition lift {S A : Type} (o : outcome A) : M S A := fun s => (o, s).

Definition gets {S A : Type} (f : S -> A) : M S A := fun s => (Ok (f s), s).

Definition modify {S : Type} (f : S -> S) : M S unit := fun s => (Ok tt, f s).

Declare Scope js_scope.
Delimit Scope js_scope with js.
Notation "'let*' x ':=' m 'in' k" := (bind m (fun x => k))
  (at level 10, x pattern, m at level 100, k at level 200) : js_scope.
Notation "m ';;' k" := (bind m (fun _ => k))
  (at level 100, k at level 200, right associativity) : js_scope.

(** [for (const x of l) { body x }] *)
Fixpoint for_each {S A : Type} (body : A -> M S unit) (l : list A) : M S unit :=
  match l with
  | [] => ret tt
  | x :: rest => bind (body x) (fun _ => for_each body rest)
  end.

(** ** The backend *)

Module Backend.

Section WithHost.

Variable rt : Runtime.
Variable E : Type.
Variable host : Host E.

Local Open Scope js_scope.

Abbreviation machine := (Machine E).

(** *** Constants *)

Definition PROJECTS_DIR : string := Path.join [dirname host; "projects"].
Definition ALLOWED_EXTENSIONS : list string := [".html"; ".css"; ".js"].

(** [l.includes(x)] on strings *)
Definition includes (l : list string) (x : string) : bool :=
  existsb (String.eqb x) l.

(** *** Helpers *)

Definition validateFilePath (projectId filename : string) : bool :=
  let projectDir := Path.join [PROJECTS_DIR; projectId] in
  let resolved := Path.resolve (cwd host) [projectDir; filename] in
  if negb (Str.startsWith projectDir resolved) then false
  else
    let ext := Str.toLowerCase (Path.extname resolved) in
    if negb (includes ALLOWED_EXTENSIONS ext) then false
    else true.

(** State primitives *)

Definition existsSync (p : string) : M machine bool :=
  gets (fun m => Fs.existsSync (files m) p).

Definition set_files (fs : Fs.store) (m : machine) : machine :=
  {| files := fs; db := db m; emitted := emitted m; ext := ext m |}.

Definition set_db (b : bool) (m : machine) : machine :=
  {| files := files m; db := b; emitted := emitted m; ext := ext m |}.

Definition set_ext (e : E) (m : machine) : machine :=
  {| files := files m; db := db m; emitted := emitted m; ext := e |}.

(** An operation on the files that may throw; the files change only when
    it succeeds. *)
Definition on_files (op : Fs.store -> outcome Fs.store) : M machine unit :=
  fun m =>
    match op (files m) with
    | Ok fs => (Ok tt, set_files fs m)
    | Throw e => (Throw e, m)
    end.

(** A call to a collaborator. *)
Definition outside {A : Type} (call : E -> A * E) : M machine A :=
  fun m => let '(a, e) := call (ext m) in (Ok a, set_ext e m).

Definition outside_try {A : Type} (call : E -> outcome A * E) : M machine A :=
  fun m => let '(o, e) := call (ext m) in (o, set_ext e m).

(** [io.emit(event, payload)] *)
Definition emit (event : string) (payload : value) : M machine unit :=
  modify (fun m =>
    {| files := files m; db := db m;
       emitted := emitted m ++ [(event, payload)]; ext := ext m |}).

(** A template literal is evaluated for a [console.log]: only a throw of a
    [${...}] substitution matters. *)
Definition console_log {S : Type} (substitutions : list value) : M S unit :=
  for_each (fun v => let* _ := lift (JS.to_string rt v) in ret tt) substitutions.

(** [const { prop } = args] *)
Definition destructure {S : Type} (args : value) (prop : string) : M S value :=
  match args with
  | VUndefined | VNull => throw (Fault (Destructure prop args))
  | _ => lift (JS.get args prop)
  end.

(** The argument check of the path and file functions: a string, or
    [ERR_INVALID_ARG_TYPE]. *)
Definition string_arg {S : Type} (name : string) (v : value) : M S string :=
  match v with
  | VStr s => ret s
  | _ => throw (Fault (InvalidArg name v))
  end.

Definition ensureProjectDir (projectId : string) : M machine unit :=
  let projectDir := Path.join [PROJECTS_DIR; projectId] in
  let* present := existsSync projectDir in
  if negb present then on_files (fun fs => Fs.mkdirSync_recursive fs projectDir)
  else ret tt.

Definition createBackup (projectId filename : string) : M machine unit :=
  ensureProjectDir projectId ;;
  let projectDir := Path.join [PROJECTS_DIR; projectId] in
  let backupsDir := Path.join [projectDir; ".backups"] in
  let* present := existsSync backupsDir in
  (if negb present then on_files (fun fs => Fs.mkdirSync fs backupsDir) else ret tt) ;;
  let originalFile := Path.join [projectDir; filename] in
  let* original := existsSync originalFile in
  if original then
    let* iso := outside (toISOString_now host) in
    let timestamp := Str.replace_colon_dot iso in
    let backupFile :=
      Path.join [backupsDir; filename +:+ "." +:+ timestamp +:+ ".bak"] in
    on_files (fun fs => Fs.copyFileSync fs originalFile backupFile)
  else ret tt.

Definition obj (props : list (string * value)) : value := VObj props.

Definition metaAction (action target : string) (data : value) : value :=
  obj [("action", VStr action); ("target", VStr target); ("data", data)].

Definition notification (type message : string) : value :=
  metaAction "display_notification" "notificationCenter"
    (obj [("type", VStr type); ("message", VStr message)]).

(** *** Function handlers *)

Definition handler : Type := value -> string -> M machine value.

Definition readFile : handler := fun args projectId =>
  let* filename := destructure args "filename" in
  console_log [filename] ;;
  let* name := string_arg "paths[1]" filename in
  if negb (validateFilePath projectId name) then throw (Error "Invalid file path")
  else
    let filePath := Path.join [PROJECTS_DIR; projectId; name] in
    let* present := existsSync filePath in
    if negb present then throw (Error "File does not exist")
    else
      let* text := (fun m => (Fs.readFileSync (files m) filePath, m)) in
      ret (VStr text).

Definition writeFile : handler := fun args projectId =>
  let* filename := destructure args "filename" in
  let* data := destructure args "content" in
  console_log [filename] ;;
  let* name := string_arg "paths[1]" filename in
  if negb (validateFilePath projectId name) then throw (Error "Invalid file path")
  else
    createBackup projectId name ;;
    let filePath := Path.join [PROJECTS_DIR; projectId; name] in
    let* text := string_arg "data" data in
    on_files (fun fs => Fs.writeFileSync fs filePath text) ;;
    emit "metaAction"
      (metaAction "refresh_component" "fileViewer"
         (obj [("projectId", VStr projectId); ("filename", filename)])) ;;
    ret (VStr ("File " +:+ name +:+ " written successfully.")).

Definition createFile : handler := fun args projectId =>
  let* filename := destructure args "filename" in
  let* data := destructure args "content" in
  console_log [filename] ;;
  let* name := string_arg "paths[1]" filename in
  if negb (validateFilePath projectId name) then throw (Error "Invalid file path")
  else
    let filePath := Path.join [PROJECTS_DIR; projectId; name] in
    let* present := existsSync filePath in
    if present then throw (Error "File already exists")
    else
      let* text := string_arg "data" data in
      on_files (fun fs => Fs.writeFileSync fs filePath text) ;;
      emit "metaAction"
        (metaAction "render_table" "projectFilesTable"
           (obj [("projectId", VStr projectId)])) ;;
      ret (VStr ("File " +:+ name +:+ " created successfully.")).

Definition deleteFile : handler := fun args projectId =>
  let* filename := destructure args "filename" in
  console_log [filename] ;;
  let* name := string_arg "paths[1]" filename in
  if negb (validateFilePath projectId name) then throw (Error "Invalid file path")
  else
    let filePath := Path.join [PROJECTS_DIR; projectId; name] in
    let* present := existsSync filePath in
    if negb present then throw (Error "File does not exist")
    else
      createBackup projectId name ;;
      on_files (fun fs => Fs.unlinkSync fs filePath) ;;
      emit "metaAction"
        (metaAction "refresh_component" "fileList"
           (obj [("projectId", VStr projectId)])) ;;
      ret (VStr ("File " +:+ name +:+ " deleted successfully.")).

Definition refreshUI : handler := fun _ projectId =>
  emit "metaAction"
    (metaAction "refresh_page" "main" (obj [("projectId", VStr projectId)])) ;;
  ret (VStr ("UI refresh triggered for project " +:+ projectId)).

(** The shape shared by stopWebsite, restartWebsite, restartBackendServer
    and installSqlite: run a command, notify, return or rethrow. *)
Definition shell_handler (command done failed rethrown result : string) : handler :=
  fun _ _ =>
    try_catch
      (outside_try (execAsync host command) ;;
       emit "metaAction" (notification "success" done) ;;
       ret (VStr result))
      (fun error =>
         emit "metaAction"
           (notification "error" (failed +:+ JS.message_of rt error)) ;;
         throw (Error (rethrown +:+ JS.message_of rt error))).

Definition stopWebsite : handler :=
  shell_handler "pm2 stop website" "Website stopped successfully."
    "Failed to stop website: " "Failed to stop website: "
    "Website stop initiated successfully.".

Definition restartWebsite : handler :=
  shell_handler "pm2 restart website" "Website restarted successfully."
    "Failed to restart website: " "Failed to restart website: "
    "Website restart initiated successfully.".

(** The exit of the process one second later is outside the model. *)
Definition stopBackendServer : handler := fun _ _ =>
  ret (VStr "Backend server stop initiated.").

Definition restartBackendServer : handler :=
  shell_handler "pm2 restart backend-server" "Backend server restarted successfully."
    "Failed to restart backend server: " "Failed to restart backend server: "
    "Backend server restart initiated successfully.".

Definition installSqlite : handler :=
  shell_handler "sudo apt-get update && sudo apt-get install -y sqlite3"
    "SQLite3 installed successfully."
    "Failed to install SQLite3: " "Failed to install sqlite3: "
    "SQLite3 installed successfully.".

Definition initSqliteDB : handler := fun _ _ =>
  let dbPath := Path.join [dirname host; "db.sqlite"] in
  try_catch
    (outside_try (sqlite_open host dbPath) ;;
     modify (set_db true) ;;
     emit "metaAction"
       (notification "success" ("Connected to SQLite database at " +:+ dbPath)) ;;
     ret (VStr ("Connected to SQLite database at " +:+ dbPath)))
    (fun error =>
       emit "metaAction"
         (notification "error"
            ("Failed to connect to SQLite database: " +:+ JS.message_of rt error)) ;;
       throw (Error ("Failed to connect to SQLite DB: " +:+ JS.message_of rt error))).

(** [query.trim().toUpperCase().startsWith('SELECT')] *)
Definition is_select {S : Type} (query : value) : M S bool :=
  match query with
  | VStr q => ret (Str.startsWith "SELECT" (Str.toUpperCase (Str.trim q)))
  | VUndefined | VNull => throw (Fault (NullRead query "trim"))
  | _ => throw (Fault (NotAFunction "query.trim"))
  end.

Definition runSqlQuery : handler := fun args _ =>
  let* query := destructure args "query" in
  let* connected := gets db in
  if negb connected
  then throw (Error "Database not initialized. Call initSqliteDB first.")
  else
    console_log [query] ;;
    try_catch
      (let* select := is_select query in
       let* text := string_arg "sql" query in
       if select then
         let* rows := outside_try (db_all host text) in
         emit "metaAction"
           (metaAction "render_table" "sqlQueryResultsTable" (obj [("rows", rows)])) ;;
         ret rows
       else
         outside_try (db_run host text) ;;
         emit "metaAction" (notification "success" "SQL query executed successfully.") ;;
         ret (VStr "Query executed successfully."))
      (fun error =>
         emit "metaAction"
           (notification "error"
              ("Error executing SQL query: " +:+ JS.message_of rt error)) ;;
         throw (Error ("Error executing SQL query: " +:+ JS.message_of rt error))).

Definition createChart : handler := fun args _ =>
  let* config := destructure args "config" in
  let* type := destructure args "type" in
  emit "metaAction"
    (metaAction "create_chart" "dashboard" (obj [("config", config); ("type", type)])) ;;
  let* title := lift (JS.get config "title") in
  let* shown := if JS.truthy rt title then lift (JS.to_string rt title) else ret "unnamed" in
  ret (VStr ("Chart " +:+ shown +:+ " created successfully.")).

Definition renderTable : handler := fun args _ =>
  let* config := destructure args "config" in
  emit "metaAction" (metaAction "render_table" "dashboard" config) ;;
  ret (VStr "Table rendered successfully.").

Definition displayLogs : handler := fun args _ =>
  let* logs := destructure args "logs" in
  emit "metaAction" (metaAction "display_logs" "logViewer" (obj [("logs", logs)])) ;;
  ret (VStr "Logs displayed successfully.").

(** The registry, in the order of the source. *)
Definition FUNCTION_HANDLERS : list (string * handler) :=
  [ ("readFile", readFile); ("writeFile", writeFile); ("createFile", createFile);
    ("deleteFile", deleteFile); ("refreshUI", refreshUI); ("stopWebsite", stopWebsite);
    ("restartWebsite", restartWebsite); ("stopBackendServer", stopBackendServer);
    ("restartBackendServer", restartBackendServer); ("installSqlite", installSqlite);
    ("initSqliteDB", initSqliteDB); ("runSqlQuery", runSqlQuery);
    ("createChart", createChart); ("renderTable", renderTable);
    ("displayLogs", displayLogs) ].


(** [FUNCTION_HANDLERS[key]] finds the registry's own property, or else
    what the object inherits from [Object.prototype]: its functions, and
    through the [__proto__] accessor the prototype object itself. *)
Inductive builtin : Type :=
| ObjectConstructor | DefineGetter | DefineSetter | HasOwnProperty
| LookupGetter | LookupSetter | IsPrototypeOf | PropertyIsEnumerable
| ObjectToString | ValueOf | ToLocaleString.

Inductive member : Type :=
| Own (h : handler)
| Inherited (b : builtin)
| PrototypeObject.

Definition Object_prototype : list (string * member) :=
  [ ("constructor", Inherited ObjectConstructor);
    ("__defineGetter__", Inherited DefineGetter);
    ("__defineSetter__", Inherited DefineSetter);
    ("hasOwnProperty", Inherited HasOwnProperty);
    ("__lookupGetter__", Inherited LookupGetter);
    ("__lookupSetter__", Inherited LookupSetter);
    ("isPrototypeOf", Inherited IsPrototypeOf);
    ("propertyIsEnumerable", Inherited PropertyIsEnumerable);
    ("toString", Inherited ObjectToString);
    ("valueOf", Inherited ValueOf);
    ("__proto__", PrototypeObject);
    ("toLocaleString", Inherited ToLocaleString) ].

Fixpoint assoc {A : Type} (key : string) (l : list (string * A)) : option A :=
  match l with
  | [] => None
  | (k, a) :: rest => if String.eqb key k then Some a else assoc key rest
  end.

(** The registry's own property names. *)
Definition registered (key : string) : bool :=
  match assoc key FUNCTION_HANDLERS with
  | Some _ => true
  | None => false
  end.

Definition FUNCTION_HANDLERS_get (key : string) : option member :=
  match assoc key FUNCTION_HANDLERS with
  | Some h => Some (Own h)
  | None => assoc key Object_prototype
  end.

(** A function of [Object.prototype] called as [handler(args, projectId)]:
    its [this] is [undefined]. *)
Definition call_builtin (b : builtin) (args : value) : M machine value :=
  match b with
  | ObjectConstructor =>
      match args with
      | VUndefined | VNull => ret (VObj [])
      | _ => ret args
      end
  | ObjectToString => ret (VStr "[object Undefined]")
  | IsPrototypeOf =>
      match args with
      | VArr _ | VObj _ => throw (Fault ThisNullish)
      | _ => ret (VBool false)
      end
  | HasOwnProperty | PropertyIsEnumerable =>
      lift (JS.to_string rt args) ;; throw (Fault ThisNullish)
  | DefineGetter | DefineSetter | LookupGetter | LookupSetter
  | ValueOf | ToLocaleString => throw (Fault ThisNullish)
  end.

(** [handler(args, projectId)] *)
Definition call (h : member) (args : value) (projectId : string) : M machine value :=
  match h with
  | Own f => f args projectId
  | Inherited b => call_builtin b args
  | PrototypeObject => throw (Fault (NotAFunction "handler"))
  end.

(** *** JSON extraction helper *)

(** The suffix that starts at the first opening brace. *)
Fixpoint from_first_open (s : string) : option string :=
  match s with
  | EmptyString => None
  | String c s' =>
      if Str.eqb_char c "{"%char then Some s else from_first_open s'
  end.

(** The reversed text from its first closing brace on. *)
Fixpoint from_first_close (rchars : list ascii) : option (list ascii) :=
  match rchars with
  | [] => None
  | c :: rest =>
      if Str.eqb_char c "}"%char then Some rchars else from_first_close rest
  end.

(** The prefix that ends at the last closing brace. *)
Definition to_last_close (s : string) : option string :=
  match from_first_close (rev (Str.chars s)) with
  | Some r => Some (Str.of_chars (rev r))
  | None => None
  end.

(** [responseText.match(/(\{[\s\S]*\})/)]: group 1 of the leftmost match,
    the star taking as much as it can. *)
Definition jsonRegex_match (responseText : string) : option string :=
  match from_first_open responseText with
  | Some s => to_last_close s
  | None => None
  end.

(** [null] is [VNull]. *)
Definition extractJSONFromResponse (responseText : string) : value :=
  match jsonRegex_match responseText with
  | None => VNull
  | Some block =>
      match JSON.parse block with
      | Some parsed => parsed
      | None => VNull
      end
  end.


(** *** Task orchestration *)

Definition MAX_ITERATIONS : nat := 20.

Inductive FunctionResult : Type :=
| Succeeded (function result : value)
| Failed (function : value) (error : string).

(** One run: the machine, the variables of [orchestrateTasks], and two
    records kept for the statements only: how often the model was asked,
    and the registry keys whose handler was called (oldest first). *)
Record Run : Type := {
  machine_of : machine;
  messages : list Message;
  lastFunctionCalls : list value;
  consecutiveFailures : nat;
  modelCalls : nat;
  called : list string
}.

Definition set_machine (m : machine) (r : Run) : Run :=
  {| machine_of := m; messages := messages r;
     lastFunctionCalls := lastFunctionCalls r;
     consecutiveFailures := consecutiveFailures r;
     modelCalls := modelCalls r; called := called r |}.

(** A computation of the machine, inside a run. *)
Definition in_machine {A : Type} (c : M machine A) : M Run A :=
  fun r => let '(o, m) := c (machine_of r) in (o, set_machine m r).

(** [messages.push(msg)] *)
Definition push (msg : Message) : M Run unit :=
  modify (fun r =>
    {| machine_of := machine_of r; messages := messages r ++ [msg];
       lastFunctionCalls := lastFunctionCalls r;
       consecutiveFailures := consecutiveFailures r;
       modelCalls := modelCalls r; called := called r |}).

Definition set_lastFunctionCalls (names : list value) : M Run unit :=
  modify (fun r =>
    {| machine_of := machine_of r; messages := messages r;
       lastFunctionCalls := names;
       consecutiveFailures := consecutiveFailures r;
       modelCalls := modelCalls r; called := called r |}).

Definition set_consecutiveFailures (n : nat) : M Run unit :=
  modify (fun r =>
    {| machine_of := machine_of r; messages := messages r;
       lastFunctionCalls := lastFunctionCalls r;
       consecutiveFailures := n;
       modelCalls := modelCalls r; called := called r |}).

Definition note_call (key : string) : M Run unit :=
  modify (fun r =>
    {| machine_of := machine_of r; messages := messages r;
       lastFunctionCalls := lastFunctionCalls r;
       consecutiveFailures := consecutiveFailures r;
       modelCalls := modelCalls r; called := called r ++ [key] |}).

(** [await openai.createChatCompletion({... messages ...})] and the read of
    the reply's content. *)
Definition ask_model : M Run (option string) :=
  fun r =>
    let m := machine_of r in
    let '(o, e) := createChatCompletion host (messages r) (ext m) in
    (o, {| machine_of := set_ext e m; messages := messages r;
           lastFunctionCalls := lastFunctionCalls r;
           consecutiveFailures := consecutiveFailures r;
           modelCalls := S (modelCalls r); called := called r |}).

Definition system_message (text : string) : Message :=
  {| role := System; content := VStr text |}.

(** The [meta_actions] part, the same in both branches:
    [if (meta_actions && meta_actions.length > 0) meta_actions.forEach(...)]. *)
Definition emit_meta_actions (parsedResponse : value) : M Run unit :=
  let* meta_actions := lift (JS.get parsedResponse "meta_actions") in
  if JS.truthy rt meta_actions then
    let* some := lift (JS.length_is_positive rt meta_actions) in
    if (some : bool) then
      let* items := lift (JS.forEach_items "parsedResponse.meta_actions" meta_actions) in
      for_each
        (fun metaAction =>
           in_machine (emit "metaAction" metaAction) ;;
           let* action := lift (JS.get metaAction "action") in
           let* target := lift (JS.get metaAction "target") in
           console_log [action; target])
        items
    else ret tt
  else ret tt.

(** The variables of the [for] loop over the function calls. *)
Record Batch : Type := {
  allSucceeded : bool;
  functionCallNames : list value;
  functionResults : list FunctionResult
}.

(** The body of [for (const funcCall of parsedResponse.function_calls)]. *)
Definition call_function (projectId : string) (b : Batch) (funcCall : value)
  : M Run Batch :=
  let* name := lift (JS.get funcCall "name") in
  let names := functionCallNames b ++ [name] in
  let* key := lift (JS.to_string rt name) in
  match FUNCTION_HANDLERS_get key with
  | Some handler =>
      try_catch
        (let* args := lift (JS.get funcCall "arguments") in
         note_call key ;;
         let* result := in_machine (call handler args projectId) in
         ret {| allSucceeded := allSucceeded b;
                functionCallNames := names;
                functionResults := functionResults b ++ [Succeeded name result] |})
        (fun funcError =>
           ret {| allSucceeded := false;
                  functionCallNames := names;
                  functionResults :=
                    functionResults b ++ [Failed name (JS.message_of rt funcError)] |})
  | None =>
      ret {| allSucceeded := false;
             functionCallNames := names;
             functionResults := functionResults b ++ [Failed name "Unknown function"] |}
  end.

Fixpoint call_functions (projectId : string) (b : Batch) (calls : list value)
  : M Run Batch :=
  match calls with
  | [] => ret b
  | funcCall :: rest =>
      let* b' := call_function projectId b funcCall in
      call_functions projectId b' rest
  end.

(** The message appended for one function result. *)
Definition report (res : FunctionResult) : M Run unit :=
  match res with
  | Succeeded function result =>
      let* f := lift (JS.to_string rt function) in
      let* r := lift (JS.to_string rt result) in
      push (system_message ("✅ " +:+ f +:+ " succeeded: " +:+ r))
  | Failed function error =>
      let* f := lift (JS.to_string rt function) in
      push (system_message ("❌ " +:+ f +:+ " failed: " +:+ error))
  end.

Inductive control : Type := Break | Next.

Definition no_calls_yet : Batch :=
  {| allSucceeded := true; functionCallNames := []; functionResults := [] |}.

(** "Execute each function call" *)
Definition run_calls (projectId : string) (function_calls : value) : M Run Batch :=
  let* calls := lift (JS.for_of "parsedResponse.function_calls" function_calls) in
  call_functions projectId no_calls_yet calls.

(** "Handle success/failure": whether the loop is left. *)
Definition settle (b : Batch) : M Run bool :=
  let* failures := gets consecutiveFailures in
  if negb (allSucceeded b) then
    set_consecutiveFailures (failures + 1) ;;
    if 3 <=? failures + 1 then
      push (system_message "Multiple consecutive failures. Ending orchestration.") ;;
      ret true
    else
      push (system_message
              "Some tasks failed. Please adjust your instructions or try a different approach.") ;;
      ret false
  else
    set_consecutiveFailures 0 ;;
    ret false.

(** "Detect repeated calls to avoid infinite loops" *)
Definition detect_repeat (b : Batch) : M Run unit :=
  let* newCallsStr := lift (JS.join_comma rt (functionCallNames b)) in
  let* last := gets lastFunctionCalls in
  let* oldCallsStr := lift (JS.join_comma rt last) in
  (if String.eqb newCallsStr oldCallsStr then
     push (system_message
             "You are repeating the same function calls as before. Please propose a different approach or end.")
   else ret tt) ;;
  set_lastFunctionCalls (functionCallNames b).

(** What follows the calls of one pass. *)
Definition conclude (parsedResponse : value) (b : Batch) : M Run control :=
  for_each report (functionResults b) ;;
  let* stop := settle b in
  if (stop : bool) then ret Break
  else
    detect_repeat b ;;
    emit_meta_actions parsedResponse ;;
    ret Next.

(** "Check for function calls", and what each answer leads to. *)
Definition act (projectId : string) (parsedResponse : value) : M Run control :=
  let* function_calls := lift (JS.get parsedResponse "function_calls") in
  if negb (JS.truthy rt function_calls) || JS.length_is_zero rt function_calls
  then
    emit_meta_actions parsedResponse ;;
    ret Break
  else
    let* b := run_calls projectId function_calls in
    conclude parsedResponse b.

(** What is done with a reply that parsed. *)
Definition respond (projectId : string) (parsedResponse : value) : M Run control :=
  let* explanation := lift (JS.get parsedResponse "explanation") in
  push {| role := Assistant; content := explanation |} ;;
  act projectId parsedResponse.

(** The [try] block of one pass of the [while] loop, up to and without
    [iteration++]. *)
Definition attempt (projectId : string) : M Run control :=
  let* reply := ask_model in
  let gptReply := option_map Str.trim reply in
  match gptReply with
  | None => ret Break
  | Some gptReply =>
      if String.eqb gptReply "" then ret Break
      else
        let parsedResponse := extractJSONFromResponse gptReply in
        if negb (JS.truthy rt parsedResponse) then
          push {| role := Assistant; content := VStr gptReply |} ;;
          ret Break
        else respond projectId parsedResponse
  end.

(** One pass of the loop: the [try] block and its [catch]. *)
Definition pass (projectId : string) (r : Run) : control * Run :=
  match attempt projectId r with
  | (Ok c, r') => (c, r')
  | (Throw error, r') =>
      (Break,
       snd (push (system_message
                    ("Error during orchestration: " +:+ JS.message_of rt error)) r'))
  end.

(** [while (iteration < MAX_ITERATIONS) { ... iteration++ }]; the result
    is the value of [iteration] when the loop is left.  [budget] bounds
    the passes still allowed and is started at [MAX_ITERATIONS]. *)
Fixpoint while_loop (budget : nat) (projectId : string) (iteration : nat) (r : Run)
  : nat * Run :=
  match budget with
  | O => (iteration, r)
  | S budget' =>
      if iteration <? MAX_ITERATIONS then
        match pass projectId r with
        | (Next, r') => while_loop budget' projectId (iteration + 1) r'
        | (Break, r') => (iteration, r')
        end
      else (iteration, r)
  end.

Definition start (initialMessages : list Message) (m : machine) : Run :=
  {| machine_of := m; messages := initialMessages; lastFunctionCalls := [];
     consecutiveFailures := 0; modelCalls := 0; called := [] |}.

Definition finish (iteration : nat) (r : Run) : Run :=
  if iteration =? MAX_ITERATIONS then
    snd (push (system_message "Max iterations reached. Orchestration ended.") r)
  else r.

(** [orchestrateTasks(initialMessages, projectId)], from the machine [m]:
    the run when it returns; its [messages] are the ones returned. *)
Definition orchestrateTasks (initialMessages : list Message) (projectId : string)
  (m : machine) : Run :=
  let '(iteration, r) :=
    while_loop MAX_ITERATIONS projectId 0 (start initialMessages m) in
  finish iteration r.


(** *** Vocabulary of the properties *)

(** [block] is a part of [text]. *)
Definition contains (block text : string) : Prop :=
  exists pre post, text = pre +:+ block +:+ post.

(** [block] is the text of a well-formed JSON object. *)
Definition object_text (block : string) : Prop :=
  Str.startsWith "{" block = true /\ exists props, JSON.parse block = Some (VObj props).

(** What the model gives when asked at the run [r]. *)
Definition model_reply (r : Run) : outcome (option string) :=
  fst (createChatCompletion host (messages r) (ext (machine_of r))).

(** The run once the model has been asked. *)
Definition asked (r : Run) : Run := snd (ask_model r).

(** At the run [r] the model's reply parses to [parsedResponse]. *)
Definition parses_to (r : Run) (parsedResponse : value) : Prop :=
  exists reply,
    model_reply r = Ok (Some reply)
    /\ extractJSONFromResponse (Str.trim reply) = parsedResponse
    /\ parsedResponse <> VNull.

(** The [explanation] of a parsed response, [undefined] when it has none. *)
Definition explanation_of (parsedResponse : value) : value :=
  match JS.get parsedResponse "explanation" with
  | Ok v => v
  | Throw _ => VUndefined
  end.

(** [MetaAction]: an object whose [action] and [target] are strings. *)
Definition is_meta_action (v : value) : bool :=
  match v with
  | VObj props =>
      match JS.own "action" props, JS.own "target" props with
      | Some (VStr _), Some (VStr _) => true
      | _, _ => false
      end
  | _ => false
  end.

(** [GPTFunctionCall]: an object whose [name] is a string. *)
Definition is_function_call (v : value) : bool :=
  match v with
  | VObj props =>
      match JS.own "name" props with
      | Some (VStr _) => true
      | _ => false
      end
  | _ => false
  end.

(** The meta-actions a parsed response carries: none when the field is
    missing or [null]; the field must else be a list of meta-actions. *)
Definition meta_actions_of (parsedResponse : value) : option (list value) :=
  match parsedResponse with
  | VObj props =>
      match JS.own "meta_actions" props with
      | None | Some VNull => Some []
      | Some (VArr l) => if forallb is_meta_action l then Some l else None
      | Some _ => None
      end
  | _ => None
  end.

(** The function calls a parsed response proposes, in the same way. *)
Definition function_calls_of (parsedResponse : value) : option (list value) :=
  match parsedResponse with
  | VObj props =>
      match JS.own "function_calls" props with
      | None | Some VNull => Some []
      | Some (VArr l) => if forallb is_function_call l then Some l else None
      | Some _ => None
      end
  | _ => None
  end.

(** The run after the given meta-actions have been broadcast. *)
Definition broadcast (acts : list value) (r : Run) : Run :=
  let m := machine_of r in
  set_machine
    {| files := files m; db := db m;
       emitted := emitted m ++ map (fun a => ("metaAction", a)) acts;
       ext := ext m |} r.

(** The transcript of [b] is that of [a] with messages appended. *)
Definition extends (a b : Run) : Prop :=
  exists tail, messages b = messages a ++ tail.

(** The [name] of a proposed function call, [undefined] when it has none. *)
Definition name_of (funcCall : value) : value :=
  match JS.get funcCall "name" with
  | Ok v => v
  | Throw _ => VUndefined
  end.

(** [res.function] *)
Definition function_of (res : FunctionResult) : value :=
  match res with
  | Succeeded function _ => function
  | Failed function _ => function
  end.

Definition is_succeeded (res : FunctionResult) : bool :=
  match res with
  | Succeeded _ _ => true
  | Failed _ _ => false
  end.

(** Every call of the batch failed. *)
Definition all_failed (b : Batch) : bool :=
  forallb (fun res => negb (is_succeeded res)) (functionResults b).

(** The text of the message that reports a function result; [None] when
    the function name or the result has no text. *)
Definition report_text (res : FunctionResult) : option string :=
  match res with
  | Succeeded function result =>
      match JS.to_string rt function, JS.to_string rt result with
      | Ok f, Ok r => Some ("✅ " +:+ f +:+ " succeeded: " +:+ r)
      | _, _ => None
      end
  | Failed function error =>
      match JS.to_string rt function with
      | Ok f => Some ("❌ " +:+ f +:+ " failed: " +:+ error)
      | Throw _ => None
      end
  end.

Fixpoint report_texts (results : list FunctionResult) : option (list string) :=
  match results with
  | [] => Some []
  | res :: rest =>
      match report_text res, report_texts rest with
      | Some t, Some ts => Some (t :: ts)
      | _, _ => None
      end
  end.

(** The run with the given messages appended. *)
Definition with_appended (msgs : list Message) (r : Run) : Run :=
  {| machine_of := machine_of r; messages := messages r ++ msgs;
     lastFunctionCalls := lastFunctionCalls r;
     consecutiveFailures := consecutiveFailures r;
     modelCalls := modelCalls r; called := called r |}.

(** The pass at the run [r] executes function calls: the reply parses to
    [parsedResponse], a well-formed response that proposes at least one
    call; the calls leave the batch [b] and the run [r2]. *)
Definition executes (projectId : string) (r : Run) (parsedResponse : value)
  (b : Batch) (r2 : Run) : Prop :=
  parses_to r parsedResponse
  /\ meta_actions_of parsedResponse <> None
  /\ exists c calls,
       function_calls_of parsedResponse = Some (c :: calls)
       /\ call_functions projectId no_calls_yet (c :: calls)
            (snd (push {| role := Assistant;
                          content := explanation_of parsedResponse |} (asked r)))
          = (Ok b, r2).

(** [executes], computed: the parsed response, the batch and the run
    after the calls, when the pass at [r] executes function calls. *)
Definition executing (projectId : string) (r : Run) : option (value * Batch * Run) :=
  match model_reply r with
  | Ok (Some reply) =>
      let parsedResponse := extractJSONFromResponse (Str.trim reply) in
      match parsedResponse, meta_actions_of parsedResponse,
            function_calls_of parsedResponse with
      | VObj _, Some _, Some (c :: calls) =>
          match call_functions projectId no_calls_yet (c :: calls)
                  (snd (push {| role := Assistant;
                                content := explanation_of parsedResponse |}
                          (asked r))) with
          | (Ok b, r2) => Some (parsedResponse, b, r2)
          | (Throw _, _) => None
          end
      | _, _, _ => None
      end
  | _ => None
  end.

(** A pass in which function calls are executed and every one fails. *)
Definition failing_pass (projectId : string) (r : Run) : Prop :=
  exists parsedResponse b r2,
    executes projectId r parsedResponse b r2 /\ all_failed b = true.

(** [failing_pass], computed. *)
Definition failing (projectId : string) (r : Run) : bool :=
  match executing projectId r with
  | Some (_, b, _) => all_failed b
  | None => false
  end.

Definition failures_message : Message :=
  system_message "Multiple consecutive failures. Ending orchestration.".

Definition adjust_message : Message :=
  system_message
    "Some tasks failed. Please adjust your instructions or try a different approach.".

Definition repeating_message : Message :=
  system_message
    "You are repeating the same function calls as before. Please propose a different approach or end.".

(** What holds of the run at the start of every pass: fewer than three
    consecutive failures, and names of the last calls that have a text. *)
Definition sound (r : Run) : Prop :=
  consecutiveFailures r < 3
  /\ exists s, JS.join_comma rt (lastFunctionCalls r) = Ok s.

(** Two runs with the same loop variables other than the transcript. *)
Definition same_variables (a b : Run) : Prop :=
  consecutiveFailures b = consecutiveFailures a
  /\ lastFunctionCalls b = lastFunctionCalls a.

(** Two runs with the same loop variables, the transcript included. *)
Definition same_locals (a b : Run) : Prop :=
  same_variables a b /\ messages b = messages a.

(** The run after [settle], when the reports are in: the count is reset
    or raised, and the matching message appended. *)
Definition settled_run (b : Batch) (r : Run) : Run :=
  if allSucceeded b then snd (set_consecutiveFailures 0 r)
  else
    with_appended
      [if 3 <=? consecutiveFailures r + 1 then failures_message else adjust_message]
      (snd (set_consecutiveFailures (consecutiveFailures r + 1) r)).

(** The run after the comparison with the names of the pass before. *)
Definition compared_run (b : Batch) (newCallsStr oldCallsStr : string) (r : Run) : Run :=
  snd (set_lastFunctionCalls (functionCallNames b)
         (if String.eqb newCallsStr oldCallsStr
          then with_appended [repeating_message] r else r)).

(** Whether the pass is the third failing one in a row. *)
Definition third_failure (b : Batch) (r : Run) : bool :=
  negb (allSucceeded b) && (3 <=? consecutiveFailures r + 1).

(** The message is a text that contains the word. *)
Definition mentions (word : string) (msg : Message) : bool :=
  match content msg with
  | VStr s => Str.includes word s
  | _ => false
  end.

(** The path [p] is the directory [dir] or lies below it. *)
Definition within (dir p : string) : bool :=
  String.eqb p dir || Str.startsWith (dir +:+ "/") p.

(** A computation leaves the run in the relation [P] to where it began. *)
Definition keeps {A : Type} (P : Run -> Run -> Prop) (c : M Run A) : Prop :=
  forall r, P r (snd (c r)).

(** The run at the start of the pass number [k], counted from 0; [None]
    when the loop was left before that pass. *)
Fixpoint at_pass (k : nat) (projectId : string) (r : Run) : option Run :=
  match k with
  | O => Some r
  | S k' =>
      match pass projectId r with
      | (Next, r') => at_pass k' projectId r'
      | (Break, _) => None
      end
  end.

(** Every pass from number [k] on, [n] of them, is a failing one as far
    as the loop, started at the run [r], gets. *)
Definition all_failing (projectId : string) (r : Run) (k n : nat) : bool :=
  forallb
    (fun i =>
       match at_pass i projectId r with
       | Some ri => failing projectId ri
       | None => true
       end)
    (seq k n).

(** The value of [iteration] when the loop of a whole run is left. *)
Definition final_iteration (initialMessages : list Message) (projectId : string)
  (m : machine) : nat :=
  fst (while_loop MAX_ITERATIONS projectId 0 (start initialMessages m)).

End WithHost.

End Backend.

(** ** What a computation leaves as it was *)

Module Effects.

(** A computation leaves the state in the relation [P] to where it began,
    whether it returns or throws. *)
Definition preserves {S A : Type} (P : S -> S -> Prop) (c : M S A) : Prop :=
  forall s, P s (snd (c s)).

Section WithMachine.

Variable E : Type.

(** The files are the same. *)
Definition same_files (a b : Machine E) : Prop := files b = files a.

(** Everything that was there is still there, with the same content. *)
Definition keeps_entries (a b : Machine E) : Prop := files a ⊆ files b.

(** The same, but for the entries at the given keys. *)
Definition keeps_entries_but (keys : list string) (a b : Machine E) : Prop :=
  forall p n, ~ In p keys -> files a !! p = Some n -> files b !! p = Some n.

(** What has been broadcast is still there, followed by what was
    broadcast since. *)
Definition more_events (a b : Machine E) : Prop :=
  exists tail, emitted b = emitted a ++ tail.

(** A database that was connected still is. *)
Definition still_connected (a b : Machine E) : Prop :=
  db a = true -> db b = true.

(** The files grow and nothing else changes. *)
Definition grows (a b : Machine E) : Prop :=
  files a ⊆ files b /\ ext b = ext a /\ emitted b = emitted a /\ db b = db a.

End WithMachine.

Section WithHost.

Variable E : Type.
Variable host : Host E.

(** The path the four file functions work on. *)
Definition filePath (projectId filename : string) : string :=
  Path.join [Backend.PROJECTS_DIR E host; projectId; filename].

(** The file [createBackup] copies. *)
Definition originalFile (projectId filename : string) : string :=
  Path.join [Path.join [Backend.PROJECTS_DIR E host; projectId]; filename].

(** The copy [createBackup] makes when it is called at the machine [m]:
    the time is read from the clock then. *)
Definition backupFile (projectId filename : string) (m : Machine E) : string :=
  Path.join
    [ Path.join [Path.join [Backend.PROJECTS_DIR E host; projectId]; ".backups"];
      filename +:+ "." +:+ Str.replace_colon_dot (fst (toISOString_now host (ext m)))
        +:+ ".bak" ].



End WithHost.

Section WithRun.

Variable E : Type.

(** Between two runs: the registry keys called since, and the files as
    they were when none of these keys is of a function that writes. *)
Definition files_follow_calls (writes : string -> bool) (a b : Backend.Run E) : Prop :=
  exists keys,
    Backend.called E b = Backend.called E a ++ keys
    /\ (forallb (fun key => negb (writes key)) keys = true ->
        files (Backend.machine_of E b) = files (Backend.machine_of E a)).

(** A relation between machines, as one between runs. *)
Definition of_machine (Q : Machine E -> Machine E -> Prop) (a b : Backend.Run E) : Prop :=
  Q (Backend.machine_of E a) (Backend.machine_of E b).

End WithRun.

(** The registry keys of the functions that write to the files. *)
Definition writes_files (key : string) : bool :=
  String.eqb key "writeFile" || String.eqb key "createFile"
  || String.eqb key "deleteFile".

End Effects.

(** ** Paths, by their segments *)

Module Segments.

(** A plain name: one segment of a path, and not a step. *)
Definition plain (seg : string) : bool :=
  negb (String.eqb seg "") && negb (String.eqb seg ".") && negb (String.eqb seg "..")
  && negb (Str.occurs "/" seg).

(** The names a path leads through from the root, innermost first. *)
Definition stack (p : string) : list string :=
  fold_left (Path.normalize_step false) (Path.segments p) [].

(** The path of a stack. *)
Definition path_of (st : list string) : string :=
  "/" +:+ Path.join_segments (rev st).

End Segments.

(** ** The chat endpoint *)

Module Api.

(** *** The type of a message *)

Inductive MessageType : Type := Command | Query | Status | Other.

Definition commandKeywords : list string :=
  ["create"; "delete"; "update"; "install"; "run"; "stop"; "restart"].
Definition queryKeywords : list string := ["what"; "how"; "list"; "show"; "describe"].
Definition statusKeywords : list string := ["status"; "running"; "error"; "issue"].

(** [l.some(test)] *)
Definition some {A : Type} (test : A -> bool) (l : list A) : bool := existsb test l.

(** The message is lower-cased on its ASCII letters.  Outside ASCII the
    lower-casing of the engine gives an ASCII letter twice only: [k], for
    the Kelvin sign, and [i] followed by a combining dot, for the dotted
    capital I; no keyword has a [k] and none ends in [i], so no keyword
    is found or missed by the difference. *)
Definition determineMessageType (message : string) : MessageType :=
  let lowerCaseMsg := Str.toLowerCase message in
  if some (fun word => Str.includes word lowerCaseMsg) commandKeywords then Command
  else if some (fun word => Str.startsWith word lowerCaseMsg) queryKeywords then Query
  else if some (fun word => Str.includes word lowerCaseMsg) statusKeywords then Status
  else Other.

(** *** What the engine and the operating system decide *)

(** How deep calls may nest before the engine throws its [RangeError],
    the order in which a directory is listed, and
    [JSON.stringify(v, null, 2)]. *)
Record Platform : Type := {
  stack_depth : nat;
  readdir_order : list string -> list string;
  stringify_indented : value -> string
}.

(** The text with every [^] turned into a double quote. *)
Fixpoint quoted (s : string) : string :=
  match s with
  | EmptyString => EmptyString
  | String c s' => String (if Str.eqb_char c "^"%char then Str.dquote else c) (quoted s')
  end.

Definition newline : string := String (ascii_of_nat 10) EmptyString.

Section WithHost.

Variable rt : Runtime.
Variable E : Type.
Variable host : Host E.
Variable platform : Platform.

Local Open Scope js_scope.

(** *** The project tree *)

(** The names in a directory. *)
Definition entries (fs : Fs.store) (dir : string) : list string :=
  map (fun kv => Path.basename (fst kv))
    (filter (fun kv => bool_decide (Path.parent (fst kv) = dir /\ fst kv <> dir))
       (map_to_list fs)).

(** [fs.readdirSync(p)] *)
Definition readdirSync (fs : Fs.store) (p : string) : outcome (list string) :=
  match fs !! Fs.key p with
  | Some Fs.Dir => Ok (readdir_order platform (entries fs (Fs.key p)))
  | Some (Fs.File _) => Fs.fs_error "ENOTDIR" "scandir" p
  | None => Fs.fs_error "ENOENT" "scandir" p
  end.

(** [l.map(f)] for an [f] that may throw. *)
Fixpoint map_throwing {A B : Type} (f : A -> outcome B) (l : list A) : outcome (list B) :=
  match l with
  | [] => Ok []
  | x :: rest =>
      obind (f x) (fun y => obind (map_throwing f rest) (fun ys => Ok (y :: ys)))
  end.

(** [getProjectTree(dirPath)]; [depth] is how many calls may still nest. *)
Fixpoint getProjectTree (depth : nat) (fs : Fs.store) (dirPath : string) : outcome value :=
  match depth with
  | O => Throw (Error "Maximum call stack size exceeded")
  | S depth' =>
      match fs !! Fs.key dirPath with
      | None => Fs.fs_error "ENOENT" "stat" dirPath
      | Some (Fs.File _) =>
          if Path.ends_with_slash dirPath then Fs.fs_error "ENOTDIR" "stat" dirPath
          else Ok (VStr (Path.basename dirPath))
      | Some Fs.Dir =>
          obind (readdirSync fs dirPath) (fun names =>
          obind (map_throwing
                   (fun name => getProjectTree depth' fs (Path.join [dirPath; name]))
                   names) (fun children =>
          Ok (VObj [ ("name", VStr (Path.basename dirPath));
                     ("type", VStr "directory");
                     ("children", VArr children) ])))
      end
  end.

(** *** The server *)

(** The machine and the conversation history, an object keyed by project. *)
Record Server : Type := {
  machine : Machine E;
  conversationHistory : gmap string (list Message)
}.

(** What becomes of a request: a response is sent, or the error is passed
    to the error-handling middleware by [next(error)], or the handler
    throws outside its [try]. *)
Inductive Response : Type :=
| Sent (status : nat) (body : value)
| Next (error : error)
| Unhandled (error : error).

Definition baseSystemMessage : Message :=
  Backend.system_message (quoted "
You are a sophisticated coding assistant capable of managing complex, multi-step tasks to help build and modify a website.
Below is relevant guidance from OpenAI about JSON mode output:

^When JSON mode is turned on, the model's output is ensured to be valid JSON, except in some edge cases. 
If you are using function calling, JSON mode is always turned on.
To turn on JSON mode with Chat Completions or Assistants API, set response_format = { ^type^: ^json_object^ }.

Your application must detect and handle edge cases where the model's output may not be complete JSON. 
Always instruct the model to produce JSON, or it may run until the token limit is reached.

JSON mode does not guarantee the output matches your schema. 
You should use a validation library or structured outputs to ensure the result is correct.^

## What you can do:
- **Read File** -> `readFile({^filename^: ^...^})`
- **Write/Update File** -> `writeFile({^filename^: ^...^, ^content^: ^...^})`
- **Create File** -> `createFile({^filename^: ^...^, ^content^: ^...^})`
- **Delete File** -> `deleteFile({^filename^: ^...^})`
- **Refresh UI** -> `refreshUI({^projectId^: ^...^})`
- **Stop Website** -> `stopWebsite()`
- **Restart Website** -> `restartWebsite()`
- **Stop Backend Server** -> `stopBackendServer()`
- **Restart Backend Server** -> `restartBackendServer()`
- **Install SQLite** -> `installSqlite()`
- **Initialize SQLite DB** -> `initSqliteDB()`
- **Run SQL Query** -> `runSqlQuery({^query^: ^...^})`
- **Create Chart** -> `createChart({^config^: {...}, ^type^: ^...^})`
- **Render Table** -> `renderTable({^config^: {...}})`
- **Display Logs** -> `displayLogs({^logs^: [^log1^, ^log2^, ...]})`

## Please follow these rules:
1. Always return valid JSON.
2. Provide a short, clear `explanation` of your plan or actions.
3. If you need no actions, set `function_calls` and `meta_actions` to empty arrays.
4. You may propose multiple function calls and meta-actions at once if necessary (multi-step).
5. If a function fails, you can propose a new plan or ask the user for more info.

**Response Format** (JSON):
{
  ^explanation^: ^...^,
  ^function_calls^: [
    {
      ^name^: ^someFunction^,
      ^arguments^: {}
    }
  ],
  ^meta_actions^: [
    {
      ^action^: ^refresh_page^,
      ^target^: ^main^,
      ^data^: {}
    }
  ]
}
").

(** [userMessages.map(msg => ({ message: msg, type: determineMessageType(msg) }))];
    what is not a string has no [toLowerCase]. *)
Definition categorize (msg : value) : outcome (string * MessageType) :=
  match msg with
  | VStr message => Ok (message, determineMessageType message)
  | VUndefined | VNull => Throw (Fault (NullRead msg "toLowerCase"))
  | _ => Throw (Fault (NotAFunction "message.toLowerCase"))
  end.

Definition in_quotes (message : string) : string :=
  String Str.dquote (message +:+ String Str.dquote EmptyString).

Definition dynamicSystemMessage (categorized : string * MessageType) : Message :=
  let '(message, type) := categorized in
  Backend.system_message
    (match type with
     | Command => "Handle the following command: "
     | Query => "Respond to the following query: "
     | Status => "Provide status information for: "
     | Other => "Process the following message: "
     end +:+ in_quotes message).

Definition userMessage (categorized : string * MessageType) : Message :=
  {| role := User; content := VStr (fst categorized) |}.

(** [l.slice(-n)] *)
Definition slice_last {A : Type} (n : nat) (l : list A) : list A :=
  skipn (length l - n) l.

(** The project structure message. *)
Definition projectStructureMessage (dirTree : value) : Message :=
  Backend.system_message
    ("Here is the current project structure:" +:+ newline
     +:+ stringify_indented platform dirTree).

(** The messages the orchestration is seeded with. *)
Definition seed_messages (dirTree : value) (history : list Message)
  (categorizedMessages : list (string * MessageType)) : list Message :=
  [baseSystemMessage; projectStructureMessage dirTree]
  ++ slice_last 5 history
  ++ map dynamicSystemMessage categorizedMessages
  ++ map userMessage categorizedMessages.

(** [if (!conversationHistory[projectId]) conversationHistory[projectId] = []]
    and the read that follows.  The history is an object: a key it does
    not have of its own is looked up in [Object.prototype], and what is
    found there is no array. *)
Definition history_of (projectId : string) : M Server (list Message) :=
  fun s =>
    match conversationHistory s !! projectId with
    | Some history => (Ok history, s)
    | None =>
        match Backend.assoc projectId (Backend.Object_prototype E) with
        | Some _ =>
            (Throw (Fault (NotAFunction "conversationHistory[projectId].slice")), s)
        | None =>
            (Ok [], {| machine := machine s;
                       conversationHistory := <[projectId := []]> (conversationHistory s) |})
        end
    end.

(** No project named like a member of [Object.prototype] has a history
    of its own. *)
Definition no_inherited_key (s : Server) : Prop :=
  forall projectId,
    Backend.assoc projectId (Backend.Object_prototype E) <> None ->
    conversationHistory s !! projectId = None.

(** [await orchestrateTasks(messages, projectId)] and the read of
    [finalResponse.messages]. *)
Definition orchestrate (messages : list Message) (projectId : string)
  : M Server (list Message) :=
  fun s =>
    let final := Backend.orchestrateTasks rt E host messages projectId (machine s) in
    (Ok (Backend.messages E final),
     {| machine := Backend.machine_of E final;
        conversationHistory := conversationHistory s |}).

(** [conversationHistory[projectId].push(...latestMessages)] *)
Definition remember (projectId : string) (latestMessages : list Message) : M Server unit :=
  modify (fun s =>
    {| machine := machine s;
       conversationHistory :=
         match conversationHistory s !! projectId with
         | Some history =>
             <[projectId := history ++ latestMessages]> (conversationHistory s)
         | None => conversationHistory s
         end |}).

Definition is_assistant (msg : Message) : bool :=
  match role msg with
  | Assistant => true
  | _ => false
  end.

(** The final textual reply. *)
Definition finalReply (latestMessages : list Message) : value :=
  match find is_assistant (rev latestMessages) with
  | Some lastAssistantMessage => content lastAssistantMessage
  | None => VStr ""
  end.

(** The [try] block of the handler of [POST /api/chat]. *)
Definition chat_try (userMessages : list value) (projectId : string) : M Server value :=
  let* categorizedMessages := lift (map_throwing categorize userMessages) in
  let projectDir := Path.join [Backend.PROJECTS_DIR E host; projectId] in
  let* present := gets (fun s => Fs.existsSync (files (machine s)) projectDir) in
  let* dirTree :=
    if (present : bool)
    then (fun s => (getProjectTree (stack_depth platform) (files (machine s)) projectDir, s))
    else ret (VObj [("error", VStr "Project directory does not exist")]) in
  let* history := history_of projectId in
  let messages := seed_messages dirTree history categorizedMessages in
  let* latestMessages := orchestrate messages projectId in
  remember projectId latestMessages ;;
  ret (VObj [("reply", finalReply latestMessages)]).

(** [app.post('/api/chat', ...)]; [body] is [req.body]. *)
Definition chat (body : value) (s : Server) : Response * Server :=
  match body with
  | VUndefined | VNull => (Unhandled (Fault (Destructure "userMessages" body)), s)
  | _ =>
      match JS.get body "userMessages", JS.get body "projectId" with
      | Ok (VArr userMessages), Ok projectId =>
          match projectId with
          | VStr id =>
              if String.eqb id ""
              then (Sent 400 (VObj [("error", VStr "Missing or invalid projectId")]), s)
              else
                match chat_try userMessages id s with
                | (Ok reply, s') => (Sent 200 reply, s')
                | (Throw error, s') => (Next error, s')
                end
          | _ => (Sent 400 (VObj [("error", VStr "Missing or invalid projectId")]), s)
          end
      | _, _ =>
          (Sent 400 (VObj [("error", VStr "userMessages must be an array of strings")]), s)
      end
  end.

End WithHost.

End Api.

(** ** A concrete runtime and a scripted host *)

Module Scripted.

(** A number literal reads as zero when every digit before the exponent
    is 0 (the literals used below are short integers). *)
Fixpoint mantissa_zero (s : string) : bool :=
  match s with
  | EmptyString => true
  | String c s' =>
      if JSON.is_e c then true
      else if JSON.is_digit c then Str.eqb_char c "0"%char && mantissa_zero s'
      else mantissa_zero s'
  end.

Definition show_value (v : value) : string :=
  match v with
  | VUndefined => "undefined"
  | VNull => "null"
  | _ => "a value"
  end.

Definition fault_text (f : fault) : string :=
  match f with
  | NullRead target prop =>
      "Cannot read properties of " +:+ show_value target +:+ " (reading '" +:+ prop +:+ "')"
  | NotIterable expr => expr +:+ " is not iterable"
  | NotAFunction expr => expr +:+ " is not a function"
  | NoPrimitive => "Cannot convert object to primitive value"
  | Destructure prop target =>
      "Cannot destructure property '" +:+ prop +:+ "' of 'args' as it is "
        +:+ show_value target +:+ "."
  | InvalidArg name received =>
      "The '" +:+ name +:+ "' argument must be of type string."
  | ThisNullish => "Cannot convert undefined or null to object"
  | FsError code syscall path =>
      code +:+ ": " +:+ syscall +:+ " '" +:+ path +:+ "'"
  end.

Definition runtime : Runtime :=
  {| is_zero := mantissa_zero;
     is_positive := fun s => negb (Str.startsWith "-" s) && negb (mantissa_zero s);
     number_to_string := fun s => s;
     string_is_positive := fun _ => false;
     fault_message := fault_text |}.

(** The outside world of the scripted host: the replies the model still
    has to give.  Each request takes the next one; when none is left the
    reply has no content.  No shell command and no database is there. *)
Definition script : Type := list (outcome (option string)).

Definition next_reply (_ : list Message) (s : script) : outcome (option string) * script :=
  match s with
  | [] => (Ok None, [])
  | o :: rest => (o, rest)
  end.

Definition host : Host script :=
  {| dirname := "/srv/backend";
     cwd := "/srv/backend";
     createChatCompletion := next_reply;
     execAsync := fun _ s => (Throw (Error "Command failed"), s);
     sqlite_open := fun _ s => (Throw (Error "unable to open database file"), s);
     db_all := fun _ s => (Throw (Error "no such table"), s);
     db_run := fun _ s => (Throw (Error "no such table"), s);
     toISOString_now := fun s => ("2025-01-01T00:00:00.000Z", s) |}.

Definition says (text : string) : outcome (option string) := Ok (Some text).

Definition machine (fs : Fs.store) (s : script) : Machine script :=
  {| files := fs; db := false; emitted := []; ext := s |}.

Definition run (fs : Fs.store) (s : script) (seed : list Message) (projectId : string)
  : Backend.Run script :=
  Backend.orchestrateTasks runtime script host seed projectId (machine fs s).

(** A project [site] with one page, and next to it a directory
    [site-old] of another project. *)
Definition disk : Fs.store :=
  list_to_map
    [ ("/", Fs.Dir); ("/srv", Fs.Dir); ("/srv/backend", Fs.Dir);
      ("/srv/backend/projects", Fs.Dir);
      ("/srv/backend/projects/site", Fs.Dir);
      ("/srv/backend/projects/site/index.html", Fs.File "<h1>site</h1>");
      ("/srv/backend/projects/site-old", Fs.Dir);
      ("/srv/backend/projects/site-old/index.html", Fs.File "<h1>old</h1>") ].

Definition seed : list Message :=
  [ {| role := User; content := VStr "please update the site" |} ].

(** A reply that proposes one call of the function [name] with the
    arguments [args] (JSON, single-quoted). *)
Definition proposes (name args : string) : outcome (option string) :=
  says (Str.json ("{'explanation':'calling " +:+ name
                  +:+ "','function_calls':[{'name':'" +:+ name
                  +:+ "','arguments':" +:+ args +:+ "}],'meta_actions':[]}")).

(** A reply with no function call and one meta-action. *)
Definition done : outcome (option string) :=
  says (Str.json
          "{'explanation':'all done','function_calls':[],'meta_actions':[{'action':'refresh_page','target':'main','data':{}}]}").

(** What [done] parses to. *)
Definition done_response : value :=
  VObj [ ("explanation", VStr "all done");
         ("function_calls", VArr []);
         ("meta_actions",
          VArr [VObj [("action", VStr "refresh_page"); ("target", VStr "main");
                      ("data", VObj [])]]) ].

Definition start (s : script) : Backend.Run script :=
  Backend.start script seed (machine disk s).

(** Three replies in a row, each proposing one unregistered function, the
    last two the same one. *)
Definition three_unknown : script :=
  [proposes "compile" "{}"; proposes "deploy" "{}"; proposes "deploy" "{}"].

(** The same registered function proposed twice in a row. *)
Definition twice_refresh : script :=
  [proposes "refreshUI" "{}"; proposes "refreshUI" "{}"].

(** An unregistered function, then a registered one. *)
Definition unknown_then_refresh : script :=
  [proposes "compile" "{}"; proposes "refreshUI" "{}"].

(** Two unregistered functions, then [constructor], which every object
    inherits, with arguments whose [toString] is not a function:
    [Object(args)] returns them, and they have no text. *)
Definition unknown_twice_then_constructor : script :=
  [proposes "compile" "{}"; proposes "deploy" "{}";
   proposes "constructor" "{'toString':1}"].

(** [constructor] twice in a row, the second time with such arguments. *)
Definition twice_constructor : script :=
  [proposes "constructor" "{}"; proposes "constructor" "{'toString':1}"].

End Scripted.

(** ** Requests and arguments for the scripted host *)

Module Fixtures.

Import Scripted.

(** A platform that lists a directory in the order of the store and
    writes every tree as an empty object. *)
Definition platform : Api.Platform :=
  {| Api.stack_depth := 1000;
     Api.readdir_order := fun names => names;
     Api.stringify_indented := fun _ => "{}" |}.

(** Arguments for the file functions. *)
Definition page (filename content : string) : value :=
  VObj [("filename", VStr filename); ("content", VStr content)].

(** A server that has answered no request yet. *)
Definition server (s : script) : Api.Server script :=
  {| Api.machine := machine disk s; Api.conversationHistory := ∅ |}.

(** The body of a chat request with one message. *)
Definition request (projectId message : string) : value :=
  VObj [("userMessages", VArr [VStr message]); ("projectId", VStr projectId)].

End Fixtures.

(** * Properties *)

(** ** Strings *)

Module StrFacts.

Lemma chars_app (a b : string) :
  Str.chars (a +:+ b) = Str.chars a ++ Str.chars b.
Proof.
  induction a as [|c a IH]; simpl; [reflexivity|].
  unfold Str.chars in *. simpl. now rewrite IH.
Qed.

Lemma of_chars_app (a b : list ascii) :
  Str.of_chars (a ++ b) = Str.of_chars a +:+ Str.of_chars b.
Proof.
  induction a as [|c a IH]; simpl; [reflexivity|].
  unfold Str.of_chars in *. simpl. now rewrite IH.
Qed.

Lemma of_chars_chars (s : string) : Str.of_chars (Str.chars s) = s.
Proof. apply string_of_list_ascii_of_string. Qed.

Lemma chars_of_chars (l : list ascii) : Str.chars (Str.of_chars l) = l.
Proof. apply list_ascii_of_string_of_list_ascii. Qed.

Lemma eqb_char_true (a b : ascii) : Str.eqb_char a b = true <-> a = b.
Proof. apply Ascii.eqb_eq. Qed.

Lemma eqb_char_refl (a : ascii) : Str.eqb_char a a = true.
Proof. apply Ascii.eqb_refl. Qed.

Lemma startsWith_app (p s : string) : Str.startsWith p (p +:+ s) = true.
Proof.
  induction p as [|c p IH]; simpl; [reflexivity|].
  now rewrite eqb_char_refl, IH.
Qed.

Lemma startsWith_inv (p s : string) :
  Str.startsWith p s = true -> exists t, s = p +:+ t.
Proof.
  revert s. induction p as [|c p IH]; intros s H; simpl in *.
  - now exists s.
  - destruct s as [|d s]; [discriminate|].
    apply andb_true_iff in H as [Hc Hs].
    apply eqb_char_true in Hc. subst d.
    destruct (IH _ Hs) as [t ->]. now exists t.
Qed.

End StrFacts.

(** ** JSON.parse: a text that opens with a brace parses to an object *)

Module JSONFacts.

Import JSON.

Lemma rooted_tail (f : frame) (st : list frame) :
  rooted (f :: st) -> st <> [] -> rooted st.
Proof.
  intros (inner & props & key & H) Hne.
  destruct inner as [|g inner]; simpl in H.
  - injection H as _ H. now destruct Hne.
  - injection H as _ H. now exists inner, props, key.
Qed.

Lemma rooted_head (f g : frame) (st : list frame) :
  rooted (f :: st) -> st <> [] -> rooted (g :: st).
Proof.
  intros H Hne. destruct (rooted_tail _ _ H Hne) as (inner & props & key & ->).
  now exists (g :: inner), props, key.
Qed.

Lemma rooted_push (f : frame) (st : list frame) : rooted st -> rooted (f :: st).
Proof.
  intros (inner & props & key & ->). now exists (f :: inner), props, key.
Qed.

Lemma rooted_array_tail (items : list value) (st : list frame) :
  rooted (FArr items :: st) -> rooted st.
Proof.
  intros H. apply (rooted_tail _ _ H).
  intros ->. destruct H as (inner & props & key & H).
  destruct inner as [|g [|h inner]]; simpl in H; discriminate.
Qed.

Lemma complete_inside (v : value) (stack : list frame) (ps : pstate) :
  rooted stack -> complete v stack = Some ps -> inside ps.
Proof.
  intros H Hc. destruct stack as [|[items|props [k|]] st]; simpl in Hc.
  - destruct H as ([|? ?] & ? & ? & H); discriminate.
  - injection Hc as <-. split; [|reflexivity]. simpl.
    destruct st as [|g st].
    + destruct H as ([|? [|? ?]] & ? & ? & H); discriminate.
    + now apply (rooted_head (FArr items)).
  - injection Hc as <-. split; [|reflexivity]. simpl.
    destruct st as [|g st].
    + now exists [], ((k, v) :: props), None.
    + now apply (rooted_head (FObj props (Some k))).
  - discriminate.
Qed.

Lemma pstep_settled (ps ps' : pstate) (t : token) :
  inside ps -> pstep ps t = Some ps' -> settled ps'.
Proof.
  destruct ps as [e stack]. intros [H He] Hs. simpl in H, He, Hs.
  assert (Hstart : forall q, start_value t stack = Some q -> settled q).
  { intros q Hq. left. destruct t; simpl in Hq; try discriminate;
      try (now apply (complete_inside _ _ _ H Hq));
      injection Hq as <-; (split; [|reflexivity]); simpl; now apply rooted_push. }
  assert (Hkey : forall k q, set_key k stack = Some q -> settled q).
  { intros k q Hq. left. destruct stack as [|[items|props [k'|]] st];
      simpl in Hq; try discriminate. injection Hq as <-.
    split; [|reflexivity]. simpl.
    destruct st as [|g st].
    - now exists [], props, (Some k).
    - now apply (rooted_head (FObj props None)). }
  assert (Harr : forall q, close_array stack = Some q -> settled q).
  { intros q Hq. left. destruct stack as [|[items|props k] st];
      simpl in Hq; try discriminate.
    apply (complete_inside _ _ _ (rooted_array_tail _ _ H) Hq). }
  assert (Hobj : forall q, close_object stack = Some q -> settled q).
  { intros q Hq. destruct stack as [|[items|props [k|]] st];
      simpl in Hq; try discriminate.
    destruct st as [|g st].
    - simpl in Hq. injection Hq as <-. right. now eexists.
    - left. apply (complete_inside (VObj (rev props)) (g :: st) _); [|exact Hq].
      now apply (rooted_tail (FObj props None)). }
  destruct e; simpl in Hs; try discriminate.
  - now apply Hstart.
  - destruct t; try (now apply Hstart). now apply Harr.
  - destruct t; try discriminate; [now apply Hobj | now apply (Hkey s)].
  - destruct t; try discriminate. now apply (Hkey s).
  - destruct t; try discriminate. injection Hs as <-. left. now split.
  - destruct t; try discriminate.
    + now apply Hobj.
    + now apply Harr.
    + destruct stack as [|[items|props [k|]] st]; try discriminate;
        injection Hs as <-; left; now split.
Qed.

Lemma run_settled (ts : list token) (ps : pstate) (v : value) :
  settled ps -> run ps ts = Some v -> exists props, v = VObj props.
Proof.
  revert ps. induction ts as [|t ts IH]; intros ps Hps Hrun; simpl in Hrun.
  - destruct Hps as [[_ He] | [props ->]].
    + destruct ps as [[] stack]; discriminate.
    + injection Hrun as <-. now eexists.
  - destruct (pstep ps t) as [ps'|] eqn:Hstep; [|discriminate].
    destruct Hps as [Hr | [props ->]].
    + apply (IH ps'); [|exact Hrun]. apply (pstep_settled _ _ _ Hr Hstep).
    + simpl in Hstep. discriminate.
Qed.

(** A text whose first character is an opening brace parses, if at all,
    to an object. *)
Lemma parse_brace_object (s : string) (v : value) :
  parse (String "{" s) = Some v -> exists props, v = VObj props.
Proof.
  unfold parse, tokenize. simpl.
  destruct (tokens_from MDefault s) as [ts|]; [|discriminate].
  simpl. apply run_settled. left. split; [|reflexivity].
  now exists [], [], None.
Qed.

End JSONFacts.

(** ** The JSON-extraction helper *)

Module ExtractFacts.

Import StrFacts.

Abbreviation from_first_open := (Backend.from_first_open).
Abbreviation from_first_close := (Backend.from_first_close).
Abbreviation to_last_close := (Backend.to_last_close).
Abbreviation jsonRegex_match := (Backend.jsonRegex_match).
Abbreviation extractJSONFromResponse := (Backend.extractJSONFromResponse).

Lemma from_first_open_app (pre rest : string) :
  Str.occurs "{" pre = false ->
  from_first_open (pre +:+ String "{" rest) = Some (String "{" rest).
Proof.
  induction pre as [|c pre IH]; simpl; intros H; [reflexivity|].
  apply orb_false_iff in H as [Hc Hp].
  unfold Str.eqb_char in *. rewrite Ascii.eqb_sym, Hc. now apply IH.
Qed.

Lemma from_first_open_inv (text s : string) :
  from_first_open text = Some s ->
  exists pre rest, text = pre +:+ String "{" rest /\ Str.occurs "{" pre = false
                   /\ s = String "{" rest.
Proof.
  induction text as [|c text IH]; simpl; intros H; [discriminate|].
  destruct (Str.eqb_char c "{") eqn:Hc.
  - apply eqb_char_true in Hc. subst c. injection H as <-.
    now exists "", text.
  - destruct (IH H) as (pre & rest & -> & Hp & ->).
    exists (String c pre), rest. repeat split. simpl.
    unfold Str.eqb_char in *. now rewrite Ascii.eqb_sym, Hc.
Qed.

Abbreviation no_close := (Str.lacks "}").

Lemma from_first_close_app (a b : list ascii) :
  no_close a = true ->
  from_first_close (a ++ "}"%char :: b) = Some ("}"%char :: b).
Proof.
  induction a as [|c a IH]; simpl; intros H; [reflexivity|].
  apply andb_true_iff in H as [Hc Ha].
  apply negb_true_iff in Hc. rewrite Hc. now apply IH.
Qed.

Lemma from_first_close_inv (l r : list ascii) :
  from_first_close l = Some r ->
  exists a b, l = a ++ "}"%char :: b /\ no_close a = true /\ r = "}"%char :: b.
Proof.
  induction l as [|c l IH]; simpl; intros H; [discriminate|].
  destruct (Str.eqb_char c "}") eqn:Hc.
  - apply eqb_char_true in Hc. subst c. injection H as <-.
    now exists [], l.
  - destruct (IH H) as (a & b & -> & Ha & ->).
    exists (c :: a), b. repeat split. simpl. now rewrite Hc.
Qed.

Lemma no_close_rev_chars (post : string) :
  no_close (rev (Str.chars post)) = negb (Str.occurs "}" post).
Proof.
  unfold Str.lacks. induction post as [|c post IH]; [reflexivity|].
  change (Str.chars (String c post)) with (c :: Str.chars post).
  simpl. rewrite forallb_app, IH. simpl.
  unfold Str.eqb_char. rewrite (Ascii.eqb_sym "}" c).
  destruct (Ascii.eqb c "}"), (Str.occurs "}" post); reflexivity.
Qed.

Lemma to_last_close_app (body post : string) :
  Str.occurs "}" post = false ->
  to_last_close (body +:+ String "}" post) = Some (body +:+ "}").
Proof.
  intros H. unfold to_last_close.
  rewrite chars_app.
  change (Str.chars (String "}" post)) with ("}"%char :: Str.chars post).
  rewrite rev_app_distr. simpl. rewrite <- app_assoc. simpl.
  rewrite from_first_close_app by (rewrite no_close_rev_chars, H; reflexivity).
  simpl. rewrite rev_involutive, of_chars_app, of_chars_chars. reflexivity.
Qed.

Lemma to_last_close_inv (s block : string) :
  to_last_close s = Some block ->
  exists body post, s = body +:+ String "}" post /\ Str.occurs "}" post = false
                    /\ block = body +:+ "}".
Proof.
  unfold to_last_close. intros H.
  destruct (from_first_close (rev (Str.chars s))) as [r|] eqn:Hr; [|discriminate].
  injection H as <-.
  destruct (from_first_close_inv _ _ Hr) as (a & b & Hs & Ha & ->).
  apply (f_equal (@rev ascii)) in Hs. rewrite rev_involutive in Hs.
  rewrite rev_app_distr in Hs. simpl in Hs. rewrite <- app_assoc in Hs. simpl in Hs.
  exists (Str.of_chars (rev b)), (Str.of_chars (rev a)). repeat split.
  - rewrite <- (of_chars_chars s), Hs, of_chars_app. reflexivity.
  - pose proof (no_close_rev_chars (Str.of_chars (rev a))) as Hn.
    rewrite chars_of_chars, rev_involutive, Ha in Hn.
    destruct (Str.occurs "}" (Str.of_chars (rev a))); [discriminate|reflexivity].
  - simpl. rewrite of_chars_app. reflexivity.
Qed.

Lemma append_assoc (a b c : string) : (a +:+ b) +:+ c = a +:+ (b +:+ c).
Proof.
  induction a as [|x a IH]; [reflexivity|].
  change (String x ((a +:+ b) +:+ c) = String x (a +:+ (b +:+ c))).
  now f_equal.
Qed.

(** The regular expression takes what lies between the first opening
    brace and the last closing brace, both included. *)
Lemma jsonRegex_match_app (pre mid post : string) :
  Str.occurs "{" pre = false -> Str.occurs "}" post = false ->
  jsonRegex_match (pre +:+ "{" +:+ mid +:+ "}" +:+ post) = Some ("{" +:+ mid +:+ "}").
Proof.
  intros Hpre Hpost. unfold jsonRegex_match.
  change ("{" +:+ mid +:+ "}" +:+ post) with (String "{" (mid +:+ String "}" post)).
  rewrite from_first_open_app by assumption.
  change (String "{" (mid +:+ String "}" post))
    with (String "{" mid +:+ String "}" post).
  rewrite to_last_close_app by assumption. reflexivity.
Qed.

Lemma jsonRegex_match_inv (text block : string) :
  jsonRegex_match text = Some block ->
  exists pre mid post,
    text = pre +:+ "{" +:+ mid +:+ "}" +:+ post /\ Str.occurs "{" pre = false
    /\ Str.occurs "}" post = false /\ block = "{" +:+ mid +:+ "}".
Proof.
  unfold jsonRegex_match. intros H.
  destruct (from_first_open text) as [s|] eqn:Ho; [|discriminate].
  destruct (from_first_open_inv _ _ Ho) as (pre & rest & -> & Hpre & ->).
  destruct (to_last_close_inv _ _ H) as (body & post & Hs & Hpost & ->).
  destruct body as [|c mid]; simpl in Hs; [discriminate|].
  injection Hs as <- ->.
  exists pre, mid, post. repeat split; assumption.
Qed.

End ExtractFacts.

Module ExtractionProperties.

Import StrFacts ExtractFacts.

(** C3, as the code has it.  The extraction takes the part of the reply
    from its first opening brace to its last closing brace and parses that
    part as a whole: it yields a value [v] other than [null] exactly when
    the reply is [pre {mid} post] with no opening brace in [pre], no
    closing brace in [post], and [{mid}] parses to [v]. *)
Theorem extraction_first_open_to_last_close (text : string) (v : value) :
  extractJSONFromResponse text = v /\ v <> VNull <->
  exists pre mid post,
    text = pre +:+ "{" +:+ mid +:+ "}" +:+ post
    /\ Str.occurs "{" pre = false /\ Str.occurs "}" post = false
    /\ JSON.parse ("{" +:+ mid +:+ "}") = Some v.
Proof.
  unfold Backend.extractJSONFromResponse. split.
  - intros [Hv Hnull].
    destruct (jsonRegex_match text) as [block|] eqn:Hm; [|congruence].
    destruct (jsonRegex_match_inv _ _ Hm) as (pre & mid & post & -> & Hp & Hq & ->).
    exists pre, mid, post. repeat split; try assumption.
    destruct (JSON.parse _) as [w|]; congruence.
  - intros (pre & mid & post & -> & Hp & Hq & Hparse).
    rewrite (jsonRegex_match_app _ _ _ Hp Hq), Hparse. split; [reflexivity|].
    destruct (JSONFacts.parse_brace_object _ _ Hparse) as [props ->]. discriminate.
Qed.

(** C3, as the spec has it, fails: a reply with two objects contains a
    well-formed object, and nothing is extracted from it. *)
Lemma extraction_misses_first_object :
  Backend.contains (Str.json "{'a':1}") (Str.json "{'a':1} and {'b':2}")
  /\ Backend.object_text (Str.json "{'a':1}")
  /\ extractJSONFromResponse (Str.json "{'a':1} and {'b':2}") = VNull.
Proof.
  repeat split.
  - now exists "", (Str.json " and {'b':2}").
  - now exists [("a", VNum "1")].
Qed.

End ExtractionProperties.

(** ** The orchestration loop *)

Module LoopFacts.

Import Backend.

Section WithHost.

Variable rt : Runtime.
Variable E : Type.
Variable host : Host E.

Local Open Scope js_scope.

Abbreviation Run := (Backend.Run E).
Abbreviation keeps := (Backend.keeps E).

(** *** What a relation between runs needs to survive a pass *)

Section Keeps.

Variable P : Run -> Run -> Prop.
Hypothesis P_refl : forall r, P r r.
Hypothesis P_trans : forall a b c, P a b -> P b c -> P a c.

Lemma keeps_ret {A : Type} (a : A) : keeps P (ret a).
Proof. intros r. apply P_refl. Qed.

Lemma keeps_throw {A : Type} (e : error) : keeps P (throw (A := A) e).
Proof. intros r. apply P_refl. Qed.

Lemma keeps_lift {A : Type} (o : outcome A) : keeps P (lift o).
Proof. intros r. apply P_refl. Qed.

Lemma keeps_gets {A : Type} (f : Run -> A) : keeps P (gets f).
Proof. intros r. apply P_refl. Qed.

Lemma keeps_bind {A B : Type} (c : M Run A) (k : A -> M Run B) :
  keeps P c -> (forall a, keeps P (k a)) -> keeps P (bind c k).
Proof.
  intros Hc Hk r. unfold bind. specialize (Hc r).
  destruct (c r) as [[a|e] r1]; simpl in *; [|exact Hc].
  apply (P_trans _ _ _ Hc). apply Hk.
Qed.

Lemma keeps_try_catch {A : Type} (c : M Run A) (h : error -> M Run A) :
  keeps P c -> (forall e, keeps P (h e)) -> keeps P (try_catch c h).
Proof.
  intros Hc Hh r. unfold try_catch. specialize (Hc r).
  destruct (c r) as [[a|e] r1]; simpl in *; [exact Hc|].
  apply (P_trans _ _ _ Hc). apply Hh.
Qed.

Lemma keeps_for_each {A : Type} (body : A -> M Run unit) (l : list A) :
  (forall a, keeps P (body a)) -> keeps P (for_each body l).
Proof.
  intros Hb. induction l as [|x l IH]; simpl.
  - apply keeps_ret.
  - apply keeps_bind; [apply Hb | intros _; exact IH].
Qed.

Lemma keeps_console_log (vs : list value) : keeps P (console_log rt vs).
Proof.
  apply keeps_for_each. intros v. apply keeps_bind; [apply keeps_lift|].
  intros _. apply keeps_ret.
Qed.

Hypothesis P_push : forall msg, keeps P (push E msg).
Hypothesis P_machine : forall A (c : M (Machine E) A), keeps P (in_machine E c).
Hypothesis P_last : forall names, keeps P (set_lastFunctionCalls E names).
Hypothesis P_failures : forall n, keeps P (set_consecutiveFailures E n).
Hypothesis P_note : forall key, keeps P (note_call E key).

Ltac keep :=
  repeat first
    [ apply keeps_ret | apply keeps_throw | apply keeps_lift | apply keeps_gets
    | apply keeps_console_log | apply P_push | apply P_machine | apply P_last
    | apply P_failures | apply P_note
    | apply keeps_bind; [|intros ?]
    | apply keeps_try_catch; [|intros ?]
    | apply keeps_for_each; intros ?
    | match goal with
      | |- Backend.keeps _ _ (match ?x with _ => _ end) => destruct x
      end ].

Lemma keeps_emit_meta_actions (parsedResponse : value) :
  keeps P (emit_meta_actions rt E parsedResponse).
Proof. unfold emit_meta_actions. keep. Qed.

Lemma keeps_call_function (projectId : string) (b : Batch) (funcCall : value) :
  keeps P (call_function rt E host projectId b funcCall).
Proof. unfold call_function. keep. Qed.

Lemma keeps_call_functions (projectId : string) (calls : list value) (b : Batch) :
  keeps P (call_functions rt E host projectId b calls).
Proof.
  revert b. induction calls as [|c calls IH]; intros b; simpl.
  - apply keeps_ret.
  - apply keeps_bind; [apply keeps_call_function | intros b'; apply IH].
Qed.

Lemma keeps_run_calls (projectId : string) (function_calls : value) :
  keeps P (run_calls rt E host projectId function_calls).
Proof.
  unfold run_calls. apply keeps_bind; [apply keeps_lift|].
  intros calls. apply keeps_call_functions.
Qed.

Lemma keeps_report (res : FunctionResult) : keeps P (report rt E res).
Proof. unfold report. keep. Qed.

Lemma keeps_settle (b : Batch) : keeps P (settle E b).
Proof. unfold settle. keep. Qed.

Lemma keeps_detect_repeat (b : Batch) : keeps P (detect_repeat rt E b).
Proof. unfold detect_repeat. keep. Qed.

Lemma keeps_conclude (parsedResponse : value) (b : Batch) :
  keeps P (conclude rt E parsedResponse b).
Proof.
  unfold conclude.
  apply keeps_bind; [apply keeps_for_each; intros; apply keeps_report|].
  intros _. apply keeps_bind; [apply keeps_settle|].
  intros stop. destruct stop; [apply keeps_ret|].
  apply keeps_bind; [apply keeps_detect_repeat|]. intros _.
  apply keeps_bind; [apply keeps_emit_meta_actions|]. intros _. apply keeps_ret.
Qed.

Lemma keeps_act (projectId : string) (parsedResponse : value) :
  keeps P (act rt E host projectId parsedResponse).
Proof.
  unfold act.
  apply keeps_bind; [apply keeps_lift|]. intros function_calls.
  destruct (_ || _).
  - apply keeps_bind; [apply keeps_emit_meta_actions|]. intros _. apply keeps_ret.
  - apply keeps_bind; [apply keeps_run_calls|]. intros b. apply keeps_conclude.
Qed.

Lemma keeps_respond (projectId : string) (parsedResponse : value) :
  keeps P (respond rt E host projectId parsedResponse).
Proof.
  unfold respond.
  apply keeps_bind; [apply keeps_lift|]. intros explanation.
  apply keeps_bind; [apply P_push|]. intros _. apply keeps_act.
Qed.

End Keeps.

(** Discharges what [Keeps] asks of the primitives, for a relation that
    compares one field of the run. *)
Ltac primitive :=
  unfold Backend.keeps; intros;
  unfold push, in_machine, set_lastFunctionCalls, set_consecutiveFailures,
    note_call, modify, set_machine;
  simpl;
  repeat match goal with
         | |- context [let '(_, _) := ?c in _] => destruct c
         end;
  simpl; solve [eauto | congruence].

(** *** Each pass asks the model once *)

Lemma respond_modelCalls (projectId : string) (parsedResponse : value) (r : Run) :
  modelCalls E (snd (respond rt E host projectId parsedResponse r)) = modelCalls E r.
Proof.
  apply (keeps_respond (fun a b => modelCalls E b = modelCalls E a)); primitive.
Qed.

Lemma attempt_modelCalls (projectId : string) (r : Run) :
  modelCalls E (snd (attempt rt E host projectId r)) = S (modelCalls E r).
Proof.
  unfold attempt, bind at 1. unfold ask_model.
  destruct (createChatCompletion host (messages E r) (ext (machine_of E r)))
    as [[[reply|]|e] e'] eqn:Hc; simpl; try reflexivity.
  destruct (String.eqb (Str.trim reply) ""); [reflexivity|].
  destruct (negb _); [reflexivity|].
  rewrite respond_modelCalls. reflexivity.
Qed.

Lemma pass_modelCalls (projectId : string) (r : Run) :
  modelCalls E (snd (pass rt E host projectId r)) = S (modelCalls E r).
Proof.
  unfold pass. pose proof (attempt_modelCalls projectId r) as H.
  destruct (attempt rt E host projectId r) as [[c|e] r']; simpl in *; exact H.
Qed.

(** *** The loop *)

Abbreviation while_loop := (Backend.while_loop rt E host).
Abbreviation pass := (Backend.pass rt E host).
Abbreviation at_pass := (Backend.at_pass rt E host).

Lemma while_loop_bounds (budget : nat) (projectId : string) (i : nat) (r : Run) :
  i <= MAX_ITERATIONS ->
  MAX_ITERATIONS <= i + budget ->
  let '(i', r') := while_loop budget projectId i r in
  i <= i' /\ i' <= MAX_ITERATIONS
  /\ modelCalls E r' = modelCalls E r + (if i' <? MAX_ITERATIONS then S i' - i else i' - i).
Proof.
  revert i r. induction budget as [|budget IH]; intros i r Hi Hb; simpl.
  - assert (i = MAX_ITERATIONS) as -> by lia.
    rewrite Nat.ltb_irrefl. repeat split; lia.
  - destruct (i <? MAX_ITERATIONS) eqn:Hlt.
    + apply Nat.ltb_lt in Hlt.
      pose proof (pass_modelCalls projectId r) as Hcalls.
      destruct (Backend.pass rt E host projectId r) as [[|] r1]; simpl in Hcalls.
      * apply Nat.ltb_lt in Hlt. rewrite Hlt. apply Nat.ltb_lt in Hlt.
        repeat split; lia.
      * specialize (IH (i + 1) r1 ltac:(lia) ltac:(lia)).
        destruct (Backend.while_loop rt E host budget projectId (i + 1) r1) as [i' r'].
        destruct IH as (H1 & H2 & H3). repeat split; try lia.
        rewrite H3, Hcalls. destruct (i' <? MAX_ITERATIONS); lia.
    + apply Nat.ltb_ge in Hlt. assert (i = MAX_ITERATIONS) as -> by lia.
      rewrite Nat.ltb_irrefl. repeat split; lia.
Qed.

(** The loop from the start of a later pass gives the result of the loop
    from the beginning. *)
Lemma while_loop_at_pass (k budget : nat) (projectId : string) (i : nat) (r rk : Run) :
  at_pass k projectId r = Some rk ->
  i + k <= MAX_ITERATIONS ->
  while_loop (k + budget) projectId i r = while_loop budget projectId (i + k) rk.
Proof.
  revert i r. induction k as [|k IH]; intros i r Hk Hi; simpl in *.
  - injection Hk as ->. now rewrite Nat.add_0_r.
  - assert ((i <? MAX_ITERATIONS) = true) as -> by (apply Nat.ltb_lt; lia).
    destruct (Backend.pass rt E host projectId r) as [[|] r1]; [discriminate|].
    rewrite (IH (i + 1) r1 Hk) by lia. f_equal. lia.
Qed.

(** A pass that leaves the loop ends the run there. *)
Lemma orchestrateTasks_ends (k : nat) (seed : list Message) (projectId : string)
  (m : Machine E) (rk r' : Run) :
  k < MAX_ITERATIONS ->
  at_pass k projectId (start E seed m) = Some rk ->
  pass projectId rk = (Break, r') ->
  orchestrateTasks rt E host seed projectId m = r'.
Proof.
  intros Hk Hat Hpass. unfold orchestrateTasks.
  replace MAX_ITERATIONS with (k + S (MAX_ITERATIONS - S k)) at 1 by lia.
  rewrite (while_loop_at_pass _ _ _ _ _ _ Hat) by lia. simpl.
  assert ((k <? MAX_ITERATIONS) = true) as -> by (apply Nat.ltb_lt; lia).
  rewrite Hpass. unfold finish.
  assert ((k =? MAX_ITERATIONS) = false) as -> by (apply Nat.eqb_neq; lia).
  reflexivity.
Qed.

(** *** The passes before a given one *)

Lemma at_pass_modelCalls (k : nat) (projectId : string) (r rk : Run) :
  at_pass k projectId r = Some rk -> modelCalls E rk = modelCalls E r + k.
Proof.
  revert r. induction k as [|k IH]; intros r H; simpl in H.
  - injection H as ->. lia.
  - pose proof (pass_modelCalls projectId r) as Hp.
    destruct (Backend.pass rt E host projectId r) as [[|] r1]; [discriminate|].
    simpl in Hp. rewrite (IH _ H), Hp. lia.
Qed.

Lemma at_pass_next (k : nat) (projectId : string) (r rk rk' : Run) :
  at_pass k projectId r = Some rk ->
  pass projectId rk = (Next, rk') ->
  at_pass (S k) projectId r = Some rk'.
Proof.
  revert r. induction k as [|k IH]; intros r H Hp.
  - simpl in H. injection H as ->. simpl. now rewrite Hp.
  - simpl in H. change (Backend.at_pass rt E host (S (S k)) projectId r)
      with (match Backend.pass rt E host projectId r with
            | (Next, r') => Backend.at_pass rt E host (S k) projectId r'
            | (Break, _) => None
            end).
    destruct (Backend.pass rt E host projectId r) as [[|] r1]; [discriminate|].
    now apply IH.
Qed.

Lemma at_pass_prev (k : nat) (projectId : string) (r rk' : Run) :
  at_pass (S k) projectId r = Some rk' ->
  exists rk, at_pass k projectId r = Some rk /\ pass projectId rk = (Next, rk').
Proof.
  revert r. induction k as [|k IH]; intros r H.
  - simpl in H. exists r. split; [reflexivity|].
    destruct (Backend.pass rt E host projectId r) as [[|] r1]; [discriminate|].
    now injection H as ->.
  - change (Backend.at_pass rt E host (S (S k)) projectId r)
      with (match Backend.pass rt E host projectId r with
            | (Next, r') => Backend.at_pass rt E host (S k) projectId r'
            | (Break, _) => None
            end) in H.
    destruct (Backend.pass rt E host projectId r) as [[|] r1] eqn:Hp; [discriminate|].
    destruct (IH _ H) as (rk & Hk & Hn). exists rk. split; [|exact Hn].
    simpl. now rewrite Hp.
Qed.

Lemma asked_fields (r : Run) :
  messages E (asked E host r) = messages E r
  /\ called E (asked E host r) = called E r
  /\ consecutiveFailures E (asked E host r) = consecutiveFailures E r
  /\ lastFunctionCalls E (asked E host r) = lastFunctionCalls E r
  /\ modelCalls E (asked E host r) = S (modelCalls E r)
  /\ files (machine_of E (asked E host r)) = files (machine_of E r)
  /\ emitted (machine_of E (asked E host r)) = emitted (machine_of E r)
  /\ db (machine_of E (asked E host r)) = db (machine_of E r).
Proof.
  unfold asked, ask_model.
  destruct (createChatCompletion host (messages E r) (ext (machine_of E r))).
  simpl. repeat split.
Qed.

(** *** The passes that end at the reply *)

Lemma attempt_model_throws (projectId : string) (r : Run) (e : error) :
  model_reply E host r = Throw e ->
  attempt rt E host projectId r = (Throw e, asked E host r).
Proof.
  unfold model_reply, asked, attempt, bind, ask_model. intros H.
  destruct (createChatCompletion host (messages E r) (ext (machine_of E r)))
    as [o e']. simpl in H. subst o. reflexivity.
Qed.

Lemma attempt_plain_text (projectId : string) (r : Run) (reply : string) :
  model_reply E host r = Ok (Some reply) ->
  Str.trim reply <> "" ->
  extractJSONFromResponse (Str.trim reply) = VNull ->
  attempt rt E host projectId r
  = (Ok Break,
     snd (push E {| role := Assistant; content := VStr (Str.trim reply) |}
            (asked E host r))).
Proof.
  unfold model_reply, asked, attempt, bind at 1, ask_model. intros H Hne Hx.
  destruct (createChatCompletion host (messages E r) (ext (machine_of E r)))
    as [o e']. simpl in H. subst o. simpl.
  destruct (String.eqb_spec (Str.trim reply) ""); [contradiction|].
  rewrite Hx. reflexivity.
Qed.

Lemma attempt_parsed (projectId : string) (r : Run) (parsedResponse : value) :
  parses_to E host r parsedResponse ->
  (exists props, parsedResponse = VObj props)
  /\ attempt rt E host projectId r
     = respond rt E host projectId parsedResponse (asked E host r).
Proof.
  intros (reply & H & Hx & Hnull).
  assert (Hobj : exists props, parsedResponse = VObj props).
  { unfold Backend.extractJSONFromResponse in Hx.
    destruct (Backend.jsonRegex_match (Str.trim reply)) as [block|] eqn:Hm;
      [|congruence].
    destruct (ExtractFacts.jsonRegex_match_inv _ _ Hm)
      as (pre & mid & post & _ & _ & _ & ->).
    destruct (JSON.parse _) as [v|] eqn:Hp; [|congruence]. subst v.
    apply (JSONFacts.parse_brace_object _ _ Hp). }
  split; [exact Hobj|]. destruct Hobj as [props ->].
  unfold model_reply in H. unfold asked, attempt, bind at 1, ask_model.
  destruct (createChatCompletion host (messages E r) (ext (machine_of E r)))
    as [o e']. simpl in H. subst o. simpl.
  destruct (String.eqb_spec (Str.trim reply) "") as [Heq|_].
  - rewrite Heq in Hx. discriminate.
  - rewrite Hx. reflexivity.
Qed.

(** *** Broadcasting well-formed meta-actions *)

Lemma broadcast_nil (r : Run) : broadcast E [] r = r.
Proof.
  destruct r as [[f d em ex] ms l c n cl]. unfold broadcast, set_machine. simpl.
  now rewrite app_nil_r.
Qed.

Lemma broadcast_cons (a : value) (acts : list value) (r : Run) :
  broadcast E acts (broadcast E [a] r) = broadcast E (a :: acts) r.
Proof.
  destruct r as [[f d em ex] ms l c n cl]. unfold broadcast, set_machine. simpl.
  now rewrite <- app_assoc.
Qed.

Lemma emit_one_meta_action (a : value) (r : Run) :
  is_meta_action a = true ->
  (let* _ := in_machine E (emit E "metaAction" a) in
   let* action := lift (JS.get a "action") in
   let* target := lift (JS.get a "target") in
   console_log rt [action; target])%js r
  = (Ok tt, broadcast E [a] r).
Proof.
  intros Ha. destruct a as [| |?|?|?|?|props]; try discriminate.
  simpl in Ha. unfold bind, in_machine, emit, modify, lift. simpl.
  destruct (JS.own "action" props) as [[| |?|?|s1|?|?]|]; try discriminate.
  destruct (JS.own "target" props) as [[| |?|?|s2|?|?]|]; try discriminate.
  reflexivity.
Qed.

Lemma emit_each_meta_action (acts : list value) (r : Run) :
  forallb is_meta_action acts = true ->
  for_each
    (fun metaAction =>
       let* _ := in_machine E (emit E "metaAction" metaAction) in
       let* action := lift (JS.get metaAction "action") in
       let* target := lift (JS.get metaAction "target") in
       console_log rt [action; target])%js acts r
  = (Ok tt, broadcast E acts r).
Proof.
  revert r. induction acts as [|a acts IH]; intros r H; simpl in H.
  - simpl. unfold ret. now rewrite broadcast_nil.
  - apply andb_true_iff in H as [Ha Hacts].
    simpl. unfold bind at 1. rewrite (emit_one_meta_action a r Ha).
    rewrite (IH _ Hacts). now rewrite broadcast_cons.
Qed.

Lemma emit_meta_actions_ok (parsedResponse : value) (acts : list value) (r : Run) :
  meta_actions_of parsedResponse = Some acts ->
  emit_meta_actions rt E parsedResponse r = (Ok tt, broadcast E acts r).
Proof.
  unfold meta_actions_of, emit_meta_actions. intros H.
  destruct parsedResponse as [| |?|?|?|?|props]; try discriminate.
  unfold bind at 1, lift at 1. simpl.
  destruct (JS.own "meta_actions" props) as [[| |?|?|?|l|?]|]; try discriminate.
  - injection H as <-. simpl. unfold ret. now rewrite broadcast_nil.
  - destruct (forallb is_meta_action l) eqn:Hl; [|discriminate]. injection H as <-.
    simpl. destruct l as [|a l].
    + unfold bind, lift, ret. simpl. now rewrite broadcast_nil.
    + unfold bind at 1, lift at 1. simpl.
      unfold bind at 1, lift at 1. simpl.
      apply (emit_each_meta_action (a :: l) r Hl).
  - injection H as <-. simpl. unfold ret. now rewrite broadcast_nil.
Qed.

(** *** A parsed reply *)

(** The run once the explanation of the parsed reply has been appended. *)
Lemma respond_object (projectId : string) (props : list (string * value)) (r : Run) :
  respond rt E host projectId (VObj props) r
  = act rt E host projectId (VObj props)
      (snd (push E {| role := Assistant; content := explanation_of (VObj props) |} r)).
Proof.
  unfold respond, explanation_of, bind, lift. simpl.
  destruct (JS.own "explanation" props); reflexivity.
Qed.

Lemma act_no_calls (projectId : string) (parsedResponse : value)
  (acts : list value) (r : Run) :
  function_calls_of parsedResponse = Some [] ->
  meta_actions_of parsedResponse = Some acts ->
  act rt E host projectId parsedResponse r = (Ok Break, broadcast E acts r).
Proof.
  intros Hf Hm. unfold act, function_calls_of in *.
  destruct parsedResponse as [| |?|?|?|?|props]; try discriminate.
  unfold bind at 1, lift at 1. simpl.
  assert (Hend : (let* _ := emit_meta_actions rt E (VObj props) in ret Break)%js r
                 = (Ok Break, broadcast E acts r)).
  { unfold bind. now rewrite (emit_meta_actions_ok _ _ _ Hm). }
  destruct (JS.own "function_calls" props) as [[| |?|?|?|l|?]|]; try discriminate.
  - exact Hend.
  - destruct (forallb is_function_call l); [|discriminate]. injection Hf as ->.
    exact Hend.
  - exact Hend.
Qed.


(** *** One function call, and a batch of them *)

Lemma bind_ok_inv {S A B : Type} (c : M S A) (k : A -> M S B) (s s' : S) (b : B) :
  bind c k s = (Ok b, s') ->
  exists a s1, c s = (Ok a, s1) /\ k a s1 = (Ok b, s').
Proof.
  unfold bind. destruct (c s) as [[a|e] s1]; intros H; [|discriminate].
  now exists a, s1.
Qed.

(** A call that does not throw adds its name and one result to the batch;
    the batch stays all-succeeded only if the call succeeded. *)
Lemma call_function_adds (projectId : string) (b b' : Batch) (funcCall : value)
  (r r' : Run) :
  call_function rt E host projectId b funcCall r = (Ok b', r') ->
  functionCallNames b' = functionCallNames b ++ [name_of funcCall]
  /\ exists res,
       functionResults b' = functionResults b ++ [res]
       /\ function_of res = name_of funcCall
       /\ allSucceeded b' = allSucceeded b && is_succeeded res.
Proof.
  unfold call_function, name_of. intros H.
  apply bind_ok_inv in H as (name & r1 & Hn & H).
  unfold lift in Hn. injection Hn as Hn <-. rewrite Hn.
  apply bind_ok_inv in H as (key & r1 & Hk & H).
  unfold lift in Hk. injection Hk as Hk <-.
  destruct (FUNCTION_HANDLERS_get rt E host key) as [h|].
  - unfold try_catch in H.
    destruct (bind _ _ r) as [[bb|e] r1] eqn:Hb.
    + injection H as <- <-.
      apply bind_ok_inv in Hb as (args & r2 & _ & Hb).
      apply bind_ok_inv in Hb as (? & r3 & _ & Hb).
      apply bind_ok_inv in Hb as (result & r4 & _ & Hb).
      unfold ret in Hb. injection Hb as <- <-. simpl.
      split; [reflexivity|]. eexists. split; [reflexivity|].
      simpl. now rewrite andb_true_r.
    + unfold ret in H. injection H as <- <-. simpl.
      split; [reflexivity|]. eexists. split; [reflexivity|].
      simpl. now rewrite andb_false_r.
  - unfold ret in H. injection H as <- <-. simpl.
    split; [reflexivity|]. eexists. split; [reflexivity|].
    simpl. now rewrite andb_false_r.
Qed.

Lemma call_functions_add (projectId : string) (calls : list value) (b b' : Batch)
  (r r' : Run) :
  call_functions rt E host projectId b calls r = (Ok b', r') ->
  functionCallNames b' = functionCallNames b ++ map name_of calls
  /\ exists results,
       functionResults b' = functionResults b ++ results
       /\ map function_of results = map name_of calls
       /\ allSucceeded b' = allSucceeded b && forallb is_succeeded results.
Proof.
  revert b r. induction calls as [|c calls IH]; intros b r H; simpl in H.
  - unfold ret in H. injection H as <- <-. simpl. rewrite app_nil_r.
    split; [reflexivity|]. exists []. rewrite app_nil_r, andb_true_r. now repeat split.
  - apply bind_ok_inv in H as (b1 & r1 & H1 & H).
    destruct (call_function_adds _ _ _ _ _ _ H1) as (Hn1 & res & Hr1 & Hf1 & Ha1).
    destruct (IH _ _ H) as (Hn & results & Hr & Hl & Ha).
    split.
    + rewrite Hn, Hn1, <- app_assoc. reflexivity.
    + exists (res :: results). rewrite Hr, Hr1, <- app_assoc. simpl.
      repeat split; [now rewrite Hl, Hf1|]. rewrite Ha, Ha1, andb_assoc. reflexivity.
Qed.

(** *** Names that are strings *)

Lemma to_string_array_cons (x : value) (rest : list value) :
  JS.to_string rt (VArr (x :: rest))
  = obind (match x with
           | VUndefined | VNull => Ok ""
           | _ => JS.to_string rt x
           end)
      (fun s =>
         match rest with
         | [] => Ok s
         | _ => obind (JS.to_string rt (VArr rest)) (fun r => Ok (s +:+ "," +:+ r))
         end).
Proof. reflexivity. Qed.

Lemma join_comma_strings (names : list string) :
  exists s, JS.join_comma rt (map VStr names) = Ok s.
Proof.
  unfold JS.join_comma. induction names as [|n names [s IH]].
  - now exists "".
  - change (map VStr (n :: names)) with (VStr n :: map VStr names).
    rewrite to_string_array_cons.
    change (JS.to_string rt (VStr n)) with (@Ok string n). unfold obind at 1.
    destruct (map VStr names) as [|x rest].
    + now exists n.
    + rewrite IH. unfold obind. now eexists.
Qed.

Lemma typed_names (calls : list value) :
  forallb is_function_call calls = true ->
  exists names, map name_of calls = map VStr names.
Proof.
  induction calls as [|c calls IH]; simpl; intros H.
  - now exists [].
  - apply andb_true_iff in H as [Hc Hcalls].
    destruct (IH Hcalls) as [names Hn].
    destruct c as [| |?|?|?|?|props]; try discriminate.
    unfold name_of at 1. simpl in *.
    destruct (JS.own "name" props) as [[| |?|?|n|?|?]|]; try discriminate.
    exists (n :: names). simpl. now rewrite Hn.
Qed.

Lemma function_calls_typed (parsedResponse : value) (calls : list value) :
  function_calls_of parsedResponse = Some calls ->
  forallb is_function_call calls = true.
Proof.
  unfold function_calls_of.
  destruct parsedResponse as [| |?|?|?|?|props]; try discriminate.
  destruct (JS.own "function_calls" props) as [[| |?|?|?|l|?]|];
    try discriminate; try (now intros [= <-]).
  destruct (forallb is_function_call l) eqn:Hl; [|discriminate].
  now intros [= <-].
Qed.

(** *** From the calls to the end of the pass *)

Lemma executes_attempt (projectId : string) (r : Run) (parsedResponse : value)
  (b : Batch) (r2 : Run) :
  executes rt E host projectId r parsedResponse b r2 ->
  attempt rt E host projectId r = conclude rt E parsedResponse b r2.
Proof.
  intros (Hp & _ & c & calls & Hf & Hcalls).
  destruct (attempt_parsed projectId r parsedResponse Hp) as [[props ->] ->].
  rewrite respond_object. unfold act. unfold bind at 1, lift at 1.
  unfold function_calls_of in Hf. simpl.
  destruct (JS.own "function_calls" props) as [[| |?|?|?|l|?]|]; try discriminate.
  destruct (forallb is_function_call l); [|discriminate]. injection Hf as ->.
  cbn [JS.truthy JS.length_is_zero negb orb].
  unfold run_calls at 1. unfold bind at 1. unfold bind at 1, lift at 1.
  cbn [JS.for_of]. cbn [snd push modify] in Hcalls.
  now rewrite Hcalls.
Qed.

Lemma report_appends (res : FunctionResult) (text : string) (r : Run) :
  report_text rt res = Some text ->
  report rt E res r = (Ok tt, with_appended E [system_message text] r).
Proof.
  unfold report_text, report. intros H. destruct res as [f v|f e].
  - unfold bind, lift.
    destruct (JS.to_string rt f); [|discriminate].
    destruct (JS.to_string rt v); [|discriminate]. now injection H as <-.
  - unfold bind, lift.
    destruct (JS.to_string rt f); [|discriminate]. now injection H as <-.
Qed.

Lemma with_appended_app (a b : list Message) (r : Run) :
  with_appended E b (with_appended E a r) = with_appended E (a ++ b) r.
Proof. unfold with_appended. simpl. now rewrite <- app_assoc. Qed.

Lemma with_appended_nil (r : Run) : with_appended E [] r = r.
Proof. destruct r. unfold with_appended. simpl. now rewrite app_nil_r. Qed.

Lemma reports_append (results : list FunctionResult) (texts : list string) (r : Run) :
  report_texts rt results = Some texts ->
  for_each (report rt E) results r
  = (Ok tt, with_appended E (map system_message texts) r).
Proof.
  revert texts r. induction results as [|res results IH]; intros texts r H; simpl in H.
  - injection H as <-. simpl. unfold ret. now rewrite with_appended_nil.
  - destruct (report_text rt res) as [t|] eqn:Ht; [|discriminate].
    destruct (report_texts rt results) as [ts|]; [|discriminate].
    injection H as <-. simpl. unfold bind.
    rewrite (report_appends _ _ _ Ht), (IH ts _ eq_refl), with_appended_app.
    reflexivity.
Qed.

Lemma conclude_after_reports (parsedResponse : value) (b : Batch)
  (texts : list string) (r2 : Run) :
  report_texts rt (functionResults b) = Some texts ->
  conclude rt E parsedResponse b r2
  = (let* stop := settle E b in
     if (stop : bool) then ret Break
     else detect_repeat rt E b ;; emit_meta_actions rt E parsedResponse ;; ret Next)%js
      (with_appended E (map system_message texts) r2).
Proof.
  intros H. unfold conclude. unfold bind at 1.
  now rewrite (reports_append _ _ _ H).
Qed.

Lemma settle_all_succeeded (b : Batch) (r : Run) :
  allSucceeded b = true ->
  settle E b r = (Ok false, snd (set_consecutiveFailures E 0 r)).
Proof. intros H. unfold settle, bind, gets. rewrite H. reflexivity. Qed.

Lemma settle_failed_again (b : Batch) (r : Run) :
  allSucceeded b = false ->
  consecutiveFailures E r + 1 < 3 ->
  settle E b r
  = (Ok false,
     with_appended E [adjust_message]
       (snd (set_consecutiveFailures E (consecutiveFailures E r + 1) r))).
Proof.
  intros H Hlt. unfold settle, bind, gets. rewrite H. cbn [negb].
  unfold set_consecutiveFailures at 1, modify at 1. cbn [consecutiveFailures].
  destruct (Nat.leb_spec 3 (consecutiveFailures E r + 1)); [lia|]. reflexivity.
Qed.

Lemma settle_failed_thrice (b : Batch) (r : Run) :
  allSucceeded b = false ->
  3 <= consecutiveFailures E r + 1 ->
  settle E b r
  = (Ok true,
     with_appended E [failures_message]
       (snd (set_consecutiveFailures E (consecutiveFailures E r + 1) r))).
Proof.
  intros H Hge. unfold settle, bind, gets. rewrite H. cbn [negb].
  unfold set_consecutiveFailures at 1, modify at 1. cbn [consecutiveFailures].
  destruct (Nat.leb_spec 3 (consecutiveFailures E r + 1)); [|lia]. reflexivity.
Qed.

(** When the loop goes on after [settle], fewer than three failures are
    counted. *)
Lemma settle_goes_on (b : Batch) (r r' : Run) :
  settle E b r = (Ok false, r') ->
  consecutiveFailures E r' < 3 /\ lastFunctionCalls E r' = lastFunctionCalls E r.
Proof.
  unfold settle, bind, gets. destruct (allSucceeded b); cbn [negb].
  - intros [= <-]. simpl. split; [lia|reflexivity].
  - unfold set_consecutiveFailures at 1, modify at 1. cbn [consecutiveFailures].
    destruct (Nat.leb_spec 3 (consecutiveFailures E r + 1));
      intros [= <-]. simpl. split; [lia|reflexivity].
Qed.

Lemma detect_repeat_ok (b : Batch) (r : Run) (s1 s2 : string) :
  JS.join_comma rt (functionCallNames b) = Ok s1 ->
  JS.join_comma rt (lastFunctionCalls E r) = Ok s2 ->
  detect_repeat rt E b r
  = (Ok tt,
     snd (set_lastFunctionCalls E (functionCallNames b)
            (if String.eqb s1 s2 then with_appended E [repeating_message] r else r))).
Proof.
  intros H1 H2. unfold detect_repeat, bind, lift, gets. rewrite H1, H2.
  destruct (String.eqb s1 s2); reflexivity.
Qed.

Lemma detect_repeat_inv (b : Batch) (r r' : Run) :
  detect_repeat rt E b r = (Ok tt, r') ->
  lastFunctionCalls E r' = functionCallNames b
  /\ consecutiveFailures E r' = consecutiveFailures E r
  /\ exists s, JS.join_comma rt (functionCallNames b) = Ok s.
Proof.
  unfold detect_repeat, bind, lift, gets.
  destruct (JS.join_comma rt (functionCallNames b)) as [s1|]; [|discriminate].
  destruct (JS.join_comma rt (lastFunctionCalls E r)) as [s2|]; [|discriminate].
  destruct (String.eqb s1 s2); simpl; intros [= <-]; simpl; eauto.
Qed.

Lemma emit_meta_actions_same (parsedResponse : value) (r : Run) :
  same_variables E r (snd (emit_meta_actions rt E parsedResponse r)).
Proof.
  apply (keeps_emit_meta_actions (same_variables E)).
  - intros a. now split.
  - intros a b c [H1 H2] [H3 H4]. split; congruence.
  - intros A c a. unfold in_machine. destruct (c (machine_of E a)). now split.
Qed.

(** *** What a pass that goes on leaves *)

Lemma conclude_next (parsedResponse : value) (b : Batch) (r2 r' : Run) :
  conclude rt E parsedResponse b r2 = (Ok Next, r') ->
  consecutiveFailures E r' < 3
  /\ lastFunctionCalls E r' = functionCallNames b
  /\ exists s, JS.join_comma rt (functionCallNames b) = Ok s.
Proof.
  unfold conclude. intros H.
  apply bind_ok_inv in H as ([] & r3 & _ & H).
  apply bind_ok_inv in H as (stop & r4 & Hs & H).
  destruct stop; [discriminate|].
  apply settle_goes_on in Hs as [Hlt _].
  apply bind_ok_inv in H as ([] & r5 & Hd & H).
  apply detect_repeat_inv in Hd as (Hl & Hc & Hj).
  apply bind_ok_inv in H as ([] & r6 & He & H).
  unfold ret in H. injection H as <-.
  pose proof (emit_meta_actions_same parsedResponse r5) as [Hc' Hl'].
  rewrite He in Hc', Hl'. simpl in Hc', Hl'.
  rewrite Hc', Hl', Hc, Hl. auto.
Qed.

Lemma attempt_next (projectId : string) (r r' : Run) :
  attempt rt E host projectId r = (Ok Next, r') ->
  exists parsedResponse b r2, conclude rt E parsedResponse b r2 = (Ok Next, r').
Proof.
  unfold attempt. intros H.
  apply bind_ok_inv in H as (reply & r1 & _ & H).
  destruct reply as [reply|]; simpl in H; [|discriminate].
  destruct (String.eqb (Str.trim reply) ""); [discriminate|].
  destruct (negb _).
  - apply bind_ok_inv in H as (? & ? & _ & H). discriminate.
  - unfold respond in H.
    apply bind_ok_inv in H as (explanation & ? & _ & H).
    apply bind_ok_inv in H as ([] & r2 & _ & H).
    unfold act in H.
    apply bind_ok_inv in H as (function_calls & ? & _ & H).
    destruct (_ || _).
    + apply bind_ok_inv in H as (? & ? & _ & H). discriminate.
    + apply bind_ok_inv in H as (b & r3 & _ & H). eauto.
Qed.

Lemma pass_next (projectId : string) (r r' : Run) :
  pass projectId r = (Next, r') -> attempt rt E host projectId r = (Ok Next, r').
Proof.
  unfold Backend.pass.
  destruct (attempt rt E host projectId r) as [[[|]|e] r1]; intros H;
    try discriminate. now injection H as <-.
Qed.

Lemma pass_next_sound (projectId : string) (r r' : Run) :
  pass projectId r = (Next, r') -> sound rt E r'.
Proof.
  intros H. apply pass_next, attempt_next in H as (parsed & b & r2 & H).
  apply conclude_next in H as (Hlt & Hl & s & Hs).
  split; [exact Hlt|]. exists s. now rewrite Hl.
Qed.

Lemma start_sound (seed : list Message) (m : Machine E) : sound rt E (start E seed m).
Proof. split; simpl; [lia|]. now exists "". Qed.

Lemma at_pass_sound (k : nat) (projectId : string) (r rk : Run) :
  sound rt E r -> at_pass k projectId r = Some rk -> sound rt E rk.
Proof.
  revert r. induction k as [|k IH]; intros r Hs H; simpl in H.
  - now injection H as <-.
  - destruct (Backend.pass rt E host projectId r) as [[|] r1] eqn:Hp; [discriminate|].
    apply (IH r1); [|exact H]. apply (pass_next_sound _ _ _ Hp).
Qed.

(** The names of the calls of one pass are what the next pass compares
    its own with. *)
Lemma executes_next_names (projectId : string) (r r' : Run) (parsedResponse : value)
  (b : Batch) (r2 : Run) :
  executes rt E host projectId r parsedResponse b r2 ->
  pass projectId r = (Next, r') ->
  lastFunctionCalls E r' = functionCallNames b.
Proof.
  intros Hx Hp. apply pass_next in Hp.
  rewrite (executes_attempt _ _ _ _ _ Hx) in Hp.
  now apply conclude_next in Hp as (_ & Hl & _).
Qed.

(** *** A well-formed pass, from its calls to its end *)

Lemma call_functions_same (projectId : string) (calls : list value) (b : Batch)
  (r : Run) :
  same_locals E r (snd (call_functions rt E host projectId b calls r)).
Proof.
  apply (keeps_call_functions (same_locals E)).
  - intros a. now repeat split.
  - intros a b' c [[H1 H2] H3] [[H4 H5] H6]. repeat split; congruence.
  - intros A c a. unfold in_machine. destruct (c (machine_of E a)). now repeat split.
  - intros key a. now repeat split.
Qed.

Lemma executes_locals (projectId : string) (r : Run) (parsedResponse : value)
  (b : Batch) (r2 : Run) :
  executes rt E host projectId r parsedResponse b r2 ->
  consecutiveFailures E r2 = consecutiveFailures E r
  /\ lastFunctionCalls E r2 = lastFunctionCalls E r
  /\ messages E r2
     = messages E r ++ [{| role := Assistant; content := explanation_of parsedResponse |}]
  /\ exists names, functionCallNames b = map VStr names.
Proof.
  intros (_ & _ & c & calls & Hf & Hcalls).
  pose proof (call_functions_same projectId (c :: calls) no_calls_yet
                (snd (push E {| role := Assistant;
                                content := explanation_of parsedResponse |}
                        (asked E host r)))) as [[H1 H2] H3].
  rewrite Hcalls in H1, H2, H3.
  destruct (asked_fields r) as (Hm & _ & Hc & Hl & _).
  simpl in H1, H2, H3. rewrite Hm in H3.
  repeat split; try congruence.
  destruct (call_functions_add _ _ _ _ _ _ Hcalls) as [Hn _].
  destruct (typed_names _ (function_calls_typed _ _ Hf)) as [names Hnames].
  exists names. now rewrite Hn, Hnames.
Qed.

(** The whole pass, for a well-formed response whose results have a text. *)
Lemma pass_executes (projectId : string) (r : Run) (parsedResponse : value)
  (b : Batch) (r2 : Run) (texts : list string) (acts : list value)
  (newCallsStr oldCallsStr : string) :
  executes rt E host projectId r parsedResponse b r2 ->
  report_texts rt (functionResults b) = Some texts ->
  meta_actions_of parsedResponse = Some acts ->
  JS.join_comma rt (functionCallNames b) = Ok newCallsStr ->
  JS.join_comma rt (lastFunctionCalls E r) = Ok oldCallsStr ->
  let reported := with_appended E (map system_message texts) r2 in
  pass projectId r
  = if third_failure E b r then (Break, settled_run E b reported)
    else (Next,
          broadcast E acts
            (compared_run E b newCallsStr oldCallsStr (settled_run E b reported))).
Proof.
  intros Hx Ht Hm Hn Ho reported.
  destruct (executes_locals _ _ _ _ _ Hx) as (Hc & Hl & _ & _).
  unfold Backend.pass. rewrite (executes_attempt _ _ _ _ _ Hx).
  rewrite (conclude_after_reports _ _ _ _ Ht). fold reported.
  assert (Hcr : consecutiveFailures E reported = consecutiveFailures E r) by exact Hc.
  assert (Hlr : lastFunctionCalls E reported = lastFunctionCalls E r) by exact Hl.
  unfold third_failure, settled_run. unfold bind at 1.
  destruct (allSucceeded b) eqn:Ha; cbn [negb andb].
  - rewrite (settle_all_succeeded _ _ Ha). unfold bind at 1.
    rewrite (detect_repeat_ok _ _ newCallsStr oldCallsStr Hn)
      by (simpl; rewrite Hl; exact Ho).
    unfold bind. now rewrite (emit_meta_actions_ok _ _ _ Hm).
  - rewrite <- Hcr.
    destruct (Nat.leb_spec 3 (consecutiveFailures E reported + 1)).
    + now rewrite (settle_failed_thrice _ _ Ha) by lia.
    + rewrite (settle_failed_again _ _ Ha) by lia. unfold bind at 1.
      rewrite (detect_repeat_ok _ _ newCallsStr oldCallsStr Hn)
        by (simpl; rewrite Hl; exact Ho).
      unfold bind. now rewrite (emit_meta_actions_ok _ _ _ Hm).
Qed.

(** *** Passes in which every call fails *)

Lemma executes_batch (projectId : string) (r : Run) (parsedResponse : value)
  (b : Batch) (r2 : Run) :
  executes rt E host projectId r parsedResponse b r2 ->
  exists n names,
    functionCallNames b = map VStr (n :: names)
    /\ map function_of (functionResults b) = map VStr (n :: names)
    /\ allSucceeded b = forallb is_succeeded (functionResults b).
Proof.
  intros (_ & _ & c & calls & Hf & Hcalls).
  destruct (call_functions_add _ _ _ _ _ _ Hcalls) as (Hn & results & Hr & Hfn & Ha).
  destruct (typed_names _ (function_calls_typed _ _ Hf)) as [[|n names] Hnames];
    [discriminate|].
  exists n, names. simpl in Hn, Hr, Ha. rewrite Hn, Hr, Ha, Hfn. auto.
Qed.

Lemma failed_reports (results : list FunctionResult) (names : list string) :
  map function_of results = map VStr names ->
  forallb (fun res => negb (is_succeeded res)) results = true ->
  exists texts, report_texts rt results = Some texts.
Proof.
  revert names. induction results as [|res results IH]; intros names Hn Hf.
  - now exists [].
  - destruct names as [|n names]; [discriminate|].
    simpl in Hn, Hf. injection Hn as Hres Hn.
    apply andb_true_iff in Hf as [Hr Hf].
    destruct (IH _ Hn Hf) as [texts Ht].
    destruct res as [f v|f e]; [discriminate|]. simpl in Hres. subst f.
    simpl. rewrite Ht. now eexists.
Qed.

Lemma failing_batch (projectId : string) (r : Run) (parsedResponse : value)
  (b : Batch) (r2 : Run) :
  executes rt E host projectId r parsedResponse b r2 ->
  all_failed b = true ->
  allSucceeded b = false /\ exists texts, report_texts rt (functionResults b) = Some texts.
Proof.
  intros Hx Hf. destruct (executes_batch _ _ _ _ _ Hx) as (n & names & _ & Hfn & Ha).
  split.
  - rewrite Ha. unfold all_failed in Hf.
    destruct (functionResults b) as [|res results]; [discriminate|].
    simpl in *. apply andb_true_iff in Hf as [Hr _].
    destruct (is_succeeded res); [discriminate|reflexivity].
  - apply (failed_reports _ _ Hfn Hf).
Qed.

(** The facts [pass_executes] needs, from a reachable run. *)
Lemma executes_ready (projectId : string) (r : Run) (parsedResponse : value)
  (b : Batch) (r2 : Run) :
  sound rt E r ->
  executes rt E host projectId r parsedResponse b r2 ->
  exists acts newCallsStr oldCallsStr,
    meta_actions_of parsedResponse = Some acts
    /\ JS.join_comma rt (functionCallNames b) = Ok newCallsStr
    /\ JS.join_comma rt (lastFunctionCalls E r) = Ok oldCallsStr.
Proof.
  intros [_ [s2 Hs2]] Hx.
  destruct (executes_locals _ _ _ _ _ Hx) as (_ & _ & _ & names & Hn).
  destruct (join_comma_strings names) as [s1 Hs1].
  destruct Hx as (_ & Hm & _).
  destruct (meta_actions_of parsedResponse) as [acts|]; [|contradiction].
  exists acts, s1, s2. rewrite Hn. auto.
Qed.

(** *** A name that the lookup does not find *)

(** A call whose name is a string that [FUNCTION_HANDLERS[name]] does not
    find gives the result "Unknown function", whatever its arguments, and
    changes nothing in the run. *)
Lemma unknown_function (projectId : string) (b : Batch)
  (props : list (string * value)) (name : string) (r : Run) :
  JS.own "name" props = Some (VStr name) ->
  FUNCTION_HANDLERS_get rt E host name = None ->
  call_function rt E host projectId b (VObj props) r
  = (Ok {| allSucceeded := false;
           functionCallNames := functionCallNames b ++ [VStr name];
           functionResults :=
             functionResults b ++ [Failed (VStr name) "Unknown function"] |}, r).
Proof.
  intros Hn Hg. unfold call_function, bind, lift. simpl. rewrite Hn. simpl.
  now rewrite Hg.
Qed.

(** *** The computed forms *)

Lemma executing_executes (projectId : string) (r : Run) (parsedResponse : value)
  (b : Batch) (r2 : Run) :
  executing rt E host projectId r = Some (parsedResponse, b, r2) ->
  executes rt E host projectId r parsedResponse b r2.
Proof.
  unfold executing, executes, parses_to. intros H.
  destruct (model_reply E host r) as [[reply|]|] eqn:Hr; try discriminate.
  destruct (extractJSONFromResponse (Str.trim reply)) as [| |?|?|?|?|props] eqn:Hx;
    try discriminate.
  destruct (meta_actions_of (VObj props)) as [acts|] eqn:Hm; [|discriminate].
  destruct (function_calls_of (VObj props)) as [[|c calls]|] eqn:Hf;
    try discriminate.
  destruct (call_functions _ _ _ _ _ _ _) as [[bb|e] rr] eqn:Hc; [|discriminate].
  injection H as <- <- <-.
  split; [exists reply; repeat split; [exact Hx | discriminate]|].
  split; [rewrite Hm; discriminate|].
  exists c, calls. split; [exact Hf | exact Hc].
Qed.

Lemma failing_failing_pass (projectId : string) (r : Run) :
  failing rt E host projectId r = true -> failing_pass rt E host projectId r.
Proof.
  unfold failing. intros H.
  destruct (executing rt E host projectId r) as [[[parsed b] r2]|] eqn:Hx;
    [|discriminate].
  exists parsed, b, r2. split; [now apply executing_executes | exact H].
Qed.

Lemma all_failing_spec (projectId : string) (r : Run) (k n : nat) :
  all_failing rt E host projectId r k n = true ->
  forall i ri, k <= i < k + n ->
               at_pass i projectId r = Some ri ->
               failing_pass rt E host projectId ri.
Proof.
  unfold all_failing. intros H i ri Hi Hat.
  rewrite forallb_forall in H. specialize (H i).
  rewrite Hat in H. apply failing_failing_pass, H, in_seq. lia.
Qed.

End WithHost.

End LoopFacts.

(** ** The file sandbox *)

Module SandboxFacts.

Import Backend.

Section WithHost.

Variable rt : Runtime.
Variable E : Type.
Variable host : Host E.

(** What the validation checks: the resolved path starts, as a text, with
    the text of the project directory, and its extension, lower-cased, is
    one of the allowed ones. *)
Lemma validateFilePath_true (projectId filename : string) :
  validateFilePath E host projectId filename = true <->
  Str.startsWith (Path.join [PROJECTS_DIR E host; projectId])
    (Path.resolve (cwd host) [Path.join [PROJECTS_DIR E host; projectId]; filename])
  = true
  /\ includes ALLOWED_EXTENSIONS
       (Str.toLowerCase
          (Path.extname
             (Path.resolve (cwd host)
                [Path.join [PROJECTS_DIR E host; projectId]; filename])))
     = true.
Proof.
  unfold validateFilePath.
  destruct (Str.startsWith _ _); cbn [negb]; [|intuition discriminate].
  destruct (includes ALLOWED_EXTENSIONS _); cbn [negb]; intuition discriminate.
Qed.

(** X6.  A file name that the validation refuses is refused by each of the
    four file handlers with "Invalid file path", the machine left as it was. *)
Lemma refused_path_changes_nothing (props : list (string * value))
  (projectId filename : string) (m : Machine E) :
  JS.own "filename" props = Some (VStr filename) ->
  validateFilePath E host projectId filename = false ->
  readFile rt E host (VObj props) projectId m = (Throw (Error "Invalid file path"), m)
  /\ writeFile rt E host (VObj props) projectId m = (Throw (Error "Invalid file path"), m)
  /\ createFile rt E host (VObj props) projectId m = (Throw (Error "Invalid file path"), m)
  /\ deleteFile rt E host (VObj props) projectId m = (Throw (Error "Invalid file path"), m).
Proof.
  intros Hf Hv.
  unfold readFile, writeFile, createFile, deleteFile, destructure, bind, lift,
    console_log, string_arg, throw, ret.
  simpl. rewrite Hf, Hv. simpl.
  destruct (JS.own "content" props); repeat split.
Qed.

End WithHost.

End SandboxFacts.

(** ** The claims about the loop *)

Module Orchestrator.

Import Backend LoopFacts.

Section WithHost.

Variable rt : Runtime.
Variable E : Type.
Variable host : Host E.

Abbreviation Run := (Backend.Run E).
Abbreviation orchestrateTasks := (Backend.orchestrateTasks rt E host).
Abbreviation final_iteration := (Backend.final_iteration rt E host).
Abbreviation at_pass := (Backend.at_pass rt E host).
Abbreviation pass := (Backend.pass rt E host).
Abbreviation jsonRegex_match := (Backend.jsonRegex_match).
Abbreviation extractJSONFromResponse := (Backend.extractJSONFromResponse).

(** C1.  Whatever the seed, the model and the handlers do, one run makes at
    most [MAX_ITERATIONS] = 20 passes, each asking the model once, so at
    most 20 model calls; and when the loop is left with [iteration] at the
    bound, the model was asked 20 times and the returned transcript ends
    with the message that the bound was reached. *)
Theorem run_within_max_iterations (seed : list Message) (projectId : string)
  (m : Machine E) :
  let final := orchestrateTasks seed projectId m in
  let i := final_iteration seed projectId m in
  MAX_ITERATIONS = 20 /\ i <= MAX_ITERATIONS /\ modelCalls E final <= MAX_ITERATIONS
  /\ if i =? MAX_ITERATIONS
     then modelCalls E final = MAX_ITERATIONS
          /\ last (messages E final)
             = Some (system_message "Max iterations reached. Orchestration ended.")
     else modelCalls E final = S i.
Proof.
  intros final i. subst final i.
  unfold Backend.orchestrateTasks, Backend.final_iteration.
  pose proof (while_loop_bounds rt E host MAX_ITERATIONS projectId 0
                (start E seed m) ltac:(lia) ltac:(lia)) as H.
  destruct (Backend.while_loop rt E host MAX_ITERATIONS projectId 0 (start E seed m))
    as [i r]. simpl fst.
  destruct H as (_ & Hi & Hcalls). simpl in Hcalls.
  split; [reflexivity|]. split; [exact Hi|].
  unfold finish. destruct (i =? MAX_ITERATIONS) eqn:Heq.
  - apply Nat.eqb_eq in Heq. subst i. rewrite Nat.ltb_irrefl in Hcalls.
    simpl. rewrite Hcalls. repeat split; try lia.
    apply last_snoc.
  - apply Nat.eqb_neq in Heq.
    assert ((i <? MAX_ITERATIONS) = true) as Hlt by (apply Nat.ltb_lt; lia).
    rewrite Hlt in Hcalls. split; lia.
Qed.

(** C9.  When asking the model throws at the pass number [k], the run ends
    there: the returned transcript is the one gathered so far followed by
    one system message that carries the error's message; the model has
    been asked [k + 1] times in all, so neither again at this pass nor at a
    later one; and no handler is called and nothing is broadcast or
    written after the throw. *)
Theorem model_failure_ends_run (k : nat) (seed : list Message) (projectId : string)
  (m : Machine E) (rk : Run) (e : error) :
  k < MAX_ITERATIONS ->
  at_pass k projectId (start E seed m) = Some rk ->
  model_reply E host rk = Throw e ->
  let final := orchestrateTasks seed projectId m in
  messages E final
  = messages E rk
    ++ [system_message ("Error during orchestration: " +:+ JS.message_of rt e)]
  /\ modelCalls E final = S k
  /\ called E final = called E rk
  /\ emitted (machine_of E final) = emitted (machine_of E rk)
  /\ files (machine_of E final) = files (machine_of E rk).
Proof.
  intros Hk Hat He final. subst final.
  rewrite (orchestrateTasks_ends rt E host k seed projectId m rk
             (snd (push E (system_message
                             ("Error during orchestration: " +:+ JS.message_of rt e))
                     (asked E host rk))) Hk Hat).
  - destruct (asked_fields E host rk) as (Hm & Hc & _ & _ & Hn & Hf & He' & _).
    pose proof (at_pass_modelCalls rt E host _ _ _ _ Hat) as Hcalls.
    simpl in *. rewrite Hm, Hc, Hn, Hf, He', Hcalls. repeat split.
  - unfold Backend.pass. now rewrite (attempt_model_throws rt E host _ _ _ He).
Qed.

(** C2, as the code has it.  When the reply at the pass number [k], with
    the white space at its ends trimmed, is not empty and not parseable,
    the run ends there: the trimmed reply is appended as an assistant
    message and is the last message of the returned transcript, no handler
    is called at this pass or later, and the model is not asked again. *)
Theorem unparsable_reply_ends_run (k : nat) (seed : list Message)
  (projectId : string) (m : Machine E) (rk : Run) (reply : string) :
  k < MAX_ITERATIONS ->
  at_pass k projectId (start E seed m) = Some rk ->
  model_reply E host rk = Ok (Some reply) ->
  Str.trim reply <> "" ->
  extractJSONFromResponse (Str.trim reply) = VNull ->
  let final := orchestrateTasks seed projectId m in
  messages E final
  = messages E rk ++ [{| role := Assistant; content := VStr (Str.trim reply) |}]
  /\ last (messages E final)
     = Some {| role := Assistant; content := VStr (Str.trim reply) |}
  /\ called E final = called E rk
  /\ modelCalls E final = S k
  /\ emitted (machine_of E final) = emitted (machine_of E rk)
  /\ files (machine_of E final) = files (machine_of E rk).
Proof.
  intros Hk Hat Hr Hne Hx final. subst final.
  rewrite (orchestrateTasks_ends rt E host k seed projectId m rk
             (snd (push E {| role := Assistant; content := VStr (Str.trim reply) |}
                     (asked E host rk))) Hk Hat).
  - destruct (asked_fields E host rk) as (Hm & Hc & _ & _ & Hn & Hf & He' & _).
    pose proof (at_pass_modelCalls rt E host _ _ _ _ Hat) as Hcalls.
    simpl in *. rewrite Hm, Hc, Hn, Hf, He', Hcalls, last_snoc. repeat split.
  - unfold Backend.pass.
    now rewrite (attempt_plain_text rt E host _ _ _ Hr Hne Hx).
Qed.

(** The pass of a reply that parses and proposes no function call: the
    explanation is appended, the meta-actions are broadcast, and the loop
    is left. *)
Lemma pass_without_calls (projectId : string) (rk : Run) (parsedResponse : value)
  (acts : list value) :
  parses_to E host rk parsedResponse ->
  function_calls_of parsedResponse = Some [] ->
  meta_actions_of parsedResponse = Some acts ->
  pass projectId rk
  = (Break,
     broadcast E acts
       (snd (push E {| role := Assistant; content := explanation_of parsedResponse |}
               (asked E host rk)))).
Proof.
  intros Hp Hf Hm.
  destruct (attempt_parsed rt E host projectId rk parsedResponse Hp)
    as [[props ->] Ha].
  rewrite respond_object, (act_no_calls rt E host _ _ _ _ Hf Hm) in Ha.
  unfold Backend.pass. now rewrite Ha.
Qed.

(** C5.  When the reply at the pass number [k] parses and proposes no
    function call, the run ends at that pass: every meta-action of the
    reply has been broadcast, in order, no handler was called, the count
    of consecutive failures is as it was, and the transcript is the one
    before the pass followed by the explanation. *)
Theorem no_function_calls_ends_run (k : nat) (seed : list Message)
  (projectId : string) (m : Machine E) (rk : Run) (parsedResponse : value)
  (acts : list value) :
  k < MAX_ITERATIONS ->
  at_pass k projectId (start E seed m) = Some rk ->
  parses_to E host rk parsedResponse ->
  function_calls_of parsedResponse = Some [] ->
  meta_actions_of parsedResponse = Some acts ->
  let final := orchestrateTasks seed projectId m in
  emitted (machine_of E final)
  = emitted (machine_of E rk) ++ map (fun a => ("metaAction", a)) acts
  /\ modelCalls E final = S k
  /\ consecutiveFailures E final = consecutiveFailures E rk
  /\ called E final = called E rk
  /\ files (machine_of E final) = files (machine_of E rk)
  /\ messages E final
     = messages E rk
       ++ [{| role := Assistant; content := explanation_of parsedResponse |}].
Proof.
  intros Hk Hat Hp Hf Hm final. subst final.
  rewrite (orchestrateTasks_ends rt E host k seed projectId m rk _ Hk Hat
             (pass_without_calls projectId rk parsedResponse acts Hp Hf Hm)).
  destruct (asked_fields E host rk) as (Hms & Hc & Hcf & _ & Hn & Hfs & He' & _).
  pose proof (at_pass_modelCalls rt E host _ _ _ _ Hat) as Hcalls.
  simpl in *. rewrite Hms, Hc, Hcf, Hn, Hfs, He', Hcalls. repeat split.
Qed.


(** *** A result that has no text *)

Lemma report_throws (res : FunctionResult) (r : Run) :
  report_text rt res = None -> exists e, report rt E res r = (Throw e, r).
Proof.
  unfold report_text, report, bind, lift. destruct res as [f v|f err].
  - destruct (JS.to_string rt f) as [s|e]; [|intros _; now exists e].
    destruct (JS.to_string rt v) as [s'|e]; [discriminate|]. intros _. now exists e.
  - destruct (JS.to_string rt f) as [s|e]; [discriminate|]. intros _. now exists e.
Qed.

Lemma reports_throw (results : list FunctionResult) (r : Run) :
  report_texts rt results = None ->
  exists e texts,
    for_each (report rt E) results r
    = (Throw e, with_appended E (map system_message texts) r).
Proof.
  revert r. induction results as [|res results IH]; intros r H; simpl in H;
    [discriminate|].
  destruct (report_text rt res) as [t|] eqn:Ht.
  - destruct (report_texts rt results) as [ts|] eqn:Hts; [discriminate|].
    destruct (IH (with_appended E [system_message t] r) eq_refl) as (e & texts & He).
    exists e, (t :: texts). simpl. unfold bind.
    rewrite (report_appends rt E _ _ _ Ht), He, with_appended_app. reflexivity.
  - destruct (report_throws res r Ht) as [e He].
    exists e, []. simpl. unfold bind. rewrite He.
    now rewrite with_appended_nil.
Qed.

(** The pass of a batch with a result that has no text: the reports made
    so far are in the transcript, then the error; the loop is left. *)
Lemma unreportable_pass (projectId : string) (r : Run) (parsedResponse : value)
  (b : Batch) (r2 : Run) :
  executes rt E host projectId r parsedResponse b r2 ->
  report_texts rt (functionResults b) = None ->
  exists e texts,
    pass projectId r
    = (Break,
       with_appended E
         (map system_message texts
          ++ [system_message ("Error during orchestration: " +:+ JS.message_of rt e)])
         r2).
Proof.
  intros Hx Ht. destruct (reports_throw _ r2 Ht) as (e & texts & He).
  exists e, texts. unfold Backend.pass.
  rewrite (executes_attempt rt E host _ _ _ _ _ Hx).
  unfold conclude. unfold bind at 1. rewrite He.
  cbn [snd push modify]. unfold with_appended. cbn.
  now rewrite <- app_assoc.
Qed.

(** *** The failure streak *)

Lemma failing_pass_counts (projectId : string) (r : Run) :
  sound rt E r ->
  failing_pass rt E host projectId r ->
  consecutiveFailures E (snd (pass projectId r)) = consecutiveFailures E r + 1
  /\ exists reported,
       if 3 <=? consecutiveFailures E r + 1
       then fst (pass projectId r) = Break
            /\ messages E (snd (pass projectId r))
               = messages E r ++ reported ++ [failures_message]
       else fst (pass projectId r) = Next
            /\ exists warning,
                 messages E (snd (pass projectId r))
                 = messages E r ++ reported ++ adjust_message :: warning
                 /\ (warning = [] \/ warning = [repeating_message]).
Proof.
  intros Hs (parsed & b & r2 & Hx & Hf).
  destruct (failing_batch rt E host _ _ _ _ _ Hx Hf) as (Ha & texts & Ht).
  destruct (executes_ready rt E host _ _ _ _ _ Hs Hx) as (acts & s1 & s2 & Hm & H1 & H2).
  destruct (executes_locals rt E host _ _ _ _ _ Hx) as (Hc & _ & Hmsgs & _).
  rewrite (pass_executes rt E host _ _ _ _ _ _ _ _ _ Hx Ht Hm H1 H2).
  unfold third_failure, settled_run. rewrite Ha. cbn [negb andb].
  change (consecutiveFailures E (with_appended E (map system_message texts) r2))
    with (consecutiveFailures E r2).
  rewrite Hc.
  split.
  - destruct (3 <=? consecutiveFailures E r + 1); cbn [fst snd]; [reflexivity|].
    unfold compared_run. now destruct (String.eqb s1 s2).
  - exists ({| role := Assistant; content := explanation_of parsed |}
            :: map system_message texts).
    destruct (3 <=? consecutiveFailures E r + 1); cbn [fst snd].
    + split; [reflexivity|]. simpl. rewrite Hmsgs. now rewrite <- !app_assoc.
    + split; [reflexivity|]. unfold compared_run.
      destruct (String.eqb s1 s2); simpl; rewrite Hmsgs.
      * exists [repeating_message]. split; [|now right].
        now rewrite <- !app_assoc.
      * exists []. split; [|now left]. now rewrite <- !app_assoc.
Qed.


Lemma succeeding_pass_resets (projectId : string) (r : Run) (parsedResponse : value)
  (b : Batch) (r2 : Run) (texts : list string) :
  sound rt E r ->
  executes rt E host projectId r parsedResponse b r2 ->
  allSucceeded b = true ->
  report_texts rt (functionResults b) = Some texts ->
  fst (pass projectId r) = Next
  /\ consecutiveFailures E (snd (pass projectId r)) = 0.
Proof.
  intros Hs Hx Ha Ht.
  destruct (executes_ready rt E host _ _ _ _ _ Hs Hx) as (acts & s1 & s2 & Hm & H1 & H2).
  rewrite (pass_executes rt E host _ _ _ _ _ _ _ _ _ Hx Ht Hm H1 H2).
  unfold third_failure, settled_run, compared_run. rewrite Ha.
  cbn [negb andb fst snd].
  destruct (String.eqb s1 s2); split; reflexivity.
Qed.

Lemma failing_streak (n : nat) :
  forall (j : nat) (seed : list Message) (projectId : string) (m : Machine E)
         (rj : Run),
    at_pass j projectId (start E seed m) = Some rj ->
    consecutiveFailures E rj + n = 3 ->
    1 <= n ->
    j + n <= MAX_ITERATIONS ->
    (forall i ri, j <= i < j + n ->
                  at_pass i projectId (start E seed m) = Some ri ->
                  failing_pass rt E host projectId ri) ->
    let final := orchestrateTasks seed projectId m in
    modelCalls E final = j + n
    /\ last (messages E final) = Some failures_message
    /\ consecutiveFailures E final = 3.
Proof.
  induction n as [|n IH]; intros j seed projectId m rj Hat Hc Hn Hj Hfail final;
    [lia|].
  assert (Hs : sound rt E rj)
    by (apply (at_pass_sound rt E host _ _ _ _ (start_sound rt E seed m) Hat)).
  destruct (failing_pass_counts projectId rj Hs (Hfail j rj ltac:(lia) Hat))
    as (Hcount & reported & Hpass).
  destruct (pass projectId rj) as [c r'] eqn:Hp. cbn [fst snd] in *.
  destruct (Nat.leb_spec 3 (consecutiveFailures E rj + 1)) as [Hge|Hlt].
  - destruct Hpass as [-> Hlast]. subst final.
    rewrite (orchestrateTasks_ends rt E host j seed projectId m rj r'
               ltac:(lia) Hat Hp).
    pose proof (pass_modelCalls rt E host projectId rj) as Hcalls.
    rewrite Hp in Hcalls. cbn [snd] in Hcalls.
    rewrite (at_pass_modelCalls rt E host _ _ _ _ Hat) in Hcalls. simpl in Hcalls.
    repeat split; [lia | | lia].
    rewrite Hlast, !app_assoc. apply last_snoc.
  - destruct Hpass as [-> _].
    pose proof (at_pass_next rt E host _ _ _ _ _ Hat Hp) as Hat'.
    destruct (IH (S j) seed projectId m r' Hat' ltac:(lia) ltac:(lia) ltac:(lia))
      as (H1 & H2 & H3).
    + intros i ri Hi. apply Hfail. lia.
    + subst final. repeat split; [lia | exact H2 | exact H3].
Qed.

(** C4, as the code has it.  The policy of the consecutive-failure count,
    for passes that execute the function calls of a well-formed response.
    - A pass in which every call fails raises the count by one.  When the
      count reaches 3 the message "Multiple consecutive failures. Ending
      orchestration." is appended, last of the transcript, and the run
      ends with that pass: the model is not asked again.  Below 3 the
      message asking the model to adjust is appended (after it comes at
      most the warning about repeated calls) and the loop goes on to the
      next pass.
    - A pass in which every call succeeds and every result has a text for
      its report resets the count to 0, and the loop goes on.
    - A pass with a result that has no text for its report, be its calls
      all successful, ends the run with the count as it was before the
      pass: the error raised by the report is caught, and the message
      "Error during orchestration: ..." is the last of the transcript.
    - Hence three passes in a row in which every call fails end the run,
      at the latest with the third of them, the failure message last. *)
Theorem failure_streak_policy :
  (forall (k : nat) (seed : list Message) (projectId : string) (m : Machine E)
          (rk : Run),
      k < MAX_ITERATIONS ->
      at_pass k projectId (start E seed m) = Some rk ->
      failing_pass rt E host projectId rk ->
      consecutiveFailures E (snd (pass projectId rk)) = consecutiveFailures E rk + 1
      /\ exists reported,
           if 3 <=? consecutiveFailures E rk + 1
           then fst (pass projectId rk) = Break
                /\ messages E (snd (pass projectId rk))
                   = messages E rk ++ reported ++ [failures_message]
                /\ last (messages E (snd (pass projectId rk))) = Some failures_message
                /\ orchestrateTasks seed projectId m = snd (pass projectId rk)
                /\ modelCalls E (orchestrateTasks seed projectId m) = S k
           else fst (pass projectId rk) = Next
                /\ (exists warning,
                      messages E (snd (pass projectId rk))
                      = messages E rk ++ reported ++ adjust_message :: warning
                      /\ (warning = [] \/ warning = [repeating_message]))
                /\ In adjust_message (messages E (snd (pass projectId rk)))
                /\ at_pass (S k) projectId (start E seed m)
                   = Some (snd (pass projectId rk)))
  /\ (forall (k : nat) (seed : list Message) (projectId : string) (m : Machine E)
             (rk : Run) (parsedResponse : value) (b : Batch) (r2 : Run)
             (texts : list string),
         at_pass k projectId (start E seed m) = Some rk ->
         executes rt E host projectId rk parsedResponse b r2 ->
         allSucceeded b = true ->
         report_texts rt (functionResults b) = Some texts ->
         fst (pass projectId rk) = Next
         /\ consecutiveFailures E (snd (pass projectId rk)) = 0)
  /\ (forall (k : nat) (seed : list Message) (projectId : string) (m : Machine E)
             (rk : Run) (parsedResponse : value) (b : Batch) (r2 : Run),
         k < MAX_ITERATIONS ->
         at_pass k projectId (start E seed m) = Some rk ->
         executes rt E host projectId rk parsedResponse b r2 ->
         report_texts rt (functionResults b) = None ->
         fst (pass projectId rk) = Break
         /\ consecutiveFailures E (snd (pass projectId rk)) = consecutiveFailures E rk
         /\ orchestrateTasks seed projectId m = snd (pass projectId rk)
         /\ modelCalls E (orchestrateTasks seed projectId m) = S k
         /\ exists e,
              last (messages E (snd (pass projectId rk)))
              = Some (system_message
                        ("Error during orchestration: " +:+ JS.message_of rt e)))
  /\ (forall (k : nat) (seed : list Message) (projectId : string) (m : Machine E)
             (rk : Run),
         k + 3 <= MAX_ITERATIONS ->
         at_pass k projectId (start E seed m) = Some rk ->
         (forall i ri, k <= i < k + 3 ->
                       at_pass i projectId (start E seed m) = Some ri ->
                       failing_pass rt E host projectId ri) ->
         exists j,
           k <= j < k + 3
           /\ modelCalls E (orchestrateTasks seed projectId m) = S j
           /\ last (messages E (orchestrateTasks seed projectId m))
              = Some failures_message
           /\ consecutiveFailures E (orchestrateTasks seed projectId m) = 3).
Proof.
  split; [|split; [|split]].
  - intros k seed projectId m rk Hk Hat Hfail.
    assert (Hs : sound rt E rk)
      by (apply (at_pass_sound rt E host _ _ _ _ (start_sound rt E seed m) Hat)).
    destruct (failing_pass_counts projectId rk Hs Hfail)
      as (Hcount & reported & Hpass).
    split; [exact Hcount|]. exists reported.
    pose proof (pass_modelCalls rt E host projectId rk) as Hcalls.
    destruct (pass projectId rk) as [c r'] eqn:Hp. cbn [fst snd] in *.
    destruct (3 <=? consecutiveFailures E rk + 1).
    + destruct Hpass as [-> Hmsgs].
      rewrite (orchestrateTasks_ends rt E host k seed projectId m rk r' Hk Hat Hp).
      rewrite (at_pass_modelCalls rt E host _ _ _ _ Hat) in Hcalls.
      repeat split; [exact Hmsgs | | exact Hcalls].
      rewrite Hmsgs, !app_assoc. apply last_snoc.
    + destruct Hpass as [-> (warning & Hmsgs & Hw)].
      split; [reflexivity|]. split; [now exists warning|].
      split; [|exact (at_pass_next rt E host _ _ _ _ _ Hat Hp)].
      rewrite Hmsgs, !in_app_iff. right. right. now left.
  - intros k seed projectId m rk parsed b r2 texts Hat Hx Ha Ht.
    apply (succeeding_pass_resets projectId rk parsed b r2 texts); try assumption.
    apply (at_pass_sound rt E host _ _ _ _ (start_sound rt E seed m) Hat).
  - intros k seed projectId m rk parsed b r2 Hk Hat Hx Ht.
    destruct (unreportable_pass projectId rk parsed b r2 Hx Ht) as (e & texts & Hp).
    destruct (executes_locals rt E host _ _ _ _ _ Hx) as (Hc & _).
    pose proof (pass_modelCalls rt E host projectId rk) as Hcalls.
    rewrite (orchestrateTasks_ends rt E host k seed projectId m rk _ Hk Hat Hp).
    rewrite Hp in *. cbn [fst snd] in *.
    rewrite (at_pass_modelCalls rt E host _ _ _ _ Hat) in Hcalls.
    split; [reflexivity|]. split; [exact Hc|]. split; [reflexivity|].
    split; [exact Hcalls|]. exists e. cbn [with_appended messages].
    rewrite !app_assoc. apply last_snoc.
  - intros k seed projectId m rk Hk Hat Hfail.
    assert (Hs : sound rt E rk)
      by (apply (at_pass_sound rt E host _ _ _ _ (start_sound rt E seed m) Hat)).
    destruct Hs as [Hlt _].
    destruct (failing_streak (3 - consecutiveFailures E rk) k seed projectId m rk
                Hat ltac:(lia) ltac:(lia) ltac:(lia)) as (H1 & H2 & H3).
    + intros i ri Hi. apply Hfail. lia.
    + exists (k + (3 - consecutiveFailures E rk) - 1).
      repeat split; [lia | lia | rewrite H1; lia | exact H2 | exact H3].
Qed.

(** *** Repeated calls *)

Lemma going_pass (projectId : string) (r : Run) (parsedResponse : value)
  (b : Batch) (r2 : Run) (texts : list string) :
  sound rt E r ->
  executes rt E host projectId r parsedResponse b r2 ->
  report_texts rt (functionResults b) = Some texts ->
  third_failure E b r = false ->
  fst (pass projectId r) = Next
  /\ lastFunctionCalls E (snd (pass projectId r)) = functionCallNames b
  /\ (lastFunctionCalls E r = functionCallNames b ->
      exists reported,
        messages E (snd (pass projectId r))
        = messages E r ++ reported ++ [repeating_message]).
Proof.
  intros Hs Hx Ht Hthird.
  destruct (executes_ready rt E host _ _ _ _ _ Hs Hx) as (acts & s1 & s2 & Hm & H1 & H2).
  destruct (executes_locals rt E host _ _ _ _ _ Hx) as (Hc & _ & Hmsgs & _).
  rewrite (pass_executes rt E host _ _ _ _ _ _ _ _ _ Hx Ht Hm H1 H2).
  rewrite Hthird. cbn [fst snd]. split; [reflexivity|].
  split; [reflexivity|]. intros Hsame.
  rewrite Hsame, H1 in H2. injection H2 as <-.
  unfold compared_run. rewrite String.eqb_refl.
  unfold third_failure in Hthird. unfold settled_run.
  destruct (allSucceeded b); cbn [negb andb] in Hthird.
  - exists ({| role := Assistant; content := explanation_of parsedResponse |}
            :: map system_message texts).
    simpl. rewrite Hmsgs. now rewrite <- !app_assoc.
  - change (consecutiveFailures E (with_appended E (map system_message texts) r2))
      with (consecutiveFailures E r2).
    rewrite Hc, Hthird.
    exists ({| role := Assistant; content := explanation_of parsedResponse |}
            :: map system_message texts ++ [adjust_message]).
    simpl. rewrite Hmsgs. now rewrite <- !app_assoc.
Qed.

(** A pass that is left before the names are compared keeps the names of
    the pass before. *)
Lemma ending_pass (projectId : string) (r : Run) (parsedResponse : value)
  (b : Batch) (r2 : Run) :
  sound rt E r ->
  executes rt E host projectId r parsedResponse b r2 ->
  report_texts rt (functionResults b) = None \/ third_failure E b r = true ->
  fst (pass projectId r) = Break
  /\ lastFunctionCalls E (snd (pass projectId r)) = lastFunctionCalls E r.
Proof.
  intros Hs Hx H.
  destruct (executes_locals rt E host _ _ _ _ _ Hx) as (_ & Hl & _).
  destruct (report_texts rt (functionResults b)) as [texts|] eqn:Ht.
  - destruct H as [H|Hthird]; [discriminate|].
    destruct (executes_ready rt E host _ _ _ _ _ Hs Hx)
      as (acts & s1 & s2 & Hm & H1 & H2).
    rewrite (pass_executes rt E host _ _ _ _ _ _ _ _ _ Hx Ht Hm H1 H2).
    rewrite Hthird. cbn [fst snd]. split; [reflexivity|].
    unfold settled_run. now destruct (allSucceeded b).
  - destruct (unreportable_pass projectId r parsedResponse b r2 Hx Ht)
      as (e & texts & ->).
    cbn [fst snd]. split; [reflexivity | exact Hl].
Qed.

(** C6, as the code has it.  For passes that execute the function calls of
    a well-formed response:
    - when every result has a text for its report and the pass is not the
      third in a row with a failed call, the loop goes on after the pass,
      and [lastFunctionCalls] is then the list of names of this pass,
      whether or not it equals the former one;
    - if moreover the pass before executed calls with the same names in
      the same order, the warning that the model is repeating itself, a
      system message with the word "repeating", is appended by the pass,
      last of the transcript; the warning does not end the loop: the next
      pass is reached (it is attempted when it is below the bound);
    - a pass with a result that has no text for its report, and the third
      pass in a row with a failed call, end the run before the names are
      compared: [lastFunctionCalls] stays as it was. *)
Theorem repeated_calls_are_flagged :
  (forall (j : nat) (seed : list Message) (projectId : string) (m : Machine E)
          (rj : Run) (parsedResponse : value) (b : Batch) (r2 : Run)
          (texts : list string),
      at_pass j projectId (start E seed m) = Some rj ->
      executes rt E host projectId rj parsedResponse b r2 ->
      report_texts rt (functionResults b) = Some texts ->
      third_failure E b rj = false ->
      fst (pass projectId rj) = Next
      /\ lastFunctionCalls E (snd (pass projectId rj)) = functionCallNames b)
  /\ (forall (k : nat) (seed : list Message) (projectId : string) (m : Machine E)
             (rk rk' : Run) (parsedResponse parsedResponse' : value)
             (b b' : Batch) (r2 r2' : Run) (texts : list string),
         at_pass k projectId (start E seed m) = Some rk ->
         executes rt E host projectId rk parsedResponse b r2 ->
         at_pass (S k) projectId (start E seed m) = Some rk' ->
         executes rt E host projectId rk' parsedResponse' b' r2' ->
         functionCallNames b' = functionCallNames b ->
         report_texts rt (functionResults b') = Some texts ->
         third_failure E b' rk' = false ->
         In repeating_message (messages E (snd (pass projectId rk')))
         /\ (exists reported,
               messages E (snd (pass projectId rk'))
               = messages E rk' ++ reported ++ [repeating_message])
         /\ role repeating_message = System
         /\ mentions "repeating" repeating_message = true
         /\ at_pass (S (S k)) projectId (start E seed m)
            = Some (snd (pass projectId rk')))
  /\ (forall (j : nat) (seed : list Message) (projectId : string) (m : Machine E)
             (rj : Run) (parsedResponse : value) (b : Batch) (r2 : Run),
         j < MAX_ITERATIONS ->
         at_pass j projectId (start E seed m) = Some rj ->
         executes rt E host projectId rj parsedResponse b r2 ->
         report_texts rt (functionResults b) = None \/ third_failure E b rj = true ->
         fst (pass projectId rj) = Break
         /\ lastFunctionCalls E (snd (pass projectId rj)) = lastFunctionCalls E rj
         /\ orchestrateTasks seed projectId m = snd (pass projectId rj)).
Proof.
  split; [|split].
  - intros j seed projectId m rj parsed b r2 texts Hat Hx Ht Hthird.
    assert (Hs : sound rt E rj)
      by (apply (at_pass_sound rt E host _ _ _ _ (start_sound rt E seed m) Hat)).
    destruct (going_pass projectId rj parsed b r2 texts Hs Hx Ht Hthird)
      as (H1 & H2 & _). now split.
  - intros k seed projectId m rk rk' parsed parsed' b b' r2 r2' texts
      Hat Hx Hat' Hx' Hnames Ht Hthird.
    assert (Hs : sound rt E rk')
      by (apply (at_pass_sound rt E host _ _ _ _ (start_sound rt E seed m) Hat')).
    destruct (at_pass_prev rt E host _ _ _ _ Hat') as (rk0 & Hat0 & Hp).
    rewrite Hat in Hat0. injection Hat0 as <-.
    pose proof (executes_next_names rt E host _ _ _ _ _ _ Hx Hp) as Hlast.
    destruct (going_pass projectId rk' parsed' b' r2' texts Hs Hx' Ht Hthird)
      as (H1 & H2 & H3).
    destruct (H3 ltac:(congruence)) as [reported Hmsgs].
    split; [rewrite Hmsgs, !in_app_iff; right; right; now left|].
    split; [now exists reported|]. split; [reflexivity|]. split; [reflexivity|].
    apply (at_pass_next rt E host _ _ _ _ _ Hat').
    destruct (pass projectId rk') as [c r'']. cbn [fst snd] in *. now subst c.
  - intros j seed projectId m rj parsed b r2 Hj Hat Hx H.
    assert (Hs : sound rt E rj)
      by (apply (at_pass_sound rt E host _ _ _ _ (start_sound rt E seed m) Hat)).
    destruct (ending_pass projectId rj parsed b r2 Hs Hx H) as [Hb Hl].
    split; [exact Hb|]. split; [exact Hl|].
    destruct (pass projectId rj) as [c r'] eqn:Hp. cbn [fst snd] in *. subst c.
    apply (orchestrateTasks_ends rt E host j seed projectId m rj r' Hj Hat Hp).
Qed.

End WithHost.

End Orchestrator.

(** ** What the handlers and a run leave as it was *)

Module EffectFacts.

Import Backend Effects.

Section Preserved.

Context {S : Type}.
Variable P : S -> S -> Prop.
Hypothesis P_refl : forall s, P s s.
Hypothesis P_trans : forall a b c, P a b -> P b c -> P a c.

Lemma preserves_ret {A : Type} (a : A) : preserves P (ret a).
Proof. intros s. apply P_refl. Qed.

Lemma preserves_throw {A : Type} (e : error) : preserves P (throw (A := A) e).
Proof. intros s. apply P_refl. Qed.

Lemma preserves_lift {A : Type} (o : outcome A) : preserves P (lift o).
Proof. intros s. apply P_refl. Qed.

Lemma preserves_gets {A : Type} (f : S -> A) : preserves P (gets f).
Proof. intros s. apply P_refl. Qed.

Lemma preserves_bind {A B : Type} (c : M S A) (k : A -> M S B) :
  preserves P c -> (forall a, preserves P (k a)) -> preserves P (bind c k).
Proof.
  intros Hc Hk s. unfold bind. specialize (Hc s).
  destruct (c s) as [[a|e] s1]; simpl in *; [|exact Hc].
  apply (P_trans _ _ _ Hc). apply Hk.
Qed.

Lemma preserves_try_catch {A : Type} (c : M S A) (h : error -> M S A) :
  preserves P c -> (forall e, preserves P (h e)) -> preserves P (try_catch c h).
Proof.
  intros Hc Hh s. unfold try_catch. specialize (Hc s).
  destruct (c s) as [[a|e] s1]; simpl in *; [exact Hc|].
  apply (P_trans _ _ _ Hc). apply Hh.
Qed.

Lemma preserves_for_each {A : Type} (body : A -> M S unit) (l : list A) :
  (forall a, preserves P (body a)) -> preserves P (for_each body l).
Proof.
  intros Hb. induction l as [|x l IH]; simpl.
  - apply preserves_ret.
  - apply preserves_bind; [apply Hb | intros _; exact IH].
Qed.

Lemma preserves_console_log (rt : Runtime) (vs : list value) :
  preserves P (console_log rt vs).
Proof.
  apply preserves_for_each. intros v. apply preserves_bind; [apply preserves_lift|].
  intros _. apply preserves_ret.
Qed.

Lemma preserves_destructure (args : value) (prop : string) :
  preserves P (destructure args prop).
Proof. unfold destructure. destruct args; first [apply preserves_throw | apply preserves_lift]. Qed.

Lemma preserves_string_arg (name : string) (v : value) :
  preserves P (string_arg name v).
Proof. unfold string_arg. destruct v; first [apply preserves_throw | apply preserves_ret]. Qed.

Lemma preserves_is_select (query : value) : preserves P (is_select query).
Proof. unfold is_select. destruct query; first [apply preserves_throw | apply preserves_ret]. Qed.

Lemma preserves_read {A : Type} (f : S -> outcome A) :
  preserves P (fun s => (f s, s)).
Proof. intros s. apply P_refl. Qed.

End Preserved.

(** *** The file system *)

Lemma put_file_ok (syscall : string) (fs fs' : Fs.store) (p data : string) :
  Fs.put_file syscall fs p data = Ok fs' ->
  fs' = <[Fs.key p := Fs.File data]> fs
  /\ Path.ends_with_slash p = false
  /\ (fs !! Fs.key p = None \/ exists c, fs !! Fs.key p = Some (Fs.File c)).
Proof.
  unfold Fs.put_file, Fs.fs_error.
  destruct (fs !! Fs.key p) as [[c|]|] eqn:Hk; try discriminate;
    destruct (Path.ends_with_slash p); try discriminate.
  - intros [= <-]. eauto.
  - destruct (fs !! Path.parent (Fs.key p)) as [[?|]|]; try discriminate.
    intros [= <-]. eauto.
Qed.

Lemma mkdirSync_ok (fs fs' : Fs.store) (p : string) :
  Fs.mkdirSync fs p = Ok fs' ->
  fs' = <[Fs.key p := Fs.Dir]> fs /\ fs !! Fs.key p = None.
Proof.
  unfold Fs.mkdirSync, Fs.fs_error.
  destruct (fs !! Fs.key p); [discriminate|].
  destruct (fs !! Path.parent (Fs.key p)) as [[?|]|]; try discriminate.
  intros [= <-]. eauto.
Qed.

Lemma mkdir_steps_keep (ps : list string) (acc : outcome Fs.store) (fs fs' : Fs.store) :
  fold_left Fs.mkdir_step ps acc = Ok fs' ->
  acc = Ok fs \/ (exists e, acc = Throw e) ->
  fs ⊆ fs'.
Proof.
  revert acc fs. induction ps as [|p ps IH]; intros acc fs H Hacc; simpl in H.
  - destruct Hacc as [-> | [e ->]]; [|discriminate]. now injection H as ->.
  - destruct Hacc as [-> | [e ->]].
    + simpl in H. destruct (fs !! p) as [[c|]|] eqn:Hp.
      * exfalso. clear -H. induction ps; simpl in H; [discriminate|auto].
      * eapply IH; eauto.
      * transitivity (<[p := Fs.Dir]> fs); [now apply insert_subseteq|].
        eapply IH; eauto.
    + exfalso. clear -H. simpl in H. induction ps; simpl in H; [discriminate|auto].
Qed.

Lemma mkdirSync_recursive_keeps (fs fs' : Fs.store) (p : string) :
  Fs.mkdirSync_recursive fs p = Ok fs' -> fs ⊆ fs'.
Proof. intros H. eapply mkdir_steps_keep; eauto. Qed.

Lemma unlinkSync_ok (fs fs' : Fs.store) (p : string) :
  Fs.unlinkSync fs p = Ok fs' -> fs' = delete (Fs.key p) fs.
Proof.
  unfold Fs.unlinkSync, Fs.fs_error.
  destruct (fs !! Fs.key p) as [[c|]|]; try discriminate.
  destruct (Path.ends_with_slash p); [discriminate|]. now intros [= <-].
Qed.

Lemma existsSync_false (fs : Fs.store) (p : string) :
  Fs.existsSync fs p = false ->
  fs !! Fs.key p = None
  \/ (Path.ends_with_slash p = true /\ exists c, fs !! Fs.key p = Some (Fs.File c)).
Proof.
  unfold Fs.existsSync, Fs.stat.
  destruct (fs !! Fs.key p) as [[c|]|]; try discriminate; [|now left].
  destruct (Path.ends_with_slash p); [|discriminate]. right. eauto.
Qed.

(** *** The handlers, by what their primitives leave as it was *)

Section Handlers.

Variable rt : Runtime.
Variable E : Type.
Variable host : Host E.

Variable P : Machine E -> Machine E -> Prop.
Hypothesis P_refl : forall m, P m m.
Hypothesis P_trans : forall a b c, P a b -> P b c -> P a c.
Hypothesis P_emit : forall event payload, preserves P (emit E event payload).
Hypothesis P_outside : forall A (call : E -> A * E), preserves P (outside E call).
Hypothesis P_outside_try :
  forall A (call : E -> outcome A * E), preserves P (outside_try E call).
Hypothesis P_connect : preserves P (modify (set_db E true)).

Ltac frame :=
  repeat first
    [ apply preserves_ret; assumption
    | apply preserves_throw; assumption
    | apply preserves_lift; assumption
    | apply preserves_gets; assumption
    | apply preserves_read; assumption
    | apply preserves_console_log; assumption
    | apply preserves_destructure; assumption
    | apply preserves_string_arg; assumption
    | apply preserves_is_select; assumption
    | apply P_emit | apply P_outside | apply P_outside_try | apply P_connect
    | apply (preserves_bind P P_trans); [|intros ?]
    | apply (preserves_try_catch P P_trans); [|intros ?]
    | match goal with
      | |- preserves _ (if ?x then _ else _) => destruct x
      | |- preserves _ (match ?x with _ => _ end) => destruct x
      end ].

Lemma preserves_shell_handler (command done failed rethrown result : string)
  (args : value) (projectId : string) :
  preserves P (shell_handler rt E host command done failed rethrown result args projectId).
Proof. unfold shell_handler. frame. Qed.

Lemma preserves_call_builtin (b : builtin) (args : value) :
  preserves P (call_builtin rt E b args).
Proof. unfold call_builtin. frame. Qed.

(** The handlers that do not work on the files. *)
Lemma preserves_other_handlers (key : string) (h : handler E) (args : value)
  (projectId : string) :
  assoc key (FUNCTION_HANDLERS rt E host) = Some h ->
  writes_files key = false ->
  String.eqb key "readFile" = false ->
  preserves P (h args projectId).
Proof.
  unfold FUNCTION_HANDLERS, writes_files. simpl. intros Hh Hw Hr.
  repeat match type of Hh with
         | (if String.eqb key ?k then _ else _) = _ =>
             destruct (String.eqb key k) eqn:?; [injection Hh as <-|]
         end; try discriminate.
  - unfold refreshUI. frame.
  - apply preserves_shell_handler.
  - apply preserves_shell_handler.
  - unfold stopBackendServer. frame.
  - apply preserves_shell_handler.
  - apply preserves_shell_handler.
  - unfold initSqliteDB. frame.
  - unfold runSqlQuery. frame.
  - unfold createChart. frame.
  - unfold renderTable. frame.
  - unfold displayLogs. frame.
Qed.

Lemma preserves_readFile (args : value) (projectId : string) :
  preserves P (readFile rt E host args projectId).
Proof. unfold readFile, existsSync. frame. Qed.

(** What the lookup in the registry finds, the three functions that write
    to the files left out. *)
Lemma preserves_call_other (key : string) (h : member E) (args : value)
  (projectId : string) :
  FUNCTION_HANDLERS_get rt E host key = Some h ->
  writes_files key = false ->
  preserves P (call rt E h args projectId).
Proof.
  unfold FUNCTION_HANDLERS_get. intros Hh Hw.
  destruct (assoc key (FUNCTION_HANDLERS rt E host)) as [f|] eqn:Hf.
  - injection Hh as <-. simpl.
    destruct (String.eqb key "readFile") eqn:Hr.
    + apply String.eqb_eq in Hr. subst key. simpl in Hf. injection Hf as <-.
      apply preserves_readFile.
    + now apply (preserves_other_handlers key).
  - destruct h as [f|b|]; simpl.
    + exfalso. clear -Hh. unfold Object_prototype in Hh. simpl in Hh.
      repeat match type of Hh with
             | (if ?c then _ else _) = _ => destruct c; [discriminate|]
             end. discriminate.
    + apply preserves_call_builtin.
    + frame.
Qed.

Hypothesis P_on_files : forall op, preserves P (on_files E op).

Lemma preserves_ensureProjectDir (projectId : string) :
  preserves P (ensureProjectDir E host projectId).
Proof. unfold ensureProjectDir, existsSync. frame. apply P_on_files. Qed.

Lemma preserves_createBackup (projectId filename : string) :
  preserves P (createBackup E host projectId filename).
Proof.
  unfold createBackup, existsSync.
  apply (preserves_bind P P_trans); [apply preserves_ensureProjectDir|]. intros _.
  frame; apply P_on_files.
Qed.

(** Whatever the lookup in the registry finds. *)
Lemma preserves_call (key : string) (h : member E) (args : value)
  (projectId : string) :
  FUNCTION_HANDLERS_get rt E host key = Some h ->
  preserves P (call rt E h args projectId).
Proof.
  intros Hh. destruct (writes_files key) eqn:Hw;
    [|now apply (preserves_call_other key)].
  unfold FUNCTION_HANDLERS_get in Hh. unfold writes_files in Hw.
  destruct (String.eqb key "writeFile") eqn:H1;
    [apply String.eqb_eq in H1; subst key; simpl in Hh; injection Hh as <-|].
  { simpl. unfold writeFile.
    frame; first [apply preserves_createBackup | apply P_on_files]. }
  destruct (String.eqb key "createFile") eqn:H2;
    [apply String.eqb_eq in H2; subst key; simpl in Hh; injection Hh as <-|].
  { simpl. unfold createFile, existsSync. frame; apply P_on_files. }
  destruct (String.eqb key "deleteFile") eqn:H3; [|discriminate].
  apply String.eqb_eq in H3; subst key; simpl in Hh; injection Hh as <-.
  simpl. unfold deleteFile, existsSync.
  frame; first [apply preserves_createBackup | apply P_on_files].
Qed.

End Handlers.

(** *** Three things no handler does *)

Section Never.

Variable rt : Runtime.
Variable E : Type.
Variable host : Host E.

Ltac primitive :=
  unfold preserves, more_events, still_connected, same_files,
    emit, outside, outside_try, on_files, modify;
  intros; simpl;
  repeat match goal with
         | |- context [let '(_, _) := ?c in _] => destruct c
         | |- context [match ?c with Ok _ => _ | Throw _ => _ end] => destruct c
         end;
  simpl; eauto using app_nil_r.

Lemma more_events_refl (m : Machine E) : more_events E m m.
Proof. exists []. now rewrite app_nil_r. Qed.

Lemma more_events_trans (a b c : Machine E) :
  more_events E a b -> more_events E b c -> more_events E a c.
Proof.
  intros [t1 H1] [t2 H2]. exists (t1 ++ t2). now rewrite H2, H1, app_assoc.
Qed.

Lemma call_effects (key : string) (h : member E) (args : value)
  (projectId : string) (m : Machine E) :
  FUNCTION_HANDLERS_get rt E host key = Some h ->
  let m' := snd (call rt E h args projectId m) in
  more_events E m m'
  /\ still_connected E m m'
  /\ (writes_files key = false -> files m' = files m).
Proof.
  intros Hh m'. subst m'. split; [|split].
  - apply (preserves_call rt E host (more_events E) more_events_refl more_events_trans)
      with (key := key); try exact Hh; solve [primitive].
  - apply (preserves_call rt E host (still_connected E)) with (key := key);
      try exact Hh; solve [primitive].
  - intros Hw.
    apply (preserves_call_other rt E host (same_files E)) with (key := key);
      try exact Hh; try exact Hw; solve [primitive | unfold same_files; congruence].
Qed.


End Never.

(** A step that leaves the state as it was. *)
Lemma bind_pure {S A B : Type} (c : M S A) (k : A -> M S B) (s : S) :
  preserves eq c ->
  bind c k s = match fst (c s) with
               | Ok a => k a s
               | Throw e => (Throw e, s)
               end.
Proof.
  intros H. unfold bind. specialize (H s).
  destruct (c s) as [[a|e] s']; simpl in *; now subst.
Qed.

Ltac is_pure :=
  first [ apply preserves_destructure | apply preserves_console_log
        | apply preserves_string_arg | apply preserves_gets
        | apply preserves_lift | apply preserves_read | apply preserves_ret ];
  first [ reflexivity | intros; congruence ].

Ltac pure_step name :=
  rewrite bind_pure by is_pure;
  match goal with
  | |- context [match fst (?c ?s) with _ => _ end] =>
      destruct (fst (c s)) as [name|] eqn:?
  end.

Ltac pure_step_as name H :=
  rewrite bind_pure by is_pure;
  match goal with
  | |- context [match fst (?c ?s) with _ => _ end] =>
      destruct (fst (c s)) as [name|] eqn:H
  end.

(** The outcome of a step that does not read the state. *)
Lemma destructure_run {S : Type} (args : value) (prop : string) (s : S) (v : value) :
  fst (destructure args prop s) = Ok v -> JS.get args prop = Ok v.
Proof. unfold destructure. destruct args; simpl; try discriminate; auto. Qed.

Lemma destructure_get {S : Type} (args : value) (prop : string) (s : S) (v : value) :
  JS.get args prop = Ok v -> destructure args prop s = (Ok v, s).
Proof.
  unfold destructure, lift. destruct args; simpl; try discriminate; now intros ->.
Qed.

Lemma string_arg_run {S : Type} (name : string) (v : value) (s : S) (t : string) :
  fst (string_arg name v s) = Ok t -> v = VStr t.
Proof. unfold string_arg. destruct v; simpl; try discriminate. now intros [= ->]. Qed.

Lemma console_log_anywhere {S S' : Type} (rt : Runtime) (vs : list value)
  (s : S) (s' : S') (u : unit) :
  fst (console_log rt vs s) = Ok u -> console_log rt vs s' = (Ok tt, s').
Proof.
  unfold console_log. induction vs as [|v vs IH]; simpl; [reflexivity|].
  unfold bind at 1 3, lift. destruct (JS.to_string rt v); simpl; [|discriminate].
  exact IH.
Qed.

Section FileHandlers.

Variable rt : Runtime.
Variable E : Type.
Variable host : Host E.

Abbreviation machine := (Machine E).

Lemma on_files_ok (op : Fs.store -> outcome Fs.store) (m m' : machine) (u : unit) :
  on_files E op m = (Ok u, m') ->
  op (files m) = Ok (files m')
  /\ emitted m' = emitted m /\ db m' = db m /\ ext m' = ext m.
Proof.
  unfold on_files. destruct (op (files m)) as [fs|e]; [|discriminate].
  intros [= _ <-]. simpl. auto.
Qed.

Lemma on_files_throw (op : Fs.store -> outcome Fs.store) (m m' : machine) (e : error) :
  on_files E op m = (Throw e, m') -> m' = m.
Proof.
  unfold on_files. destruct (op (files m)) as [fs|e']; [discriminate|].
  now intros [= _ <-].
Qed.

(** [createFile] only adds. *)
Lemma createFile_keeps_entries (args : value) (projectId : string) (m : machine) :
  keeps_entries E m (snd (createFile rt E host args projectId m)).
Proof.
  unfold keeps_entries, createFile.
  pure_step filename; [|reflexivity].
  pure_step data; [|reflexivity].
  pure_step u; [|reflexivity].
  pure_step name; [|reflexivity].
  destruct (negb _); [reflexivity|].
  pure_step present; [|reflexivity].
  destruct present; [reflexivity|].
  pure_step text; [|reflexivity].
  unfold bind at 1.
  destruct (on_files E _ m) as [[u'|e] m1] eqn:Hw.
  - apply on_files_ok in Hw as (Hw & _).
    apply put_file_ok in Hw as (Hfs & Hslash & Hk).
    unfold existsSync, gets in *. simpl in *.
    match goal with H : Ok _ = Ok false |- _ => injection H as Hex end.
    simpl. rewrite Hfs.
    apply existsSync_false in Hex as [Hnone | (Hs & c & Hc)].
    + now apply insert_subseteq.
    + congruence.
  - apply on_files_throw in Hw as ->. reflexivity.
Qed.

Abbreviation grows := (Effects.grows E).

Lemma grows_refl (m : machine) : grows m m.
Proof. unfold grows. auto. Qed.

Lemma grows_trans (a b c : machine) : grows a b -> grows b c -> grows a c.
Proof.
  unfold grows. intros (H1 & H2 & H3 & H4) (H5 & H6 & H7 & H8).
  repeat split; try congruence. now transitivity (files b).
Qed.

Lemma on_files_grows (op : Fs.store -> outcome Fs.store) :
  (forall fs fs', op fs = Ok fs' -> fs ⊆ fs') ->
  preserves grows (on_files E op).
Proof.
  intros H m. unfold on_files. destruct (op (files m)) as [fs|e] eqn:Hop; simpl.
  - unfold grows. simpl. auto.
  - apply grows_refl.
Qed.

Lemma ensureProjectDir_grows (projectId : string) :
  preserves grows (ensureProjectDir E host projectId).
Proof.
  unfold ensureProjectDir.
  apply (preserves_bind grows grows_trans); [apply preserves_gets, grows_refl|].
  intros present. destruct (negb present); [|apply preserves_ret, grows_refl].
  apply on_files_grows. intros fs fs'. apply mkdirSync_recursive_keeps.
Qed.

Lemma mkdir_backups_grows (present : bool) (backupsDir : string) :
  preserves grows
    (if negb present then on_files E (fun fs => Fs.mkdirSync fs backupsDir) else ret tt).
Proof.
  destruct (negb present); [|apply preserves_ret, grows_refl].
  apply on_files_grows. intros fs fs' H. apply mkdirSync_ok in H as (-> & Hn).
  now apply insert_subseteq.
Qed.

Lemma readFileSync_grows (fs fs' : Fs.store) (p c : string) :
  fs ⊆ fs' -> Fs.readFileSync fs p = Ok c -> Fs.readFileSync fs' p = Ok c.
Proof.
  unfold Fs.readFileSync, Fs.fs_error. intros Hsub.
  destruct (fs !! Fs.key p) as [[d|]|] eqn:Hk; try discriminate.
  rewrite (lookup_weaken _ _ _ _ Hk Hsub). auto.
Qed.

Lemma readFileSync_written (fs : Fs.store) (p c : string) :
  Path.ends_with_slash p = false ->
  Fs.readFileSync (<[Fs.key p := Fs.File c]> fs) p = Ok c.
Proof.
  intros H. unfold Fs.readFileSync. now rewrite lookup_insert_eq, H.
Qed.

(** What [createBackup] does to the machine, whatever its outcome: the
    files grow by directories, and then at most the copy is written. *)
Lemma createBackup_shape (projectId filename : string) (m : machine) :
  let '(o, m') := createBackup E host projectId filename m in
  exists m1,
    grows m m1
    /\ ((m' = m1
         /\ (forall u, o = Ok u ->
                       Fs.existsSync (files m1) (originalFile E host projectId filename)
                       = false))
        \/ (m' = set_ext E (snd (toISOString_now host (ext m))) m1
            /\ exists e, o = Throw e)
        \/ exists c,
             Fs.readFileSync (files m1) (originalFile E host projectId filename) = Ok c
             /\ Path.ends_with_slash (backupFile E host projectId filename m) = false
             /\ o = Ok tt
             /\ m' = set_ext E (snd (toISOString_now host (ext m)))
                       (set_files E
                          (<[Fs.key (backupFile E host projectId filename m)
                             := Fs.File c]> (files m1)) m1)).
Proof.
  unfold createBackup.
  pose proof (ensureProjectDir_grows projectId m) as H1.
  unfold bind at 1.
  destruct (ensureProjectDir E host projectId m) as [[u|e] m1]; simpl in H1;
    [|exists m1; split; [exact H1|]; left; split; [reflexivity|discriminate]].
  pure_step present;
    [|exists m1; split; [exact H1|]; left; split; [reflexivity|discriminate]].
  pose proof (mkdir_backups_grows present
                (Path.join [Path.join [PROJECTS_DIR E host; projectId]; ".backups"]) m1)
    as H2.
  unfold bind at 1.
  match goal with
  | |- context [(if negb present then ?a else ?b) m1] =>
      destruct ((if negb present then a else b) m1) as [[u'|e] m2] eqn:Hm2
  end; simpl in H2; pose proof (grows_trans _ _ _ H1 H2) as H12;
    [|exists m2; split; [exact H12|]; left; split; [reflexivity|discriminate]].
  pure_step original;
    [|exists m2; split; [exact H12|]; left; split; [reflexivity|discriminate]].
  destruct original;
    [|exists m2; split; [exact H12|]; left; split; [reflexivity|];
      intros _ _; unfold existsSync, gets, originalFile in *; simpl in *; congruence].
  unfold bind at 1, outside at 1.
  pose proof H12 as (_ & Hext & _). rewrite Hext.
  destruct (toISOString_now host (ext m)) as [iso e'] eqn:Hiso.
  unfold backupFile. rewrite Hiso. simpl fst. simpl snd.
  unfold on_files, Fs.copyFileSync. simpl files.
  fold (originalFile E host projectId filename).
  destruct (Fs.readFileSync (files m2) (originalFile E host projectId filename))
    as [c|err] eqn:Hread; simpl.
  - destruct (Fs.put_file "copyfile" (files m2) _ c) as [fs'|err] eqn:Hput; simpl.
    + exists m2. split; [exact H12|].
      right. right. apply put_file_ok in Hput as (-> & Hs & _). exists c.
      split; [first [exact Hread | reflexivity]|]. split; [exact Hs|]. split; reflexivity.
    + exists m2. split; [exact H12|]. right. left. eauto.
  - exists m2. split; [exact H12|]. right. left. eauto.
Qed.

(** X11.  When [createBackup] returns, the file it was called for, if there is
    one, has a copy in [.backups] with the same content; nothing that was
    there before is changed or removed, but for a copy made earlier under
    the same name; nothing is broadcast. *)
Theorem createBackup_keeps_a_copy (projectId filename : string) (m m' : machine)
  (c : string) :
  createBackup E host projectId filename m = (Ok tt, m') ->
  Fs.readFileSync (files m) (originalFile E host projectId filename) = Ok c ->
  Fs.readFileSync (files m') (backupFile E host projectId filename m) = Ok c
  /\ Fs.readFileSync (files m') (originalFile E host projectId filename) = Ok c
  /\ keeps_entries_but E [Fs.key (backupFile E host projectId filename m)] m m'
  /\ emitted m' = emitted m
  /\ db m' = db m.
Proof.
  intros Hc Hread.
  pose proof (createBackup_shape projectId filename m) as H. rewrite Hc in H.
  destruct H as (m1 & (Hsub & Hext & Hem & Hdb) & H).
  pose proof (readFileSync_grows _ _ _ _ Hsub Hread) as Hread1.
  destruct H as [(-> & Hno) | [(_ & e & He) | (c' & Hc' & Hs & _ & ->)]].
  - specialize (Hno tt eq_refl). exfalso. revert Hno Hread1.
    unfold Fs.existsSync, Fs.stat, Fs.readFileSync, Fs.fs_error.
    destruct (files m1 !! _) as [[d|]|]; try discriminate.
    destruct (Path.ends_with_slash _); discriminate.
  - discriminate.
  - assert (c' = c) as -> by congruence. simpl. split; [|split; [|split]].
    + now apply readFileSync_written.
    + revert Hread1. unfold Fs.readFileSync, Fs.fs_error.
      destruct (decide (Fs.key (backupFile E host projectId filename m)
                        = Fs.key (originalFile E host projectId filename))) as [Heq|Hne].
      * rewrite Heq, lookup_insert_eq.
        destruct (files m1 !! _) as [[d|]|]; try discriminate.
        destruct (Path.ends_with_slash (originalFile E host projectId filename));
          [discriminate | reflexivity].
      * now rewrite lookup_insert_ne.
    + intros p n Hp Hn. simpl.
      rewrite lookup_insert_ne by (simpl in Hp; intuition).
      now apply (lookup_weaken _ _ _ _ Hn).
    + auto.
Qed.




(** [readFile] on the arguments of a call of a file function that got
    past the validation. *)
Lemma readFile_after (args : value) (projectId name : string) (m0 m : machine)
  (u : unit) :
  JS.get args "filename" = Ok (VStr name) ->
  fst (console_log (S := machine) rt [VStr name] m0) = Ok u ->
  validateFilePath E host projectId name = true ->
  readFile rt E host args projectId m
  = if Fs.existsSync (files m) (filePath E host projectId name)
    then (match Fs.readFileSync (files m) (filePath E host projectId name) with
          | Ok text => Ok (VStr text)
          | Throw e => Throw e
          end, m)
    else (Throw (Error "File does not exist"), m).
Proof.
  intros Hf Hlog Hv. unfold readFile.
  rewrite (bind_pure (destructure _ _)) by is_pure.
  rewrite (destructure_get _ _ _ _ Hf). cbn [fst].
  rewrite (bind_pure (console_log _ _)) by is_pure.
  rewrite (console_log_anywhere rt _ m0 _ u Hlog). cbn [fst].
  unfold string_arg at 1. rewrite (bind_pure (ret _)) by is_pure. cbn [fst ret].
  rewrite Hv. cbn [negb].
  unfold bind, existsSync, gets, ret, throw. cbn [files fst snd].
  fold (filePath E host projectId name).
  destruct (Fs.existsSync (files m) (filePath E host projectId name)); cbn [negb];
    [|reflexivity].
  now destruct (Fs.readFileSync (files m) (filePath E host projectId name)).
Qed.


Lemma existsSync_deleted (fs : Fs.store) (p : string) :
  Fs.existsSync (delete (Fs.key p) fs) p = false.
Proof. unfold Fs.existsSync, Fs.stat. now rewrite lookup_delete_eq. Qed.

(** X9.  What [deleteFile] has deleted is no longer there. *)
Theorem deleteFile_then_readFile (args : value) (projectId : string) (m m' : machine)
  (v : value) :
  deleteFile rt E host args projectId m = (Ok v, m') ->
  exists name,
    JS.get args "filename" = Ok (VStr name)
    /\ v = VStr ("File " +:+ name +:+ " deleted successfully.")
    /\ Fs.existsSync (files m) (filePath E host projectId name) = true
    /\ Fs.existsSync (files m') (filePath E host projectId name) = false
    /\ readFile rt E host args projectId m' = (Throw (Error "File does not exist"), m')
    /\ last (emitted m')
       = Some ("metaAction",
               metaAction "refresh_component" "fileList"
                 (obj [("projectId", VStr projectId)])).
Proof.
  unfold deleteFile.
  pure_step_as filename Hf; [|discriminate].
  pure_step_as u Hlog; [|discriminate].
  pure_step_as name Hn; [|discriminate].
  apply string_arg_run in Hn as ->. apply destructure_run in Hf.
  destruct (validateFilePath E host projectId name) eqn:Hv; [|discriminate].
  cbn [negb].
  pure_step_as present Hp; [|discriminate].
  destruct present; [|discriminate]. cbn [negb].
  unfold bind at 1.
  destruct (createBackup E host projectId name m) as [[u1|e] m1]; [|discriminate].
  unfold bind at 1.
  destruct (on_files E _ m1) as [[u2|e] m2] eqn:Hw; [|discriminate].
  apply on_files_ok in Hw as (Hw & _).
  apply unlinkSync_ok in Hw.
  unfold bind, emit, modify, ret. intros [= <- <-].
  assert (Hgone : Fs.existsSync (files m2) (filePath E host projectId name) = false)
    by (unfold filePath; rewrite Hw; apply existsSync_deleted).
  exists name. repeat split; try assumption.
  - unfold existsSync, gets in Hp. unfold filePath. simpl in Hp. congruence.
  - rewrite (readFile_after _ _ _ m _ u Hf Hlog Hv). cbn [files]. now rewrite Hgone.
  - simpl. apply last_snoc.
Qed.

Lemma createBackup_touches (projectId filename : string) (m : machine) :
  keeps_entries_but E [Fs.key (backupFile E host projectId filename m)] m
    (snd (createBackup E host projectId filename m)).
Proof.
  pose proof (createBackup_shape projectId filename m) as H.
  destruct (createBackup E host projectId filename m) as [o m'].
  destruct H as (m1 & (Hsub & _) & H). simpl.
  intros p n Hp Hn. pose proof (lookup_weaken _ _ _ _ Hn Hsub) as H1.
  destruct H as [(-> & _) | [(-> & _) | (c & _ & _ & _ & ->)]]; simpl; try exact H1.
  rewrite lookup_insert_ne; [exact H1|]. simpl in Hp. intuition.
Qed.

Lemma keeps_entries_but_more (keys keys' : list string) (a b : machine) :
  incl keys keys' -> keeps_entries_but E keys a b -> keeps_entries_but E keys' a b.
Proof. intros Hi H p n Hp. apply H. intros Hin. apply Hp, Hi, Hin. Qed.

Lemma keeps_entries_but_trans (keys : list string) (a b c : machine) :
  keeps_entries_but E keys a b -> keeps_entries_but E keys b c ->
  keeps_entries_but E keys a c.
Proof. intros H1 H2 p n Hp Hn. apply H2; [exact Hp|]. now apply H1. Qed.

Lemma on_files_touches (op : Fs.store -> outcome Fs.store) (keys : list string) :
  (forall fs fs', op fs = Ok fs' ->
                  forall p n, ~ In p keys -> fs !! p = Some n -> fs' !! p = Some n) ->
  preserves (keeps_entries_but E keys) (on_files E op).
Proof.
  intros H m. unfold on_files. destruct (op (files m)) as [fs|e] eqn:Hop; simpl.
  - intros p n Hp Hn. simpl. eapply H; eauto.
  - intros p n _ Hn. exact Hn.
Qed.

(** X10.  The file functions touch their file and its copy only: whatever the
    outcome, every other entry of the store is left as it was; [readFile]
    changes nothing at all. *)
Theorem file_functions_touch_their_file_only (args : value) (projectId name : string)
  (m : machine) :
  JS.get args "filename" = Ok (VStr name) ->
  let keys := [ Fs.key (filePath E host projectId name);
                Fs.key (backupFile E host projectId name m) ] in
  keeps_entries_but E keys m (snd (writeFile rt E host args projectId m))
  /\ keeps_entries_but E keys m (snd (deleteFile rt E host args projectId m))
  /\ keeps_entries E m (snd (createFile rt E host args projectId m))
  /\ snd (readFile rt E host args projectId m) = m.
Proof.
  intros Hf keys.
  assert (Hrefl : forall a, keeps_entries_but E keys a a) by (intros a p n _ H; exact H).
  assert (Hb : keeps_entries_but E keys m
                 (snd (createBackup E host projectId name m))).
  { eapply keeps_entries_but_more; [|apply createBackup_touches].
    intros k [<-|[]]. right. now left. }
  split; [|split; [|split]].
  - unfold writeFile.
    pure_step_as filename Hf'; [|apply Hrefl].
    apply destructure_run in Hf'. assert (filename = VStr name) as -> by congruence.
    pure_step data; [|apply Hrefl].
    pure_step u; [|apply Hrefl].
    pure_step_as name' Hn; [|apply Hrefl]. apply string_arg_run in Hn as [= <-].
    destruct (negb _); [apply Hrefl|].
    unfold bind at 1.
    destruct (createBackup E host projectId name m) as [[u1|e] m1]; simpl in Hb;
      [|exact Hb].
    pure_step text; [|exact Hb].
    unfold bind at 1.
    pose proof (on_files_touches
                  (fun fs => Fs.writeFileSync fs
                               (Path.join [PROJECTS_DIR E host; projectId; name]) text)
                  keys) as Hw.
    specialize (Hw ltac:(intros fs fs' H p n Hp Hn;
                         apply put_file_ok in H as (-> & _);
                         rewrite lookup_insert_ne; [exact Hn|];
                         intros <-; apply Hp; now left) m1).
    destruct (on_files E _ m1) as [[u2|e] m2]; simpl in Hw;
      (eapply keeps_entries_but_trans; [exact Hb|]); exact Hw.
  - unfold deleteFile.
    pure_step_as filename Hf'; [|apply Hrefl].
    apply destructure_run in Hf'. assert (filename = VStr name) as -> by congruence.
    pure_step u; [|apply Hrefl].
    pure_step_as name' Hn; [|apply Hrefl]. apply string_arg_run in Hn as [= <-].
    destruct (negb _); [apply Hrefl|].
    pure_step present; [|apply Hrefl].
    destruct (negb present); [apply Hrefl|].
    unfold bind at 1.
    destruct (createBackup E host projectId name m) as [[u1|e] m1]; simpl in Hb;
      [|exact Hb].
    unfold bind at 1.
    pose proof (on_files_touches
                  (fun fs => Fs.unlinkSync fs
                               (Path.join [PROJECTS_DIR E host; projectId; name]))
                  keys) as Hw.
    specialize (Hw ltac:(intros fs fs' H p n Hp Hn;
                         apply unlinkSync_ok in H as ->;
                         rewrite lookup_delete_ne; [exact Hn|];
                         intros <-; apply Hp; now left) m1).
    destruct (on_files E _ m1) as [[u2|e] m2]; simpl in Hw;
      (eapply keeps_entries_but_trans; [exact Hb|]); exact Hw.
  - apply createFile_keeps_entries.
  - symmetry. apply (preserves_readFile rt E host eq); first [reflexivity | intros; congruence | idtac].
    all: intros; try reflexivity.
Qed.

(** *** The functions that work outside the process *)


(** X14.  Before the database is connected [runSqlQuery] throws and touches
    nothing, the database least of all; [initSqliteDB], when it returns,
    has connected it. *)
Theorem runSqlQuery_needs_initSqliteDB (args : value) (projectId : string)
  (m : machine) :
  (db m = false ->
   snd (runSqlQuery rt E host args projectId m) = m
   /\ (forall props,
         args = VObj props ->
         fst (runSqlQuery rt E host args projectId m)
         = Throw (Error "Database not initialized. Call initSqliteDB first.")))
  /\ (forall v m', initSqliteDB rt E host args projectId m = (Ok v, m') -> db m' = true).
Proof.
  split.
  - intros Hdb. unfold runSqlQuery. split.
    + pure_step query; [|reflexivity].
      pure_step connected; [|reflexivity].
      unfold gets in *. simpl in *.
      assert (connected = false) as -> by congruence. reflexivity.
    + intros props ->. unfold bind, destructure, lift, gets, throw. simpl.
      destruct (JS.own "query" props); simpl; now rewrite Hdb.
  - intros v m'. unfold initSqliteDB, try_catch, bind, outside_try, emit, modify, ret, throw.
    destruct (sqlite_open host _ (ext m)) as [[out|e] e']; simpl; [|discriminate].
    now intros [= _ <-].
Qed.

(** X15.  [createChart] broadcasts the chart before it looks at the chart's
    title: called without a [config], it throws, and the chart has been
    broadcast all the same. *)
Theorem createChart_broadcasts_first (props : list (string * value))
  (projectId : string) (m : machine) :
  let '(o, m') := createChart rt E (VObj props) projectId m in
  let config := match JS.own "config" props with Some v => v | None => VUndefined end in
  let type := match JS.own "type" props with Some v => v | None => VUndefined end in
  emitted m'
  = emitted m
    ++ [("metaAction",
         metaAction "create_chart" "dashboard" (obj [("config", config); ("type", type)]))]
  /\ files m' = files m
  /\ (JS.own "config" props = None \/ JS.own "config" props = Some VNull ->
      exists e, o = Throw e).
Proof.
  unfold createChart, bind, destructure, lift, emit, modify, ret. simpl.
  destruct (JS.own "config" props) as [config|] eqn:Hc;
    destruct (JS.own "type" props) as [type|] eqn:Ht; simpl.
  all: try (destruct (JS.get config "title") as [title|e] eqn:Hg; simpl;
            [destruct (JS.truthy rt title); simpl;
             [destruct (JS.to_string rt title); simpl|]|]).
  all: repeat split; try reflexivity.
  all: intros [H|H]; try discriminate; try (injection H as ->); try discriminate; eauto.
Qed.

End FileHandlers.

(** *** A whole run, by what its steps leave as it was *)

Section RunFrame.

Variable rt : Runtime.
Variable E : Type.
Variable host : Host E.

Local Open Scope js_scope.

Abbreviation Run := (Backend.Run E).

Variable P : Run -> Run -> Prop.
Hypothesis P_refl : forall r, P r r.
Hypothesis P_trans : forall a b c, P a b -> P b c -> P a c.
Hypothesis P_push : forall msg, preserves P (push E msg).
Hypothesis P_last : forall names, preserves P (set_lastFunctionCalls E names).
Hypothesis P_failures : forall n, preserves P (set_consecutiveFailures E n).
Hypothesis P_ask : preserves P (ask_model E host).
Hypothesis P_emit : forall a, preserves P (in_machine E (emit E "metaAction" a)).
Hypothesis P_call :
  forall key h args projectId,
    FUNCTION_HANDLERS_get rt E host key = Some h ->
    preserves P (note_call E key ;; in_machine E (call rt E h args projectId)).

Ltac frame :=
  repeat first
    [ apply preserves_ret; assumption
    | apply preserves_throw; assumption
    | apply preserves_lift; assumption
    | apply preserves_gets; assumption
    | apply preserves_console_log; assumption
    | apply P_push | apply P_last | apply P_failures | apply P_ask | apply P_emit
    | apply (preserves_bind P P_trans); [|intros ?]
    | apply (preserves_try_catch P P_trans); [|intros ?]
    | apply (preserves_for_each P P_refl P_trans); intros ?
    | match goal with
      | |- preserves _ (if ?x then _ else _) => destruct x
      | |- preserves _ (match ?x with _ => _ end) => destruct x
      end ].

Lemma run_emit_meta_actions (parsedResponse : value) :
  preserves P (emit_meta_actions rt E parsedResponse).
Proof. unfold emit_meta_actions. frame. Qed.

Lemma bind_assoc {S A B C : Type} (a : M S A) (b : M S B) (k : B -> M S C) (s : S) :
  bind a (fun _ => bind b k) s = bind (bind a (fun _ => b)) k s.
Proof. unfold bind. destruct (a s) as [[x|e] s1]; reflexivity. Qed.

Lemma run_call_function (projectId : string) (b : Batch) (funcCall : value) :
  preserves P (call_function rt E host projectId b funcCall).
Proof.
  unfold call_function.
  apply (preserves_bind P P_trans); [apply preserves_lift, P_refl|]. intros name.
  apply (preserves_bind P P_trans); [apply preserves_lift, P_refl|]. intros key.
  destruct (FUNCTION_HANDLERS_get rt E host key) as [h|] eqn:Hh;
    [|apply preserves_ret, P_refl].
  apply (preserves_try_catch P P_trans); [|intros ?; apply preserves_ret, P_refl].
  apply (preserves_bind P P_trans); [apply preserves_lift, P_refl|]. intros args.
  intros r. rewrite bind_assoc.
  revert r. apply (preserves_bind P P_trans); [now apply (P_call key)|].
  intros result. apply preserves_ret, P_refl.
Qed.

Lemma run_call_functions (projectId : string) (calls : list value) (b : Batch) :
  preserves P (call_functions rt E host projectId b calls).
Proof.
  revert b. induction calls as [|c calls IH]; intros b; simpl.
  - apply preserves_ret, P_refl.
  - apply (preserves_bind P P_trans); [apply run_call_function | intros b'; apply IH].
Qed.

Lemma run_conclude (parsedResponse : value) (b : Batch) :
  preserves P (conclude rt E parsedResponse b).
Proof.
  unfold conclude, report, settle, detect_repeat.
  frame; apply run_emit_meta_actions.
Qed.

Lemma run_act (projectId : string) (parsedResponse : value) :
  preserves P (act rt E host projectId parsedResponse).
Proof.
  unfold act, run_calls.
  apply (preserves_bind P P_trans); [apply preserves_lift, P_refl|]. intros function_calls.
  destruct (_ || _).
  - apply (preserves_bind P P_trans); [apply run_emit_meta_actions|].
    intros _. apply preserves_ret, P_refl.
  - apply (preserves_bind P P_trans); [|intros b; apply run_conclude].
    apply (preserves_bind P P_trans); [apply preserves_lift, P_refl|].
    intros calls. apply run_call_functions.
Qed.

Lemma run_attempt (projectId : string) : preserves P (attempt rt E host projectId).
Proof.
  unfold attempt, respond.
  apply (preserves_bind P P_trans); [apply P_ask|]. intros reply.
  destruct (option_map Str.trim reply) as [gptReply|]; [|apply preserves_ret, P_refl].
  destruct (String.eqb gptReply ""); [apply preserves_ret, P_refl|].
  destruct (negb _).
  - apply (preserves_bind P P_trans); [apply P_push|].
    intros _. apply preserves_ret, P_refl.
  - apply (preserves_bind P P_trans); [apply preserves_lift, P_refl|]. intros explanation.
    apply (preserves_bind P P_trans); [apply P_push|]. intros _. apply run_act.
Qed.

Lemma run_pass (projectId : string) (r : Run) :
  P r (snd (Backend.pass rt E host projectId r)).
Proof.
  unfold Backend.pass. pose proof (run_attempt projectId r) as H.
  destruct (attempt rt E host projectId r) as [[c|e] r']; simpl in *; [exact H|].
  apply (P_trans _ _ _ H). apply P_push.
Qed.

Lemma run_while_loop (budget : nat) (projectId : string) (i : nat) (r : Run) :
  P r (snd (Backend.while_loop rt E host budget projectId i r)).
Proof.
  revert i r. induction budget as [|budget IH]; intros i r; simpl; [apply P_refl|].
  destruct (i <? MAX_ITERATIONS); [|apply P_refl].
  pose proof (run_pass projectId r) as H.
  destruct (Backend.pass rt E host projectId r) as [[|] r']; simpl in H; [exact H|].
  apply (P_trans _ _ _ H). apply IH.
Qed.

Lemma run_orchestrateTasks (seed : list Message) (projectId : string) (m : Machine E) :
  P (start E seed m) (orchestrateTasks rt E host seed projectId m).
Proof.
  unfold orchestrateTasks.
  pose proof (run_while_loop MAX_ITERATIONS projectId 0 (start E seed m)) as H.
  destruct (Backend.while_loop rt E host MAX_ITERATIONS projectId 0 (start E seed m))
    as [i r]. simpl in H. unfold finish.
  destruct (i =? MAX_ITERATIONS); [|exact H].
  apply (P_trans _ _ _ H). apply P_push.
Qed.

End RunFrame.

End EffectFacts.

(** ** What a run never does *)

Module RunProperties.

Import Backend Effects EffectFacts.

Section WithHost.

Variable rt : Runtime.
Variable E : Type.
Variable host : Host E.

Local Open Scope js_scope.

Abbreviation Run := (Backend.Run E).

(** One call of what the registry finds, as the loop makes it. *)
Lemma noted_call (key : string) (h : member E) (args : value) (projectId : string)
  (r : Run) :
  let r' := snd ((note_call E key ;; in_machine E (call rt E h args projectId)) r) in
  machine_of E r' = snd (call rt E h args projectId (machine_of E r))
  /\ called E r' = called E r ++ [key]
  /\ messages E r' = messages E r.
Proof.
  unfold bind, note_call, modify, in_machine. simpl.
  destruct (call rt E h args projectId (machine_of E r)) as [[v|e] m']; simpl; auto.
Qed.

Lemma extends_refl (r : Run) : extends E r r.
Proof. exists []. now rewrite app_nil_r. Qed.

Lemma extends_trans (a b c : Run) : extends E a b -> extends E b c -> extends E a c.
Proof. intros [t1 H1] [t2 H2]. exists (t1 ++ t2). now rewrite H2, H1, app_assoc. Qed.

Ltac primitive :=
  unfold preserves, of_machine, extends, more_events, still_connected,
    files_follow_calls, push, set_lastFunctionCalls, set_consecutiveFailures,
    ask_model, in_machine, emit, modify;
  intros; simpl;
  repeat match goal with
         | |- context [let '(_, _) := ?c in _] => destruct c
         end;
  simpl;
  first [ now exists [] | now eexists | now (exists []; rewrite app_nil_r) | auto ].

Lemma transcript_extends_seed (seed : list Message) (projectId : string)
  (m : Machine E) :
  exists appended,
    messages E (orchestrateTasks rt E host seed projectId m) = seed ++ appended.
Proof.
  apply (run_orchestrateTasks rt E host (extends E) extends_refl extends_trans);
    try solve [primitive].
  intros key h args pid Hh r.
  destruct (noted_call key h args pid r) as (_ & _ & Hm).
  exists []. now rewrite app_nil_r.
Qed.

(** X1.  The transcript and the broadcasts of a run only grow: the messages
    returned are the seed followed by what the run appended, what had
    been broadcast before the run is still there, in front of what the
    run broadcast; and a database that was connected stays connected. *)
Theorem run_only_appends (seed : list Message) (projectId : string) (m : Machine E) :
  let final := orchestrateTasks rt E host seed projectId m in
  (exists appended, messages E final = seed ++ appended)
  /\ (exists broadcast, emitted (machine_of E final) = emitted m ++ broadcast)
  /\ (db m = true -> db (machine_of E final) = true).
Proof.
  intros final. subst final. split; [|split].
  - apply transcript_extends_seed.
  - apply (run_orchestrateTasks rt E host (of_machine E (more_events E))
             (fun r => more_events_refl E _)
             (fun a b c => more_events_trans E _ _ _));
      try solve [primitive].
    intros key h args pid Hh r.
    destruct (noted_call key h args pid r) as (Hm & _ & _).
    unfold of_machine. rewrite Hm. now apply (call_effects rt E host key).
  - apply (run_orchestrateTasks rt E host (of_machine E (still_connected E))
             (fun r H => H) (fun a b c H1 H2 H => H2 (H1 H)));
      try solve [primitive].
    intros key h args pid Hh r.
    destruct (noted_call key h args pid r) as (Hm & _ & _).
    unfold of_machine. rewrite Hm. now apply (call_effects rt E host key).
Qed.




(** X3.  A reply with no content, or with nothing but white space, ends the
    run at once and leaves no trace: nothing is appended to the
    transcript, no function is called, nothing is broadcast or written. *)
Theorem empty_reply_ends_run (k : nat) (seed : list Message) (projectId : string)
  (m : Machine E) (rk : Run) :
  k < MAX_ITERATIONS ->
  at_pass rt E host k projectId (start E seed m) = Some rk ->
  (model_reply E host rk = Ok None
   \/ exists reply, model_reply E host rk = Ok (Some reply) /\ Str.trim reply = "") ->
  let final := orchestrateTasks rt E host seed projectId m in
  messages E final = messages E rk
  /\ modelCalls E final = S k
  /\ called E final = called E rk
  /\ emitted (machine_of E final) = emitted (machine_of E rk)
  /\ files (machine_of E final) = files (machine_of E rk).
Proof.
  intros Hk Hat Hreply final. subst final.
  assert (Hpass : Backend.pass rt E host projectId rk = (Break, asked E host rk)).
  { unfold Backend.pass, attempt, bind, asked, model_reply in *. unfold ask_model in *.
    destruct (createChatCompletion host (messages E rk) (ext (machine_of E rk)))
      as [o e']. simpl in Hreply.
    destruct Hreply as [-> | (reply & -> & Ht)]; simpl; [reflexivity|].
    now rewrite Ht. }
  rewrite (LoopFacts.orchestrateTasks_ends rt E host k seed projectId m rk _ Hk Hat Hpass).
  destruct (LoopFacts.asked_fields E host rk) as (Hm & Hc & _ & _ & Hn & Hf & He & _).
  pose proof (LoopFacts.at_pass_modelCalls rt E host _ _ _ _ Hat) as Hcalls.
  simpl in Hcalls. rewrite Hm, Hc, Hn, Hf, He, Hcalls. repeat split.
Qed.

(** X4.  The calls of a pass are reported to the model one by one: the pass
    appends the explanation, then one system message for each proposed
    call, in the order of the calls, and after these at most the advice
    of the loop. *)
Theorem calls_are_reported_in_order (k : nat) (seed : list Message)
  (projectId : string) (m : Machine E) (rk : Run) (parsedResponse : value)
  (b : Batch) (r2 : Run) (texts : list string) :
  at_pass rt E host k projectId (start E seed m) = Some rk ->
  executes rt E host projectId rk parsedResponse b r2 ->
  report_texts rt (functionResults b) = Some texts ->
  (exists calls,
     function_calls_of parsedResponse = Some calls
     /\ map function_of (functionResults b) = map name_of calls
     /\ length texts = length calls)
  /\ exists advice,
       messages E (snd (Backend.pass rt E host projectId rk))
       = messages E rk
         ++ {| role := Assistant; content := explanation_of parsedResponse |}
            :: map system_message texts ++ advice
       /\ length advice <= 2.
Proof.
  intros Hat Hx Ht.
  pose proof (LoopFacts.at_pass_sound rt E host _ _ _ _
                (LoopFacts.start_sound rt E seed m) Hat) as Hs.
  destruct (LoopFacts.executes_ready rt E host _ _ _ _ _ Hs Hx)
    as (acts & s1 & s2 & Hm & H1 & H2).
  destruct (LoopFacts.executes_locals rt E host _ _ _ _ _ Hx) as (_ & _ & Hmsgs & _).
  split.
  - destruct Hx as (_ & _ & c & calls & Hf & Hcalls).
    exists (c :: calls). split; [exact Hf|].
    destruct (LoopFacts.call_functions_add rt E host _ _ _ _ _ _ Hcalls)
      as (_ & results & Hr & Hfun & _).
    simpl in Hr. subst results. split; [exact Hfun|].
    assert (Hlen : forall rs ts, report_texts rt rs = Some ts -> length ts = length rs).
    { induction rs as [|x rs IH]; intros ts; simpl.
      - now intros [= <-].
      - destruct (report_text rt x); [|discriminate].
        destruct (report_texts rt rs) as [ts'|]; [|discriminate].
        intros [= <-]. simpl. f_equal. now apply IH. }
    rewrite (Hlen _ _ Ht), <- (length_map function_of), Hfun. apply length_map.
  - rewrite (LoopFacts.pass_executes rt E host _ _ _ _ _ _ _ _ _ Hx Ht Hm H1 H2).
    unfold third_failure, settled_run, compared_run.
    destruct (allSucceeded b); cbn [negb andb];
      repeat match goal with
             | |- context [if ?c then _ else _] => destruct c
             end;
      cbn [snd fst messages with_appended broadcast set_machine
           set_lastFunctionCalls set_consecutiveFailures modify];
      rewrite Hmsgs, <- ?app_assoc; cbn [app];
      first [ eexists; split; [reflexivity|simpl; lia]
            | exists []; rewrite app_nil_r; split; [reflexivity|simpl; lia] ].
Qed.

End WithHost.

End RunProperties.

(** ** Paths *)

Module PathFacts.

Import Effects Segments StrFacts.

Lemma append_nil_r (s : string) : s +:+ "" = s.
Proof. induction s as [|c s IH]; [reflexivity|]. now rewrite <- IH at 2. Qed.

Lemma append_cons (c : ascii) (a b : string) : String c a +:+ b = String c (a +:+ b).
Proof. reflexivity. Qed.

(** *** Splitting at the slashes *)

Lemma split_from_app (cur : list ascii) (a b : string) :
  Path.split_from cur (a +:+ String "/" b)
  = Path.split_from cur a ++ Path.split_from [] b.
Proof.
  revert cur. induction a as [|c a IH]; intros cur.
  - reflexivity.
  - rewrite append_cons. simpl.
    destruct (Str.eqb_char c "/"); [now rewrite IH|apply IH].
Qed.

Lemma segments_app (a b : string) :
  Path.segments (a +:+ "/" +:+ b) = Path.segments a ++ Path.segments b.
Proof. apply split_from_app. Qed.

Lemma split_from_plain (cur : list ascii) (a : string) :
  Str.occurs "/" a = false ->
  Path.split_from cur a = [Str.of_chars (rev cur) +:+ a].
Proof.
  revert cur. induction a as [|c a IH]; intros cur H; simpl in *.
  - now rewrite append_nil_r.
  - apply orb_false_iff in H as [Hc Ha].
    assert (Str.eqb_char c "/" = false) as ->.
    { destruct (Str.eqb_char c "/") eqn:E; [|reflexivity].
      apply eqb_char_true in E. subst c. now rewrite eqb_char_refl in Hc. }
    rewrite (IH _ Ha). simpl. rewrite of_chars_app.
    now rewrite ExtractFacts.append_assoc.
Qed.

Lemma segments_plain (a : string) : Str.occurs "/" a = false -> Path.segments a = [a].
Proof. intros H. unfold Path.segments. now rewrite split_from_plain. Qed.

Lemma plain_spec (seg : string) :
  plain seg = true ->
  seg <> "" /\ seg <> "." /\ seg <> ".." /\ Str.occurs "/" seg = false.
Proof.
  unfold plain. rewrite !andb_true_iff, !negb_true_iff.
  intros [[[H1 H2] H3] H4]. rewrite !String.eqb_neq in *. auto.
Qed.

Lemma segments_join (l : list string) :
  l <> [] -> forallb plain l = true -> Path.segments (Path.join_segments l) = l.
Proof.
  induction l as [|x [|y l] IH]; intros Hne Hl; [congruence| |].
  - simpl in *. rewrite andb_true_r in Hl. apply plain_spec in Hl as (_ & _ & _ & H).
    now apply segments_plain.
  - change (Path.join_segments (x :: y :: l))
      with (x +:+ "/" +:+ Path.join_segments (y :: l)).
    rewrite segments_app. simpl in Hl. apply andb_true_iff in Hl as [Hx Hl].
    rewrite IH by (try discriminate; exact Hl).
    apply plain_spec in Hx as (_ & _ & _ & H). now rewrite (segments_plain _ H).
Qed.

(** *** The stack *)

Lemma step_empty (kept : list string) : Path.normalize_step false kept "" = kept.
Proof. reflexivity. Qed.

Lemma step_plain (kept : list string) (seg : string) :
  plain seg = true -> Path.normalize_step false kept seg = seg :: kept.
Proof.
  intros (H1 & H2 & H3 & _)%plain_spec. unfold Path.normalize_step.
  apply String.eqb_neq in H1, H2, H3. now rewrite H1, H2, H3.
Qed.

Lemma fold_plain (l kept : list string) :
  forallb plain l = true ->
  fold_left (Path.normalize_step false) l kept = rev l ++ kept.
Proof.
  revert kept. induction l as [|x l IH]; intros kept H; simpl in *; [reflexivity|].
  apply andb_true_iff in H as [Hx Hl].
  rewrite (step_plain _ _ Hx), (IH _ Hl), <- app_assoc. reflexivity.
Qed.

Lemma occurs_of_chars (l : list ascii) :
  Forall (fun c => c <> "/"%char) l -> Str.occurs "/" (Str.of_chars l) = false.
Proof.
  induction 1 as [|d l Hd _ IH]; simpl; [reflexivity|].
  rewrite IH, orb_false_r.
  destruct (Str.eqb_char "/" d) eqn:E; [|reflexivity].
  apply eqb_char_true in E. congruence.
Qed.

Lemma split_from_no_slash (cur : list ascii) (s : string) :
  Forall (fun c => c <> "/"%char) cur ->
  Forall (fun seg => Str.occurs "/" seg = false) (Path.split_from cur s).
Proof.
  revert cur. induction s as [|c s IH]; intros cur H; simpl.
  - constructor; [|constructor]. apply occurs_of_chars. now apply Forall_rev.
  - destruct (Str.eqb_char c "/") eqn:E.
    + constructor; [|apply IH; constructor].
      apply occurs_of_chars. now apply Forall_rev.
    + apply IH. constructor; [|exact H].
      intros ->. now rewrite eqb_char_refl in E.
Qed.

Lemma segments_no_slash (s : string) :
  Forall (fun seg => Str.occurs "/" seg = false) (Path.segments s).
Proof. apply split_from_no_slash. constructor. Qed.

(** What the steps keep is plain. *)
Lemma step_keeps_plain (kept : list string) (seg : string) :
  forallb plain kept = true ->
  Str.occurs "/" seg = false ->
  forallb plain (Path.normalize_step false kept seg) = true.
Proof.
  intros Hk Hs. unfold Path.normalize_step.
  destruct (String.eqb seg "") eqn:E1; [exact Hk|].
  destruct (String.eqb seg ".") eqn:E2; [exact Hk|]. cbn [orb].
  destruct (String.eqb seg "..") eqn:E3.
  - destruct kept as [|top rest]; [reflexivity|].
    destruct (String.eqb top ".."); [exact Hk|].
    simpl in Hk. now apply andb_true_iff in Hk as [_ Hk].
  - simpl. rewrite Hk, andb_true_r. unfold plain. now rewrite E1, E2, E3, Hs.
Qed.

Lemma fold_keeps_plain (segs kept : list string) :
  forallb plain kept = true ->
  Forall (fun seg => Str.occurs "/" seg = false) segs ->
  forallb plain (fold_left (Path.normalize_step false) segs kept) = true.
Proof.
  intros Hk Hs. revert kept Hk. induction Hs as [|seg segs Hseg _ IH]; intros kept Hk.
  - exact Hk.
  - simpl. apply IH. now apply step_keeps_plain.
Qed.

Lemma stack_plain (p : string) : forallb plain (stack p) = true.
Proof. apply fold_keeps_plain; [reflexivity|apply segments_no_slash]. Qed.

Lemma stack_app (a b : string) :
  stack (a +:+ "/" +:+ b)
  = fold_left (Path.normalize_step false) (Path.segments b) (stack a).
Proof. unfold stack. now rewrite segments_app, fold_left_app. Qed.

Lemma stack_slash (a : string) : stack (a +:+ "/") = stack a.
Proof. apply (stack_app a ""). Qed.

(** The stack of the path of a stack. *)
Lemma stack_path_of (st : list string) :
  forallb plain st = true -> stack (path_of st) = st.
Proof.
  intros H. unfold path_of.
  change ("/" +:+ Path.join_segments (rev st))
    with ("" +:+ "/" +:+ Path.join_segments (rev st)).
  rewrite stack_app. change (stack "") with (@nil string).
  destruct st as [|x st]; [reflexivity|].
  assert (Hrev : forallb plain (rev (x :: st)) = true).
  { apply forallb_forall. intros y Hy%in_rev.
    now apply (proj1 (forallb_forall _ _) H). }
  rewrite segments_join; [|simpl; now destruct (rev st)|exact Hrev].
  now rewrite fold_plain, rev_involutive, app_nil_r.
Qed.

(** *** Absolute paths *)

Lemma join_segments_snoc (l : list string) (x : string) :
  l <> [] ->
  Path.join_segments (l ++ [x]) = Path.join_segments l +:+ "/" +:+ x.
Proof.
  induction l as [|y [|z l] IH]; intros H; [congruence|reflexivity|].
  change (Path.join_segments ((y :: z :: l) ++ [x]))
    with (y +:+ "/" +:+ Path.join_segments ((z :: l) ++ [x])).
  rewrite IH by discriminate.
  change (Path.join_segments (y :: z :: l))
    with (y +:+ "/" +:+ Path.join_segments (z :: l)).
  now rewrite !ExtractFacts.append_assoc.
Qed.

Lemma path_of_cons (x : string) (st : list string) :
  st <> [] -> path_of (x :: st) = path_of st +:+ "/" +:+ x.
Proof.
  intros H. unfold path_of. simpl rev.
  rewrite join_segments_snoc; [now rewrite !ExtractFacts.append_assoc|].
  intros E. apply H. apply (f_equal (@rev string)) in E.
  now rewrite rev_involutive in E.
Qed.

Lemma ends_with_slash_app (a : string) (c : ascii) (b : string) :
  Path.ends_with_slash (a +:+ String c b) = Path.ends_with_slash (String c b).
Proof.
  induction a as [|d a IH]; [reflexivity|].
  rewrite append_cons.
  change (Path.ends_with_slash (String d (a +:+ String c b)))
    with (match a +:+ String c b with
          | EmptyString => Str.eqb_char d "/"
          | _ => Path.ends_with_slash (a +:+ String c b)
          end).
  destruct (a +:+ String c b) eqn:E; [|exact IH].
  destruct a; discriminate.
Qed.

Lemma plain_not_slashed (x : string) : plain x = true -> Path.ends_with_slash x = false.
Proof.
  intros (_ & _ & _ & H)%plain_spec.
  induction x as [|c x IH]; [reflexivity|].
  simpl in H. apply orb_false_iff in H as [Hc Hx].
  destruct x as [|d x].
  - simpl. destruct (Str.eqb_char c "/") eqn:E; [|reflexivity].
    apply eqb_char_true in E. subst c. now rewrite eqb_char_refl in Hc.
  - exact (IH Hx).
Qed.

Lemma path_of_not_slashed (st : list string) :
  st <> [] -> forallb plain st = true -> Path.ends_with_slash (path_of st) = false.
Proof.
  intros Hne H. destruct st as [|x st]; [congruence|].
  simpl in H. apply andb_true_iff in H as [Hx _].
  pose proof (plain_not_slashed _ Hx) as Hs.
  pose proof (plain_spec _ Hx) as (Hx0 & _).
  destruct x as [|c x]; [congruence|].
  destruct st as [|y st].
  - unfold path_of. simpl rev. simpl Path.join_segments.
    change ("/" +:+ String c x) with ("/" +:+ String c x).
    now rewrite ends_with_slash_app.
  - rewrite path_of_cons by discriminate.
    rewrite <- ExtractFacts.append_assoc. now rewrite ends_with_slash_app.
Qed.

(** The key of a path that ends in a name. *)
Lemma key_not_slashed (p : string) :
  p <> "" -> Path.ends_with_slash p = false ->
  Fs.key p = p /\ Fs.key (p +:+ "/") = p.
Proof.
  intros Hne Hs.
  assert (H : forall c q, Path.ends_with_slash (String c q) = false ->
                          exists d rest, rev (Str.chars (String c q)) = d :: rest
                                         /\ Str.eqb_char d "/" = false).
  { intros c q. revert c. induction q as [|c' q IH]; intros c H.
    - exists c, []. split; [reflexivity|exact H].
    - destruct (IH c' H) as (d & rest & Hr & Hd).
      exists d, (rest ++ [c]). split; [|exact Hd].
      change (Str.chars (String c (String c' q)))
        with ([c] ++ Str.chars (String c' q)).
      rewrite rev_app_distr, Hr. reflexivity. }
  destruct p as [|c p]; [congruence|].
  destruct (H c p Hs) as (d & rest & Hr & Hd).
  split.
  - unfold Fs.key. rewrite Hr. cbn [Fs.strip_slashes]. rewrite Hd.
    now rewrite <- Hr, rev_involutive, of_chars_chars.
  - unfold Fs.key. rewrite chars_app, rev_app_distr.
    change (rev (Str.chars "/")) with ["/"%char]. cbn [app Fs.strip_slashes].
    rewrite eqb_char_refl, Hr. cbn [Fs.strip_slashes].
    rewrite Hd. now rewrite <- Hr, rev_involutive, of_chars_chars.
Qed.

Lemma join_segments_nonempty (l : list string) :
  l <> [] -> forallb plain l = true -> Path.join_segments l <> "".
Proof.
  destruct l as [|x [|y l]]; intros Hne H; [congruence| |].
  - simpl in *. rewrite andb_true_r in H. now apply plain_spec in H.
  - simpl in H. apply andb_true_iff in H as [(Hx & _)%plain_spec _].
    change (Path.join_segments (x :: y :: l))
      with (x +:+ "/" +:+ Path.join_segments (y :: l)).
    destruct x; [congruence|discriminate].
Qed.

(** [path.normalize] of an absolute path. *)
Lemma normalize_absolute (p : string) :
  Path.isAbsolute p = true ->
  Path.normalize p
  = match stack p with
    | [] => "/"
    | st => if Path.ends_with_slash p then path_of st +:+ "/" else path_of st
    end.
Proof.
  intros Ha. unfold Path.normalize, Path.normalizeString. rewrite Ha. cbn [negb].
  destruct p as [|c p]; [discriminate|]. cbn [String.eqb].
  fold (stack (String c p)).
  pose proof (stack_plain (String c p)) as Hp.
  destruct (stack (String c p)) as [|x st] eqn:Hst; [reflexivity|].
  assert (Hrev : forallb plain (rev (x :: st)) = true).
  { apply forallb_forall. intros y Hy%in_rev.
    now apply (proj1 (forallb_forall _ _) Hp). }
  assert (Hne : rev (x :: st) <> []) by (simpl; now destruct (rev st)).
  pose proof (join_segments_nonempty _ Hne Hrev) as Hj.
  apply String.eqb_neq in Hj. rewrite Hj.
  unfold path_of. destruct (Path.ends_with_slash (String c p)).
  - now rewrite ExtractFacts.append_assoc.
  - reflexivity.
Qed.

Lemma normalize_absolute_is_absolute (p : string) :
  Path.isAbsolute p = true -> Path.isAbsolute (Path.normalize p) = true.
Proof.
  intros Ha. rewrite (normalize_absolute _ Ha).
  destruct (stack p); [reflexivity|]. now destruct (Path.ends_with_slash p).
Qed.

Lemma stack_normalize (p : string) :
  Path.isAbsolute p = true -> stack (Path.normalize p) = stack p.
Proof.
  intros Ha. rewrite (normalize_absolute _ Ha).
  pose proof (stack_plain p) as Hp.
  destruct (stack p) as [|x st] eqn:Hst; [reflexivity|].
  destruct (Path.ends_with_slash p); [rewrite stack_slash|]; now apply stack_path_of.
Qed.

(** The key of [path.normalize] of an absolute path. *)
Lemma key_normalize (p : string) :
  Path.isAbsolute p = true -> Fs.key (Path.normalize p) = path_of (stack p).
Proof.
  intros Ha. rewrite (normalize_absolute _ Ha).
  pose proof (stack_plain p) as Hp.
  destruct (stack p) as [|x st] eqn:Hst; [reflexivity|].
  assert (Hne : path_of (x :: st) <> "") by discriminate.
  pose proof (path_of_not_slashed (x :: st) ltac:(discriminate) Hp) as Hs.
  destruct (key_not_slashed _ Hne Hs) as [H1 H2].
  now destruct (Path.ends_with_slash p).
Qed.



(** *** The paths of the backend *)

Section WithHost.

Variable E : Type.
Variable host : Host E.

Hypothesis dirname_absolute : Path.isAbsolute (dirname host) = true.

Abbreviation PROJECTS_DIR := (Backend.PROJECTS_DIR E host).

Lemma absolute_app (a b : string) :
  Path.isAbsolute a = true -> Path.isAbsolute (a +:+ b) = true.
Proof. destruct a as [|c a]; [discriminate|]. simpl. now destruct (Str.eqb_char "/" c). Qed.

Lemma fold_empty (kept : list string) :
  fold_left (Path.normalize_step false) (Path.segments "") kept = kept.
Proof. reflexivity. Qed.

(** [path.join] leaves out its empty arguments. *)
Lemma join_cons (a : string) (rest : list string) :
  a <> "" ->
  Path.join (a :: rest)
  = Path.normalize
      (Path.join_segments (a :: filter (fun a => negb (String.eqb a "")) rest)).
Proof. destruct a; [congruence|reflexivity]. Qed.

Lemma absolute_nonempty (a : string) : Path.isAbsolute a = true -> a <> "".
Proof. now destruct a. Qed.

Lemma PROJECTS_DIR_path : PROJECTS_DIR = path_of ("projects" :: stack (dirname host)).
Proof.
  unfold Backend.PROJECTS_DIR.
  rewrite join_cons by now apply absolute_nonempty.
  change (Path.join_segments _) with (dirname host +:+ "/" +:+ "projects").
  rewrite normalize_absolute by now apply absolute_app.
  rewrite stack_app. rewrite (segments_plain "projects" eq_refl). cbn [fold_left].
  rewrite (step_plain _ "projects" eq_refl).
  change (dirname host +:+ "/" +:+ "projects")
    with (dirname host +:+ String "/" "projects").
  now rewrite ends_with_slash_app.
Qed.

Lemma PROJECTS_DIR_stack : stack PROJECTS_DIR = "projects" :: stack (dirname host).
Proof.
  rewrite PROJECTS_DIR_path. apply stack_path_of.
  simpl. now rewrite stack_plain.
Qed.

Lemma PROJECTS_DIR_self : path_of (stack PROJECTS_DIR) = PROJECTS_DIR.
Proof. rewrite PROJECTS_DIR_stack. symmetry. apply PROJECTS_DIR_path. Qed.

Lemma PROJECTS_DIR_absolute : Path.isAbsolute PROJECTS_DIR = true.
Proof. now rewrite PROJECTS_DIR_path. Qed.

(** The project directory. *)
Lemma projectDir_absolute (projectId : string) :
  Path.isAbsolute (Path.join [PROJECTS_DIR; projectId]) = true
  /\ stack (Path.join [PROJECTS_DIR; projectId])
     = fold_left (Path.normalize_step false) (Path.segments projectId) (stack PROJECTS_DIR).
Proof.
  pose proof PROJECTS_DIR_absolute as Ha.
  rewrite join_cons by now apply absolute_nonempty.
  destruct projectId as [|c' pid].
  - change (Path.join_segments _) with PROJECTS_DIR.
    split; [now apply normalize_absolute_is_absolute|].
    now rewrite stack_normalize.
  - change (Path.join_segments _) with (PROJECTS_DIR +:+ "/" +:+ String c' pid).
    split; [apply normalize_absolute_is_absolute; now apply absolute_app|].
    rewrite stack_normalize by now apply absolute_app.
    apply stack_app.
Qed.

(** [path.resolve] of a relative name in an absolute directory. *)
Lemma resolve_relative (cwd dir filename : string) :
  Path.isAbsolute dir = true ->
  Path.isAbsolute filename = false ->
  Path.resolve cwd [dir; filename]
  = path_of (fold_left (Path.normalize_step false) (Path.segments filename) (stack dir)).
Proof.
  intros Hd Hf. unfold Path.resolve. cbn [rev app Path.resolve_from].
  destruct dir as [|c dir]; [discriminate|].
  destruct filename as [|c' filename].
  - cbn [String.eqb]. rewrite Hd. unfold Path.normalizeString. cbn [negb].
    fold (stack (String c dir +:+ "/" +:+ "")). now rewrite stack_app.
  - cbn [String.eqb]. rewrite Hf. cbn [String.eqb]. rewrite Hd.
    unfold Path.normalizeString. cbn [negb].
    fold (stack (String c dir +:+ "/" +:+ (String c' filename +:+ "/" +:+ ""))).
    rewrite stack_app, segments_app, fold_left_app. reflexivity.
Qed.

(** The key of the path the file functions work on. *)
Lemma filePath_key (projectId filename : string) :
  Fs.key (filePath E host projectId filename)
  = path_of (fold_left (Path.normalize_step false) (Path.segments filename)
               (fold_left (Path.normalize_step false) (Path.segments projectId)
                  (stack PROJECTS_DIR))).
Proof.
  pose proof PROJECTS_DIR_absolute as Ha.
  unfold filePath. fold PROJECTS_DIR.
  rewrite join_cons by now apply absolute_nonempty.
  destruct projectId as [|c1 pid]; destruct filename as [|c2 filename].
  - change (Path.join_segments _) with PROJECTS_DIR. now rewrite key_normalize.
  - change (Path.join_segments _) with (PROJECTS_DIR +:+ "/" +:+ String c2 filename).
    rewrite key_normalize by now apply absolute_app.
    now rewrite stack_app.
  - change (Path.join_segments _) with (PROJECTS_DIR +:+ "/" +:+ String c1 pid).
    rewrite key_normalize by now apply absolute_app.
    now rewrite stack_app.
  - change (Path.join_segments _)
      with (PROJECTS_DIR +:+ "/" +:+ (String c1 pid +:+ "/" +:+ String c2 filename)).
    rewrite key_normalize by now apply absolute_app.
    now rewrite stack_app, segments_app, fold_left_app.
Qed.

End WithHost.

End PathFacts.

(** ** The file a validated name leads to *)

Module PathProperties.

Import Backend Effects Segments StrFacts PathFacts.

Section WithHost.

Variable E : Type.
Variable host : Host E.

Abbreviation PROJECTS_DIR := (Backend.PROJECTS_DIR E host).

Lemma filePath_resolved (projectId filename : string) :
  Path.isAbsolute (dirname host) = true ->
  Path.isAbsolute filename = false ->
  Fs.key (filePath E host projectId filename)
  = Path.resolve (cwd host) [Path.join [PROJECTS_DIR; projectId]; filename].
Proof.
  intros Hd Hf.
  destruct (projectDir_absolute E host Hd projectId) as [Ha Hs].
  rewrite (resolve_relative _ _ _ Ha Hf), Hs.
  now apply filePath_key.
Qed.

(** X16.  For a relative file name, the file the file functions work on,
    named by [path.join], is the file that was validated, named by
    [path.resolve]. *)
Theorem validated_file_is_the_file_used (projectId filename : string) :
  Path.isAbsolute (dirname host) = true ->
  Path.isAbsolute filename = false ->
  Fs.key (filePath E host projectId filename)
  = Path.resolve (cwd host) [Path.join [PROJECTS_DIR; projectId]; filename].
Proof. apply filePath_resolved. Qed.

(** The directory of a plainly named project. *)
Lemma projectDir_plain (projectId : string) :
  Path.isAbsolute (dirname host) = true ->
  plain projectId = true ->
  Path.join [PROJECTS_DIR; projectId] = PROJECTS_DIR +:+ "/" +:+ projectId
  /\ stack (Path.join [PROJECTS_DIR; projectId]) = projectId :: stack PROJECTS_DIR.
Proof.
  intros Hd Hp.
  pose proof (PROJECTS_DIR_absolute E host Hd) as Ha.
  pose proof (plain_spec _ Hp) as (Hne & _ & _ & Hslash).
  assert (Hst : stack (PROJECTS_DIR +:+ "/" +:+ projectId)
                = projectId :: stack PROJECTS_DIR).
  { rewrite stack_app, (segments_plain _ Hslash). cbn [fold_left].
    now apply step_plain. }
  assert (Hj : Path.join [PROJECTS_DIR; projectId]
               = PROJECTS_DIR +:+ "/" +:+ projectId).
  { rewrite join_cons by now apply absolute_nonempty.
    destruct projectId as [|c pid]; [congruence|].
    change (Path.join_segments _) with (PROJECTS_DIR +:+ "/" +:+ String c pid).
    rewrite normalize_absolute by now apply absolute_app.
    rewrite Hst.
    replace (Path.ends_with_slash (PROJECTS_DIR +:+ "/" +:+ String c pid))
      with false.
    - rewrite path_of_cons by (rewrite (PROJECTS_DIR_stack E host Hd); discriminate).
      now rewrite (PROJECTS_DIR_self E host Hd).
    - symmetry. rewrite <- ExtractFacts.append_assoc, ends_with_slash_app.
      now apply plain_not_slashed. }
  split; [exact Hj|]. now rewrite Hj.
Qed.

(** X17.  In a plainly named project a relative file name that the
    validation accepts leads to a file inside the projects directory. *)
Theorem validated_file_is_inside_PROJECTS_DIR (projectId filename : string) :
  Path.isAbsolute (dirname host) = true ->
  plain projectId = true ->
  Path.isAbsolute filename = false ->
  validateFilePath E host projectId filename = true ->
  within PROJECTS_DIR (Fs.key (filePath E host projectId filename)) = true.
Proof.
  intros Hd Hp Hf Hv.
  rewrite (filePath_resolved _ _ Hd Hf).
  apply SandboxFacts.validateFilePath_true in Hv as [Hv _].
  destruct (projectDir_plain projectId Hd Hp) as [Hj _].
  fold PROJECTS_DIR in Hv. rewrite Hj in Hv at 1.
  apply startsWith_inv in Hv as [t Ht]. rewrite Ht.
  unfold within. rewrite !ExtractFacts.append_assoc.
  rewrite <- (ExtractFacts.append_assoc PROJECTS_DIR "/").
  now rewrite startsWith_app, orb_true_r.
Qed.

(** *** Making the project directory *)

Lemma prefixes_last (base : string) (l : list string) :
  l <> [] -> In (base +:+ "/" +:+ Path.join_segments l) (Fs.prefixes base l).
Proof.
  revert base. induction l as [|x [|y l] IH]; intros base H; [congruence| |].
  - now left.
  - right.
    change (Path.join_segments (x :: y :: l))
      with (x +:+ "/" +:+ Path.join_segments (y :: l)).
    specialize (IH (base +:+ "/" +:+ x) ltac:(discriminate)).
    now rewrite !ExtractFacts.append_assoc in *.
Qed.

Lemma mkdir_steps_add (ps : list string) (fs fs' : Fs.store) :
  fold_left Fs.mkdir_step ps (Ok fs) = Ok fs' ->
  fs ⊆ fs'
  /\ (forall p, In p ps -> fs' !! p = Some Fs.Dir)
  /\ (forall p c, fs' !! p = Some (Fs.File c) -> fs !! p = Some (Fs.File c)).
Proof.
  revert fs. induction ps as [|q ps IH]; intros fs H.
  - simpl in H. injection H as <-. repeat split; [reflexivity|intros p []|auto].
  - simpl in H. destruct (fs !! q) as [[c|]|] eqn:Hq.
    + exfalso. clear -H. unfold Fs.fs_error in H.
      induction ps as [|p ps IH]; simpl in H; [discriminate|auto].
    + destruct (IH _ H) as (Hsub & Hdirs & Hfiles).
      split; [exact Hsub|]. split; [|exact Hfiles].
      intros p [<-|Hin]; [|now apply Hdirs].
      now apply (lookup_weaken _ _ _ _ Hq).
    + destruct (IH _ H) as (Hsub & Hdirs & Hfiles).
      split; [etransitivity; [|exact Hsub]; now apply insert_subseteq|].
      split.
      * intros p [<-|Hin]; [|now apply Hdirs].
        eapply lookup_weaken; [apply lookup_insert_eq|exact Hsub].
      * intros p c Hp. specialize (Hfiles p c Hp).
        destruct (decide (p = q)) as [->|Hne].
        -- rewrite lookup_insert_eq in Hfiles. discriminate.
        -- now rewrite lookup_insert_ne in Hfiles.
Qed.

Lemma filter_plain (l : list string) :
  forallb plain l = true ->
  filter (fun a => negb (String.eqb a "")) l = l.
Proof.
  induction l as [|x l IH]; intros H; [reflexivity|].
  simpl in H. apply andb_true_iff in H as [Hx Hl].
  pose proof (plain_spec _ Hx) as (Hne & _).
  destruct x as [|c x]; [congruence|].
  change (filter (fun a => negb (String.eqb a "")) (String c x :: l))
    with (String c x :: filter (fun a => negb (String.eqb a "")) l).
  now rewrite IH.
Qed.

(** The directories [mkdirSync] makes for a path of the given stack. *)
Lemma mkdirSync_recursive_path (fs fs' : Fs.store) (st : list string) (p : string) :
  st <> [] -> forallb plain st = true ->
  Fs.key p = path_of st ->
  Fs.mkdirSync_recursive fs p = Ok fs' ->
  fs ⊆ fs'
  /\ fs' !! Fs.key p = Some Fs.Dir
  /\ (forall q c, fs' !! q = Some (Fs.File c) -> fs !! q = Some (Fs.File c)).
Proof.
  intros Hne Hp Hk H. unfold Fs.mkdirSync_recursive in H. rewrite Hk in H.
  assert (Hrev : forallb plain (rev st) = true).
  { apply forallb_forall. intros y Hy%in_rev.
    now apply (proj1 (forallb_forall _ _) Hp). }
  assert (Hrne : rev st <> []).
  { intros E0. apply Hne. apply (f_equal (@rev string)) in E0.
    now rewrite rev_involutive in E0. }
  unfold path_of in H.
  change ("/" +:+ Path.join_segments (rev st))
    with ("" +:+ "/" +:+ Path.join_segments (rev st)) in H.
  rewrite segments_app, (segments_join _ Hrne Hrev) in H.
  change (Path.segments "" ++ rev st) with ("" :: rev st) in H.
  change (filter (fun a => negb (String.eqb a "")) ("" :: rev st))
    with (filter (fun a => negb (String.eqb a "")) (rev st)) in H.
  rewrite (filter_plain _ Hrev) in H.
  apply mkdir_steps_add in H as (Hsub & Hdirs & Hfiles).
  split; [exact Hsub|]. split; [|exact Hfiles].
  rewrite Hk. apply Hdirs. apply (prefixes_last "" _ Hrne).
Qed.

(** X12.  [ensureProjectDir], for a plainly named project: when it returns,
    the project directory is there; what it added are directories, and
    nothing that was there is changed; called again, it does nothing. *)
Theorem ensureProjectDir_makes_the_directory (projectId : string) (m m' : Machine E) :
  Path.isAbsolute (dirname host) = true ->
  plain projectId = true ->
  ensureProjectDir E host projectId m = (Ok tt, m') ->
  Fs.existsSync (files m') (Path.join [PROJECTS_DIR; projectId]) = true
  /\ files m ⊆ files m'
  /\ (forall p c, files m' !! p = Some (Fs.File c) -> files m !! p = Some (Fs.File c))
  /\ emitted m' = emitted m
  /\ ensureProjectDir E host projectId m' = (Ok tt, m').
Proof.
  intros Hd Hp. unfold ensureProjectDir, bind, Backend.existsSync, gets, ret.
  cbn [fst snd].
  destruct (Fs.existsSync (files m) (Path.join [PROJECTS_DIR; projectId])) eqn:Hex;
    cbn [negb].
  - intros [= <-]. rewrite Hex. repeat split; auto.
  - intros H. apply EffectFacts.on_files_ok in H as (Hmk & Hem & _).
    destruct (projectDir_plain projectId Hd Hp) as [Hj Hst].
    pose proof (projectDir_absolute E host Hd projectId) as [Ha _].
    assert (Hk : Fs.key (Path.join [PROJECTS_DIR; projectId])
                 = path_of (projectId :: stack PROJECTS_DIR)).
    { rewrite join_cons by (apply absolute_nonempty, (PROJECTS_DIR_absolute E host Hd)).
      pose proof (plain_spec _ Hp) as (Hne & _).
      destruct projectId as [|c pid]; [congruence|].
      change (Path.join_segments _) with (PROJECTS_DIR +:+ "/" +:+ String c pid).
      rewrite key_normalize
        by (apply absolute_app, (PROJECTS_DIR_absolute E host Hd)).
      rewrite <- Hj. now rewrite Hst. }
    assert (Hplain : forallb plain (projectId :: stack PROJECTS_DIR) = true)
      by (simpl; now rewrite Hp, stack_plain).
    destruct (mkdirSync_recursive_path _ _ (projectId :: stack PROJECTS_DIR) _
                ltac:(discriminate) Hplain Hk Hmk)
      as (Hsub & Hdir & Hfiles).
    assert (Hex' : Fs.existsSync (files m') (Path.join [PROJECTS_DIR; projectId]) = true)
      by (unfold Fs.existsSync, Fs.stat; now rewrite Hdir).
    rewrite Hex'. repeat split; auto.
Qed.

End WithHost.

End PathProperties.

(** ** The chat endpoint *)

Module ApiFacts.

Import Backend Effects EffectFacts Api.

Lemma startsWith_running (s : string) :
  Str.startsWith "running" s = true -> Str.startsWith "run" s = true.
Proof.
  destruct s as [|a [|b [|c s]]]; simpl; try discriminate.
  - now rewrite andb_false_r.
  - now rewrite !andb_false_r.
  - intros H. apply andb_prop in H as [-> H]. apply andb_prop in H as [-> H].
    apply andb_prop in H as [-> _]. reflexivity.
Qed.

Lemma includes_running (s : string) :
  Str.includes "running" s = true -> Str.includes "run" s = true.
Proof.
  induction s as [|c s IH].
  - simpl. discriminate.
  - intros H.
    change (Str.startsWith "running" (String c s) || Str.includes "running" s = true) in H.
    change (Str.startsWith "run" (String c s) || Str.includes "run" s = true).
    apply orb_prop in H as [H|H].
    + now rewrite (startsWith_running _ H).
    + rewrite (IH H). apply orb_true_r.
Qed.

(** X19.  The status word [running] is never reached: a message that has it,
    in whatever case, has the command word [run], and the command words
    are tried first. *)
Theorem running_is_a_command (message : string) :
  Str.includes "running" (Str.toLowerCase message) = true ->
  determineMessageType message = Command.
Proof.
  intros H. unfold determineMessageType, some, commandKeywords.
  cbn [existsb]. rewrite (includes_running _ H).
  now rewrite !orb_true_r.
Qed.

(** X18.  What is extracted from a reply is an object or nothing: never an
    array, a text, a number or a truth value, whatever the reply. *)
Theorem extraction_gives_object_or_null (text : string) :
  extractJSONFromResponse text = VNull
  \/ exists props, extractJSONFromResponse text = VObj props.
Proof.
  unfold extractJSONFromResponse.
  destruct (jsonRegex_match text) as [block|] eqn:Hm; [|now left].
  destruct (JSON.parse block) as [parsed|] eqn:Hp; [|now left].
  destruct (ExtractFacts.jsonRegex_match_inv _ _ Hm)
    as (pre & mid & post & _ & _ & _ & ->).
  destruct (JSONFacts.parse_brace_object _ _ Hp) as [props ->].
  right. now exists props.
Qed.

Section WithHost.

Variable rt : Runtime.
Variable E : Type.
Variable host : Host E.
Variable platform : Platform.

Abbreviation Server := (Api.Server E).
Abbreviation chat := (Api.chat rt E host platform).
Abbreviation chat_try := (Api.chat_try rt E host platform).
Abbreviation seed_messages := (Api.seed_messages platform).
Abbreviation orchestrateTasks := (Backend.orchestrateTasks rt E host).

(** The history of a project before a request: none is an empty one. *)
Abbreviation history_before s id := (default [] (conversationHistory E s !! id)).











(** What [chat_try] does to the state: nothing when it throws. *)
Lemma chat_tail_state (id : string) (dirTree : value)
  (categorized : list (string * MessageType)) (s : Server) :
  match bind (history_of E id)
          (fun history =>
             bind (orchestrate rt E host
                     (seed_messages dirTree history categorized) id)
               (fun latestMessages =>
                  bind (remember E id latestMessages)
                    (fun _ => ret (VObj [("reply", finalReply latestMessages)])))) s
  with
  | (Ok _, s') =>
      exists history,
        conversationHistory E s' = <[id := history]> (conversationHistory E s)
        /\ (conversationHistory E s !! id = None -> assoc id (Object_prototype E) = None)
  | (Throw _, s') => s' = s
  end.
Proof.
  unfold bind at 1, history_of.
  destruct (conversationHistory E s !! id) as [old|] eqn:Hold.
  - unfold bind, orchestrate, remember, modify, ret. cbn [conversationHistory machine].
    rewrite Hold. eexists. split; [reflexivity|discriminate].
  - destruct (assoc id (Object_prototype E)) eqn:Hp; [reflexivity|].
    unfold bind, orchestrate, remember, modify, ret. cbn [conversationHistory machine].
    rewrite lookup_insert_eq, insert_insert_eq. eexists. split; [reflexivity|auto].
Qed.

Lemma chat_try_state (userMessages : list value) (id : string) (s : Server) :
  match chat_try userMessages id s with
  | (Ok _, s') =>
      exists history,
        conversationHistory E s' = <[id := history]> (conversationHistory E s)
        /\ (conversationHistory E s !! id = None -> assoc id (Object_prototype E) = None)
  | (Throw _, s') => s' = s
  end.
Proof.
  unfold Api.chat_try.
  unfold bind at 1, lift at 1.
  destruct (map_throwing categorize userMessages) as [categorized|e]; [|reflexivity].
  unfold bind at 1, gets at 1. cbn beta iota. cbn [fst snd].
  destruct (Fs.existsSync (files (machine E s)) _).
  - unfold bind at 1.
    destruct (getProjectTree platform _ _ _) as [dirTree|e]; [|reflexivity].
    apply chat_tail_state.
  - unfold bind at 1, ret at 1. apply chat_tail_state.
Qed.

(** X22.  The history is an object, and the name of a project is looked up
    in it as it is: for a project named like a member of
    [Object.prototype] ([constructor], [toString], ...) what is found is
    no array, the request fails before the model is asked, and nothing
    changes.  No request gives such a project a history. *)
Theorem inherited_project_name_cannot_chat (body : value) (s : Server) :
  no_inherited_key E s ->
  no_inherited_key E (snd (chat body s))
  /\ forall id userMessages,
       JS.get body "projectId" = Ok (VStr id) ->
       JS.get body "userMessages" = Ok (VArr userMessages) ->
       assoc id (Object_prototype E) <> None ->
       exists e, chat body s = (Next e, s).
Proof.
  intros Hs. split.
  - unfold Api.chat.
    destruct body; try exact Hs;
      destruct (JS.get _ "userMessages") as [[| | | | |userMessages|]|]; try exact Hs;
      destruct (JS.get _ "projectId") as [[| | | |id| |]|]; try exact Hs;
      destruct (String.eqb id ""); try exact Hs;
      pose proof (chat_try_state userMessages id s) as H;
      destruct (Api.chat_try rt E host platform userMessages id s) as [[reply|e] s1];
      simpl; try (subst s1; exact Hs);
      destruct H as (history & Hh & Hnew);
      intros other Ho; rewrite Hh;
      (destruct (decide (other = id)) as [->|Hne];
       [|rewrite lookup_insert_ne by auto; now apply Hs]);
      exfalso; apply Ho, Hnew, Hs, Ho.
  - intros id userMessages Hid Hu Hp. unfold Api.chat.
    assert (Hne : String.eqb id "" = false).
    { apply String.eqb_neq. intros ->. apply Hp. reflexivity. }
    pose proof (chat_try_state userMessages id s) as H.
    assert (Ht : exists e, Api.chat_try rt E host platform userMessages id s
                           = (Throw e, s)).
    { destruct (Api.chat_try rt E host platform userMessages id s) as [[reply|e] s1].
      - destruct H as (_ & _ & Hnew). exfalso. apply Hp, Hnew, Hs, Hp.
      - subst s1. eauto. }
    destruct Ht as [e Ht].
    destruct body; try discriminate; rewrite Hid, Hu, Hne, Ht; eauto.
Qed.

End WithHost.

End ApiFacts.

(** ** The claims on concrete runs *)

Module Runs.

Import Backend Scripted.

Abbreviation rt := Scripted.runtime.
Abbreviation host := Scripted.host.
Abbreviation model_reply := (Backend.model_reply script host).
Abbreviation at_pass := (Backend.at_pass rt script host).
Abbreviation pass := (Backend.pass rt script host).

Lemma below_bound (k : nat) : (k <? MAX_ITERATIONS) = true -> k < MAX_ITERATIONS.
Proof. apply Nat.ltb_lt. Qed.

(** Decides a closed equation, or a closed inequation, by running it. *)
Ltac run := vm_compute; first [reflexivity | discriminate].

(** The model is out of quota at the first request. *)
Lemma model_failure_ends_run_witness :
  model_reply (start [Throw (Error "insufficient_quota")])
  = Throw (Error "insufficient_quota")
  /\ messages script (run disk [Throw (Error "insufficient_quota")] seed "site")
     = seed ++ [system_message "Error during orchestration: insufficient_quota"]
  /\ modelCalls script (run disk [Throw (Error "insufficient_quota")] seed "site") = 1.
Proof.
  assert (H : model_reply (start [Throw (Error "insufficient_quota")])
              = Throw (Error "insufficient_quota")) by run.
  assert (Hat : at_pass 0 "site" (start [Throw (Error "insufficient_quota")])
                = Some (start [Throw (Error "insufficient_quota")])) by run.
  split; [exact H|].
  destruct (Orchestrator.model_failure_ends_run rt script host 0 seed "site"
              (machine disk [Throw (Error "insufficient_quota")])
              (start [Throw (Error "insufficient_quota")])
              (Error "insufficient_quota")
              (below_bound 0 eq_refl) Hat H) as (Hm & Hc & _).
  split; [exact Hm | exact Hc].
Defined.

(** A reply in plain words, with white space around it. *)
Lemma unparsable_reply_ends_run_witness :
  Str.trim "  I cannot do that.  " <> ""
  /\ Backend.extractJSONFromResponse (Str.trim "  I cannot do that.  ") = VNull
  /\ last (messages script (run disk [says "  I cannot do that.  "] seed "site"))
     = Some {| role := Assistant; content := VStr (Str.trim "  I cannot do that.  ") |}
  /\ called script (run disk [says "  I cannot do that.  "] seed "site") = [].
Proof.
  assert (H1 : Str.trim "  I cannot do that.  " <> "") by run.
  assert (H2 : Backend.extractJSONFromResponse (Str.trim "  I cannot do that.  ")
               = VNull) by run.
  assert (Hat : at_pass 0 "site" (start [says "  I cannot do that.  "])
                = Some (start [says "  I cannot do that.  "])) by run.
  assert (Hr : model_reply (start [says "  I cannot do that.  "])
               = Ok (Some "  I cannot do that.  ")) by run.
  split; [exact H1|]. split; [exact H2|].
  destruct (Orchestrator.unparsable_reply_ends_run rt script host 0 seed "site"
              (machine disk [says "  I cannot do that.  "])
              (start [says "  I cannot do that.  "]) "  I cannot do that.  "
              (below_bound 0 eq_refl) Hat Hr H1 H2)
    as (_ & Hl & Hc & _).
  split; [exact Hl | exact Hc].
Defined.

(** C2, as the spec has it, fails: the reply is not parseable, and the last
    message of the transcript is not the reply as it was given, but the
    reply trimmed. *)
Lemma unparsable_reply_is_trimmed :
  model_reply (start [says "  I cannot do that.  "]) = Ok (Some "  I cannot do that.  ")
  /\ Backend.extractJSONFromResponse "  I cannot do that.  " = VNull
  /\ last (messages script (run disk [says "  I cannot do that.  "] seed "site"))
     <> Some {| role := Assistant; content := VStr "  I cannot do that.  " |}.
Proof. split; [run|]. split; run. Qed.

(** The reply [done]: no function call, one meta-action. *)
Lemma no_function_calls_ends_run_witness :
  emitted (machine_of script (run disk [done] seed "site"))
  = [("metaAction",
      VObj [("action", VStr "refresh_page"); ("target", VStr "main");
            ("data", VObj [])])]
  /\ modelCalls script (run disk [done] seed "site") = 1
  /\ consecutiveFailures script (run disk [done] seed "site") = 0
  /\ called script (run disk [done] seed "site") = []
  /\ messages script (run disk [done] seed "site")
     = seed ++ [{| role := Assistant; content := explanation_of done_response |}].
Proof.
  assert (Hp : Backend.parses_to script host (start [done]) done_response).
  { eexists. split; [run|]. split; run. }
  assert (Hat : at_pass 0 "site" (start [done]) = Some (start [done])) by run.
  assert (Hf : Backend.function_calls_of done_response = Some []) by run.
  assert (Hm : Backend.meta_actions_of done_response
               = Some [VObj [("action", VStr "refresh_page"); ("target", VStr "main");
                             ("data", VObj [])]]) by run.
  destruct (Orchestrator.no_function_calls_ends_run rt script host 0 seed "site"
              (machine disk [done]) (start [done]) done_response _
              (below_bound 0 eq_refl) Hat Hp Hf Hm)
    as (He & Hn & Hc & Hl & _ & Hmsgs).
  split; [exact He|]. split; [exact Hn|]. split; [exact Hc|]. split; [exact Hl|].
  exact Hmsgs.
Defined.


(** The four parts of the policy on runs of the scripted host: the first
    pass of [three_unknown], a failing one; the second pass of
    [unknown_then_refresh], whose call succeeds after a failure; the third
    pass of [unknown_twice_then_constructor], whose result has no text; and
    the three failing passes of [three_unknown]. *)
Lemma failure_streak_policy_witness :
  (Backend.failing rt script host "site" (start three_unknown) = true
   /\ consecutiveFailures script (snd (pass "site" (start three_unknown)))
      = consecutiveFailures script (start three_unknown) + 1
   /\ fst (pass "site" (start three_unknown)) = Next
   /\ (exists reported warning,
         messages script (snd (pass "site" (start three_unknown)))
         = messages script (start three_unknown) ++ reported ++ adjust_message :: warning)
   /\ at_pass 1 "site" (start three_unknown)
      = Some (snd (pass "site" (start three_unknown))))
  /\ (exists r1 p b x texts,
        at_pass 1 "site" (start unknown_then_refresh) = Some r1
        /\ Backend.executes rt script host "site" r1 p b x
        /\ allSucceeded b = true
        /\ Backend.report_texts rt (functionResults b) = Some texts
        /\ consecutiveFailures script r1 = 1
        /\ fst (pass "site" r1) = Next
        /\ consecutiveFailures script (snd (pass "site" r1)) = 0)
  /\ (exists r2 p b x,
        at_pass 2 "site" (start unknown_twice_then_constructor) = Some r2
        /\ Backend.executes rt script host "site" r2 p b x
        /\ Backend.report_texts rt (functionResults b) = None
        /\ fst (pass "site" r2) = Break
        /\ consecutiveFailures script (snd (pass "site" r2))
           = consecutiveFailures script r2
        /\ Backend.orchestrateTasks rt script host seed "site"
             (machine disk unknown_twice_then_constructor)
           = snd (pass "site" r2))
  /\ (Backend.all_failing rt script host "site" (start three_unknown) 0 3 = true
      /\ exists j,
           0 <= j < 0 + 3
           /\ modelCalls script (run disk three_unknown seed "site") = S j
           /\ last (messages script (run disk three_unknown seed "site"))
              = Some failures_message
           /\ consecutiveFailures script (run disk three_unknown seed "site") = 3).
Proof.
  destruct (Orchestrator.failure_streak_policy rt script host)
    as (Hfailing & Hreset & Hreport & Hstreak).
  split; [|split; [|split]].
  - assert (Hat : at_pass 0 "site" (start three_unknown) = Some (start three_unknown))
      by run.
    assert (Hf : Backend.failing rt script host "site" (start three_unknown) = true)
      by run.
    assert (Hlt : (3 <=? consecutiveFailures script (start three_unknown) + 1) = false)
      by run.
    destruct (Hfailing 0 seed "site" (machine disk three_unknown) (start three_unknown)
                (below_bound 0 eq_refl) Hat
                (LoopFacts.failing_failing_pass rt script host "site" _ Hf))
      as (Hc & reported & Hp).
    rewrite Hlt in Hp. destruct Hp as (Hn & (warning & Hm & _) & _ & Hnext).
    split; [exact Hf|]. split; [exact Hc|]. split; [exact Hn|].
    split; [exists reported, warning; exact Hm | exact Hnext].
  - pose (r1 := snd (pass "site" (start unknown_then_refresh))).
    assert (Hat : at_pass 1 "site" (start unknown_then_refresh) = Some r1) by run.
    eassert (Hx : Backend.executing rt script host "site" r1 = Some (_, _, _)) by run.
    match type of Hx with
    | _ = Some (_, ?b, _) =>
        assert (Ha : allSucceeded b = true) by run;
        eassert (Ht : Backend.report_texts rt (functionResults b) = Some _) by run
    end.
    assert (Hone : consecutiveFailures script r1 = 1) by run.
    destruct (Hreset 1 seed "site" (machine disk unknown_then_refresh) r1 _ _ _ _
                Hat (LoopFacts.executing_executes rt script host _ _ _ _ _ Hx) Ha Ht)
      as [Hn Hz].
    eexists r1, _, _, _, _.
    split; [exact Hat|].
    split; [exact (LoopFacts.executing_executes rt script host _ _ _ _ _ Hx)|].
    split; [exact Ha|]. split; [exact Ht|]. split; [exact Hone|].
    split; [exact Hn | exact Hz].
  - pose (r2 := snd (pass "site"
                       (snd (pass "site" (start unknown_twice_then_constructor))))).
    assert (Hat : at_pass 2 "site" (start unknown_twice_then_constructor) = Some r2)
      by run.
    eassert (Hx : Backend.executing rt script host "site" r2 = Some (_, _, _)) by run.
    match type of Hx with
    | _ = Some (_, ?b, _) =>
        assert (Ht : Backend.report_texts rt (functionResults b) = None) by run
    end.
    destruct (Hreport 2 seed "site" (machine disk unknown_twice_then_constructor) r2
                _ _ _ (below_bound 2 eq_refl) Hat
                (LoopFacts.executing_executes rt script host _ _ _ _ _ Hx) Ht)
      as (Hb & Hc & Hend & _).
    eexists r2, _, _, _.
    split; [exact Hat|].
    split; [exact (LoopFacts.executing_executes rt script host _ _ _ _ _ Hx)|].
    split; [exact Ht|]. split; [exact Hb|]. split; [exact Hc | exact Hend].
  - assert (Hat : at_pass 0 "site" (start three_unknown) = Some (start three_unknown))
      by run.
    assert (Hfail : Backend.all_failing rt script host "site" (start three_unknown) 0 3
                    = true) by run.
    split; [exact Hfail|].
    apply (Hstreak 0 seed "site" (machine disk three_unknown) (start three_unknown)
             (proj1 (Nat.leb_le 3 MAX_ITERATIONS) eq_refl) Hat
             (LoopFacts.all_failing_spec rt script host "site" _ 0 3 Hfail)).
Defined.

(** C4, as the spec has it, fails.  In the run
    [unknown_twice_then_constructor] the passes 0 and 1 fail, and the count
    is 2.  The pass 2 executes one call, of [constructor], and the call
    succeeds: every call of the pass succeeds.  Its result has no text, so
    the report throws, the run ends there, and the count is still 2, not
    0. *)
Lemma unreportable_success_keeps_the_count :
  exists r2 p b x,
    at_pass 2 "site" (start unknown_twice_then_constructor) = Some r2
    /\ Backend.executes rt script host "site" r2 p b x
    /\ allSucceeded b = true
    /\ forallb Backend.is_succeeded (functionResults b) = true
    /\ snd (pass "site" r2) = run disk unknown_twice_then_constructor seed "site"
    /\ consecutiveFailures script (run disk unknown_twice_then_constructor seed "site")
       = 2
    /\ last (messages script (run disk unknown_twice_then_constructor seed "site"))
       = Some (system_message
                 "Error during orchestration: Cannot convert object to primitive value").
Proof.
  pose (r2 := snd (pass "site"
                     (snd (pass "site" (start unknown_twice_then_constructor))))).
  assert (Hat : at_pass 2 "site" (start unknown_twice_then_constructor) = Some r2)
    by run.
  eassert (Hx : Backend.executing rt script host "site" r2 = Some (_, _, _)) by run.
  eexists r2, _, _, _.
  split; [exact Hat|].
  split; [exact (LoopFacts.executing_executes rt script host _ _ _ _ _ Hx)|].
  split; [run|]. split; [run|]. split; [run|]. split; run.
Qed.

(** The same call of a registered function, twice in a row; and the two
    passes of [twice_constructor], the second of which ends the run while
    it reports. *)
Lemma repeated_calls_are_flagged_witness :
  at_pass 1 "site" (start twice_refresh)
  = Some (snd (pass "site" (start twice_refresh)))
  /\ (exists p b x,
        Backend.executes rt script host "site" (start twice_refresh) p b x
        /\ fst (pass "site" (start twice_refresh)) = Next
        /\ lastFunctionCalls script (snd (pass "site" (start twice_refresh)))
           = functionCallNames b)
  /\ In repeating_message
       (messages script (snd (pass "site" (snd (pass "site" (start twice_refresh))))))
  /\ (exists reported,
        messages script (snd (pass "site" (snd (pass "site" (start twice_refresh)))))
        = messages script (snd (pass "site" (start twice_refresh)))
          ++ reported ++ [repeating_message])
  /\ at_pass 2 "site" (start twice_refresh)
     = Some (snd (pass "site" (snd (pass "site" (start twice_refresh)))))
  /\ (exists r1 p b x,
        at_pass 1 "site" (start twice_constructor) = Some r1
        /\ Backend.executes rt script host "site" r1 p b x
        /\ Backend.report_texts rt (functionResults b) = None
        /\ fst (pass "site" r1) = Break
        /\ lastFunctionCalls script (snd (pass "site" r1))
           = lastFunctionCalls script r1
        /\ Backend.orchestrateTasks rt script host seed "site"
             (machine disk twice_constructor)
           = snd (pass "site" r1)).
Proof.
  destruct (Orchestrator.repeated_calls_are_flagged rt script host)
    as (Hgoing & Hrepeated & Hending).
  assert (Hat : at_pass 0 "site" (start twice_refresh) = Some (start twice_refresh))
    by run.
  eassert (Hx : Backend.executing rt script host "site" (start twice_refresh)
                = Some (_, _, _)) by run.
  assert (Hat' : at_pass 1 "site" (start twice_refresh)
                 = Some (snd (pass "site" (start twice_refresh)))) by run.
  split; [exact Hat'|].
  split.
  { match type of Hx with
    | _ = Some (_, ?b, _) =>
        eassert (Ht : Backend.report_texts rt (functionResults b) = Some _) by run
    end.
    destruct (Hgoing 0 seed "site" (machine disk twice_refresh) _ _ _ _ _
                Hat (LoopFacts.executing_executes rt script host _ _ _ _ _ Hx)
                Ht ltac:(run)) as [Hn Hl].
    eexists _, _, _.
    split; [exact (LoopFacts.executing_executes rt script host _ _ _ _ _ Hx)|].
    split; [exact Hn | exact Hl]. }
  eassert (Hx' : Backend.executing rt script host "site"
                   (snd (pass "site" (start twice_refresh))) = Some (_, _, _)) by run.
  match type of Hx' with
  | _ = Some (_, ?b, _) =>
      eassert (Ht : Backend.report_texts rt (functionResults b) = Some _) by run
  end.
  destruct (Hrepeated 0 seed "site" (machine disk twice_refresh) _ _ _ _ _ _ _ _ _
              Hat (LoopFacts.executing_executes rt script host _ _ _ _ _ Hx)
              Hat' (LoopFacts.executing_executes rt script host _ _ _ _ _ Hx')
              ltac:(run) Ht ltac:(run)) as (H1 & H2 & _ & _ & H4).
  split; [exact H1|]. split; [exact H2|]. split; [exact H4|].
  pose (r1 := snd (pass "site" (start twice_constructor))).
  assert (Hat1 : at_pass 1 "site" (start twice_constructor) = Some r1) by run.
  eassert (Hx1 : Backend.executing rt script host "site" r1 = Some (_, _, _)) by run.
  match type of Hx1 with
  | _ = Some (_, ?b, _) =>
      assert (Hnone : Backend.report_texts rt (functionResults b) = None) by run
  end.
  destruct (Hending 1 seed "site" (machine disk twice_constructor) r1 _ _ _
              (below_bound 1 eq_refl) Hat1
              (LoopFacts.executing_executes rt script host _ _ _ _ _ Hx1)
              (or_introl Hnone)) as (Hb & Hl & Hend).
  eexists r1, _, _, _.
  split; [exact Hat1|].
  split; [exact (LoopFacts.executing_executes rt script host _ _ _ _ _ Hx1)|].
  split; [exact Hnone|]. split; [exact Hb|]. split; [exact Hl | exact Hend].
Defined.

(** C6, as the spec has it, fails.  In the run [three_unknown] the passes
    1 and 2 (counted from 0) both execute function calls, with the same
    names in the same order; the pass 2 is the third failing one, the run
    ends there, and no message of the returned transcript has the word
    "repeating". *)
Lemma third_failure_hides_repetition :
  exists r1 r2 p1 p2 b1 b2 x1 x2,
    at_pass 1 "site" (start three_unknown) = Some r1
    /\ Backend.executes rt script host "site" r1 p1 b1 x1
    /\ at_pass 2 "site" (start three_unknown) = Some r2
    /\ Backend.executes rt script host "site" r2 p2 b2 x2
    /\ functionCallNames b2 = functionCallNames b1
    /\ snd (pass "site" r2) = run disk three_unknown seed "site"
    /\ existsb (mentions "repeating")
         (messages script (run disk three_unknown seed "site")) = false.
Proof.
  pose (r1 := snd (pass "site" (start three_unknown))).
  pose (r2 := snd (pass "site" r1)).
  assert (Hat1 : at_pass 1 "site" (start three_unknown) = Some r1) by run.
  eassert (Hx1 : Backend.executing rt script host "site" r1 = Some (_, _, _)) by run.
  assert (Hat2 : at_pass 2 "site" (start three_unknown) = Some r2) by run.
  eassert (Hx2 : Backend.executing rt script host "site" r2 = Some (_, _, _)) by run.
  eexists r1, r2, _, _, _, _, _, _.
  split; [exact Hat1|].
  split; [exact (LoopFacts.executing_executes rt script host _ _ _ _ _ Hx1)|].
  split; [exact Hat2|].
  split; [exact (LoopFacts.executing_executes rt script host _ _ _ _ _ Hx2)|].
  split; [run|]. split; run.
Qed.

(** The same holds of a pass that ends while it reports.  In the run
    [twice_constructor] the passes 0 and 1 both execute one call of
    [constructor], and no call fails; the result of the second has no
    text, the report throws, the run ends there before the names are
    compared, and no message of the returned transcript has the word
    "repeating". *)
Lemma failed_report_hides_repetition :
  exists r1 p0 p1 b0 b1 x0 x1,
    Backend.executes rt script host "site" (start twice_constructor) p0 b0 x0
    /\ at_pass 1 "site" (start twice_constructor) = Some r1
    /\ Backend.executes rt script host "site" r1 p1 b1 x1
    /\ functionCallNames b1 = functionCallNames b0
    /\ allSucceeded b0 = true
    /\ allSucceeded b1 = true
    /\ snd (pass "site" r1) = run disk twice_constructor seed "site"
    /\ existsb (mentions "repeating")
         (messages script (run disk twice_constructor seed "site")) = false.
Proof.
  pose (r1 := snd (pass "site" (start twice_constructor))).
  eassert (Hx0 : Backend.executing rt script host "site" (start twice_constructor)
                 = Some (_, _, _)) by run.
  assert (Hat1 : at_pass 1 "site" (start twice_constructor) = Some r1) by run.
  eassert (Hx1 : Backend.executing rt script host "site" r1 = Some (_, _, _)) by run.
  eexists r1, _, _, _, _, _, _.
  split; [exact (LoopFacts.executing_executes rt script host _ _ _ _ _ Hx0)|].
  split; [exact Hat1|].
  split; [exact (LoopFacts.executing_executes rt script host _ _ _ _ _ Hx1)|].
  split; [run|]. split; [run|]. split; [run|]. split; run.
Qed.

(** C1 on a run that never stops by itself: the same call at every pass.
    The model is asked 20 times and the transcript ends with the message
    of the bound. *)
Example twenty_passes :
  Backend.final_iteration rt script host seed "site"
    (machine disk (repeat (proposes "refreshUI" "{}") 30)) = 20
  /\ modelCalls script (run disk (repeat (proposes "refreshUI" "{}") 30) seed "site")
     = 20
  /\ last (messages script
             (run disk (repeat (proposes "refreshUI" "{}") 30) seed "site"))
     = Some (system_message "Max iterations reached. Orchestration ended.").
Proof. split; [run|]. split; run. Qed.

(** C7 fails on the code.  [toString] is not a name of the registry, yet
    a call of it is not answered with "Unknown function": the lookup
    finds the function that every object inherits, the call succeeds, and
    the pass counts as all-succeeded.  A name that no object inherits,
    like [compile], is answered with "Unknown function". *)
Theorem inherited_name_is_not_unknown :
  Backend.registered rt script host "toString" = false
  /\ messages script (run disk [proposes "toString" "{}"] seed "site")
     = seed
       ++ [ {| role := Assistant; content := VStr "calling toString" |};
            system_message "✅ toString succeeded: [object Undefined]" ]
  /\ consecutiveFailures script (run disk [proposes "toString" "{}"] seed "site") = 0
  /\ Backend.registered rt script host "compile" = false
  /\ messages script (run disk [proposes "compile" "{}"] seed "site")
     = seed
       ++ [ {| role := Assistant; content := VStr "calling compile" |};
            system_message "❌ compile failed: Unknown function";
            adjust_message ].
Proof. repeat (split; [run|]). run. Qed.

(** C8 fails on the code.  For the project [site], the file name
    [../site-old/index.html] resolves to a path outside the project
    directory, in the directory [site-old] next to it; the validation
    accepts it, because the text of the resolved path starts with the text
    of the project directory; [readFile] returns the content of that file
    and [createFile] writes a file there. *)
Theorem sibling_directory_passes_validation :
  Path.join [Backend.PROJECTS_DIR script host; "site"] = "/srv/backend/projects/site"
  /\ Path.resolve (cwd host)
       [Path.join [Backend.PROJECTS_DIR script host; "site"]; "../site-old/index.html"]
     = "/srv/backend/projects/site-old/index.html"
  /\ Backend.within "/srv/backend/projects/site"
       "/srv/backend/projects/site-old/index.html" = false
  /\ Backend.validateFilePath script host "site" "../site-old/index.html" = true
  /\ fst (Backend.readFile rt script host
            (VObj [("filename", VStr "../site-old/index.html")]) "site"
            (machine disk []))
     = Ok (VStr "<h1>old</h1>")
  /\ files (snd (Backend.createFile rt script host
                   (VObj [("filename", VStr "../site-old/new.html");
                          ("content", VStr "<h1>new</h1>")]) "site"
                   (machine disk [])))
     !! "/srv/backend/projects/site-old/new.html"
     = Some (Fs.File "<h1>new</h1>").
Proof. repeat (split; [run|]). run. Qed.

End Runs.

(** ** The further properties on concrete inputs *)

Module Examples.

Import Backend Scripted Fixtures Effects.

Abbreviation rt := Scripted.runtime.
Abbreviation host := Scripted.host.
Abbreviation chat := (Api.chat rt script host platform).

(** Decides a closed equation, or a closed inequation, by running it. *)
Ltac run := vm_compute; first [reflexivity | discriminate].


(** A reply of white space only, after one call. *)
Lemma empty_reply_ends_run_witness :
  exists r1,
    Backend.at_pass rt script host 1 "site" (start [proposes "refreshUI" "{}"; says "  "])
    = Some r1
    /\ Backend.model_reply script host r1 = Ok (Some "  ")
    /\ Str.trim "  " = ""
    /\ messages script
         (Backend.orchestrateTasks rt script host seed "site"
            (machine disk [proposes "refreshUI" "{}"; says "  "]))
       = messages script r1
    /\ modelCalls script
         (Backend.orchestrateTasks rt script host seed "site"
            (machine disk [proposes "refreshUI" "{}"; says "  "])) = 2.
Proof.
  pose (r1 := snd (Backend.pass rt script host "site"
                     (start [proposes "refreshUI" "{}"; says "  "]))).
  assert (Hat : Backend.at_pass rt script host 1 "site"
                  (start [proposes "refreshUI" "{}"; says "  "]) = Some r1) by run.
  assert (Hr : Backend.model_reply script host r1 = Ok (Some "  ")) by run.
  assert (Ht : Str.trim "  " = "") by run.
  destruct (RunProperties.empty_reply_ends_run rt script host 1 seed "site"
              (machine disk [proposes "refreshUI" "{}"; says "  "]) r1
              (Runs.below_bound 1 eq_refl) Hat
              (or_intror (ex_intro _ "  " (conj Hr Ht)))) as (Hm & Hn & _).
  exists r1. split; [exact Hat|]. split; [exact Hr|]. split; [exact Ht|].
  split; [exact Hm | exact Hn].
Defined.

(** The first pass of [twice_refresh]. *)
Lemma calls_are_reported_in_order_witness :
  exists p b x texts,
    Backend.executes rt script host "site" (start twice_refresh) p b x
    /\ Backend.report_texts rt (functionResults b) = Some texts
    /\ (exists calls,
          Backend.function_calls_of p = Some calls
          /\ map Backend.function_of (functionResults b) = map Backend.name_of calls
          /\ length texts = length calls)
    /\ exists advice,
         messages script (snd (Backend.pass rt script host "site" (start twice_refresh)))
         = messages script (start twice_refresh)
           ++ {| role := Assistant; content := Backend.explanation_of p |}
              :: map system_message texts ++ advice
         /\ length advice <= 2.
Proof.
  assert (Hat : Backend.at_pass rt script host 0 "site" (start twice_refresh)
                = Some (start twice_refresh)) by run.
  eassert (Hx : Backend.executing rt script host "site" (start twice_refresh)
                = Some (_, _, _)) by run.
  match type of Hx with
  | _ = Some (_, ?b, _) =>
      eassert (Ht : Backend.report_texts rt (functionResults b) = Some _) by run
  end.
  destruct (RunProperties.calls_are_reported_in_order rt script host 0 seed "site"
              (machine disk twice_refresh) _ _ _ _ _ Hat
              (LoopFacts.executing_executes rt script host _ _ _ _ _ Hx) Ht)
    as [Hcalls Hmsgs].
  eexists _, _, _, _.
  split; [exact (LoopFacts.executing_executes rt script host _ _ _ _ _ Hx)|].
  split; [exact Ht|]. split; [exact Hcalls | exact Hmsgs].
Defined.


(** A file name that leads out of the projects directory. *)
Lemma refused_path_changes_nothing_witness :
  Backend.validateFilePath script host "site" "../../etc/passwd" = false
  /\ Backend.readFile rt script host (VObj [("filename", VStr "../../etc/passwd")]) "site"
       (machine disk [])
     = (Throw (Error "Invalid file path"), machine disk [])
  /\ Backend.deleteFile rt script host (VObj [("filename", VStr "../../etc/passwd")]) "site"
       (machine disk [])
     = (Throw (Error "Invalid file path"), machine disk []).
Proof.
  assert (Hf : JS.own "filename" [("filename", VStr "../../etc/passwd")]
               = Some (VStr "../../etc/passwd")) by run.
  assert (Hv : Backend.validateFilePath script host "site" "../../etc/passwd" = false)
    by run.
  destruct (SandboxFacts.refused_path_changes_nothing rt script host
              [("filename", VStr "../../etc/passwd")] "site" "../../etc/passwd"
              (machine disk []) Hf Hv) as (H1 & _ & _ & H4).
  split; [exact Hv|]. split; [exact H1 | exact H4].
Defined.



(** The page of the project [site], deleted. *)
Lemma deleteFile_then_readFile_witness :
  Backend.deleteFile rt script host (VObj [("filename", VStr "index.html")]) "site"
    (machine disk [])
  = (Ok (VStr "File index.html deleted successfully."),
     snd (Backend.deleteFile rt script host (VObj [("filename", VStr "index.html")])
            "site" (machine disk [])))
  /\ exists name,
       JS.get (VObj [("filename", VStr "index.html")]) "filename" = Ok (VStr name)
       /\ Fs.existsSync (files (machine disk [])) (filePath script host "site" name) = true
       /\ Fs.existsSync
            (files (snd (Backend.deleteFile rt script host
                           (VObj [("filename", VStr "index.html")]) "site"
                           (machine disk []))))
            (filePath script host "site" name) = false.
Proof.
  assert (H : Backend.deleteFile rt script host (VObj [("filename", VStr "index.html")])
                "site" (machine disk [])
              = (Ok (VStr "File index.html deleted successfully."),
                 snd (Backend.deleteFile rt script host
                        (VObj [("filename", VStr "index.html")]) "site"
                        (machine disk []))))
    by run.
  split; [exact H|].
  destruct (EffectFacts.deleteFile_then_readFile rt script host _ _ _ _ _ H)
    as (name & Hn & _ & H1 & H2 & _).
  exists name. split; [exact Hn|]. split; [exact H1 | exact H2].
Defined.

(** The page of the project [site]. *)
Lemma file_functions_touch_their_file_only_witness :
  JS.get (page "index.html" "<h1>new</h1>") "filename" = Ok (VStr "index.html")
  /\ keeps_entries_but script
       [ Fs.key (filePath script host "site" "index.html");
         Fs.key (backupFile script host "site" "index.html" (machine disk [])) ]
       (machine disk [])
       (snd (Backend.writeFile rt script host (page "index.html" "<h1>new</h1>") "site"
               (machine disk [])))
  /\ snd (Backend.readFile rt script host (page "index.html" "<h1>new</h1>") "site"
            (machine disk []))
     = machine disk [].
Proof.
  assert (H : JS.get (page "index.html" "<h1>new</h1>") "filename"
              = Ok (VStr "index.html")) by run.
  destruct (EffectFacts.file_functions_touch_their_file_only rt script host
              (page "index.html" "<h1>new</h1>") "site" "index.html" (machine disk []) H)
    as (H1 & _ & _ & H4).
  split; [exact H|]. split; [exact H1 | exact H4].
Defined.

(** The copy of the page of the project [site]. *)
Lemma createBackup_keeps_a_copy_witness :
  Backend.createBackup script host "site" "index.html" (machine disk [])
  = (Ok tt, snd (Backend.createBackup script host "site" "index.html" (machine disk [])))
  /\ Fs.readFileSync (files (machine disk []))
       (originalFile script host "site" "index.html") = Ok "<h1>site</h1>"
  /\ Fs.readFileSync
       (files (snd (Backend.createBackup script host "site" "index.html"
                      (machine disk []))))
       (backupFile script host "site" "index.html" (machine disk []))
     = Ok "<h1>site</h1>".
Proof.
  assert (H : Backend.createBackup script host "site" "index.html" (machine disk [])
              = (Ok tt,
                 snd (Backend.createBackup script host "site" "index.html"
                        (machine disk [])))) by run.
  assert (Hr : Fs.readFileSync (files (machine disk []))
                 (originalFile script host "site" "index.html") = Ok "<h1>site</h1>")
    by run.
  destruct (EffectFacts.createBackup_keeps_a_copy script host "site" "index.html"
              _ _ _ H Hr) as (H1 & _).
  split; [exact H|]. split; [exact Hr | exact H1].
Defined.

(** A project [blog] that has no directory yet. *)
Lemma ensureProjectDir_makes_the_directory_witness :
  Path.isAbsolute (dirname host) = true
  /\ Segments.plain "blog" = true
  /\ Fs.existsSync (files (machine disk []))
       (Path.join [Backend.PROJECTS_DIR script host; "blog"]) = false
  /\ Fs.existsSync
       (files (snd (Backend.ensureProjectDir script host "blog" (machine disk []))))
       (Path.join [Backend.PROJECTS_DIR script host; "blog"]) = true.
Proof.
  assert (Hd : Path.isAbsolute (dirname host) = true) by run.
  assert (Hp : Segments.plain "blog" = true) by run.
  assert (Hn : Fs.existsSync (files (machine disk []))
                 (Path.join [Backend.PROJECTS_DIR script host; "blog"]) = false) by run.
  assert (H : Backend.ensureProjectDir script host "blog" (machine disk [])
              = (Ok tt,
                 snd (Backend.ensureProjectDir script host "blog" (machine disk []))))
    by run.
  destruct (PathProperties.ensureProjectDir_makes_the_directory script host "blog"
              _ _ Hd Hp H) as (H1 & _).
  split; [exact Hd|]. split; [exact Hp|]. split; [exact Hn | exact H1].
Defined.


(** A style sheet in a directory of the project [site]. *)
Lemma validated_file_is_the_file_used_witness :
  Path.isAbsolute (dirname host) = true
  /\ Path.isAbsolute "css/../css/site.css" = false
  /\ Fs.key (filePath script host "site" "css/../css/site.css")
     = Path.resolve (cwd host)
         [Path.join [Backend.PROJECTS_DIR script host; "site"]; "css/../css/site.css"].
Proof.
  assert (Hd : Path.isAbsolute (dirname host) = true) by run.
  assert (Hf : Path.isAbsolute "css/../css/site.css" = false) by run.
  split; [exact Hd|]. split; [exact Hf|].
  exact (PathProperties.validated_file_is_the_file_used script host "site"
           "css/../css/site.css" Hd Hf).
Defined.

(** The file of the project next to [site], which the validation accepts. *)
Lemma validated_file_is_inside_PROJECTS_DIR_witness :
  Backend.validateFilePath script host "site" "../site-old/index.html" = true
  /\ Backend.within (Backend.PROJECTS_DIR script host)
       (Fs.key (filePath script host "site" "../site-old/index.html")) = true.
Proof.
  assert (Hd : Path.isAbsolute (dirname host) = true) by run.
  assert (Hp : Segments.plain "site" = true) by run.
  assert (Hf : Path.isAbsolute "../site-old/index.html" = false) by run.
  assert (Hv : Backend.validateFilePath script host "site" "../site-old/index.html"
               = true) by run.
  split; [exact Hv|].
  exact (PathProperties.validated_file_is_inside_PROJECTS_DIR script host "site"
           "../site-old/index.html" Hd Hp Hf Hv).
Defined.

(** A question about the status. *)
Lemma running_is_a_command_witness :
  Str.includes "running" (Str.toLowerCase "Is the site RUNNING?") = true
  /\ Api.determineMessageType "Is the site RUNNING?" = Api.Command.
Proof.
  assert (H : Str.includes "running" (Str.toLowerCase "Is the site RUNNING?") = true)
    by run.
  split; [exact H|].
  exact (ApiFacts.running_is_a_command "Is the site RUNNING?" H).
Defined.



(** A request for a project named [constructor]. *)
Lemma inherited_project_name_cannot_chat_witness :
  Api.no_inherited_key script (server [done])
  /\ exists e,
       chat (request "constructor" "update the page") (server [done])
       = (Api.Next e, server [done]).
Proof.
  assert (Hs : Api.no_inherited_key script (server [done]))
    by (intros id _; apply lookup_empty).
  assert (Hid : JS.get (request "constructor" "update the page") "projectId"
                = Ok (VStr "constructor")) by run.
  assert (Hu : JS.get (request "constructor" "update the page") "userMessages"
               = Ok (VArr [VStr "update the page"])) by run.
  assert (Hp : Backend.assoc "constructor" (Backend.Object_prototype script) <> None)
    by run.
  split; [exact Hs|].
  exact (proj2 (ApiFacts.inherited_project_name_cannot_chat rt script host platform
                  (request "constructor" "update the page") (server [done]) Hs)
           "constructor" _ Hid Hu Hp).
Defined.

End Examples.
